(** * WxeUI multi-tier fragment cache (src/cache/fragment_cache.{h,cc})

    A shallow embedding of [WxeUI::Cache::FragmentCache]: the three tier
    maps with their LRU indices, statistics, the disk directory of the
    L3 tier, and the operations Get / Put / Remove / Clear / EvictLRU /
    CleanupExpired, followed by the properties of the cache.

    Conventions of the embedding.
    - [size_t] and [uint64_t] are 64-bit, [uint32_t] is 32-bit; every
      arithmetic operation of the source on them is followed by its
      wrap-around ([wrap64], [wrap32]).
    - [std::unordered_map<std::string, shared_ptr<CacheEntry>>] is a
      [gmap string CacheEntry.t]; entries are never shared between maps.
    - [LRUCache] (hash map of nodes plus doubly linked list between the
      [head] and [tail] sentinels) is the list of keys from [head->next]
      to [tail->prev]: most recently used first.
    - [std::chrono::steady_clock::now()] reads the field [clock_]
      (in clock ticks, nanoseconds); time passes between operations
      ([advance_clock]), not inside one.
    - File operations on the cache directory read and write [files_];
      whether the next [SaveToFile] / [LoadFromFile] succeeds is given by
      the script [io_], consumed one outcome per file operation (an
      exhausted script means success).  A write can fail at the open,
      during [write] (the stream is bad when [good ()] is read), or at
      the flush the stream's destructor makes after [good ()] was read.
      [std::filesystem::remove] is taken to succeed.
    - [double] is IEEE 754 binary64, rounding to nearest (ties to even);
      a double is given by its value.  Only the conversion of a counter
      and the quotient of two converted counters occur.
    - zlib's [compress2] / [uncompress] and [std::hash<std::string>] are
      external: they are parameters of the development.
    - [max_size * 0.9] is a [double] product in the source; it is compared
      here exactly ([10 * current >= 9 * max]), which coincides with the
      floating-point comparison for every size below 2^49.
    - Execution is sequential: mutexes are not modelled. *)

From Stdlib Require Import ZArith QArith Lia Strings.Byte.
From Stdlib Require Import Floats.SpecFloat.
From stdpp Require Import base gmap strings list fin_maps pretty.

Local Open Scope Z_scope.

(** ** Machine integers *)

Definition wrap64 (z : Z) : Z := z mod 2 ^ 64.
Definition wrap32 (z : Z) : Z := z mod 2 ^ 32.

(** [std::vector<uint8_t>::size()] *)
Definition vsize (d : list byte) : Z := Z.of_nat (length d).

(** ** Data model (fragment_cache.h) *)

Inductive CacheLevel := L1_GPU | L2_RAM | L3_DISK.

Global Instance CacheLevel_eq_dec : EqDecision CacheLevel.
Proof. solve_decision. Defined.

Module CacheEntry.
Record t := mk {
  data : list byte;
  size : Z;
  last_access : Z;
  creation_time : Z;
  access_count : Z;
  compressed : bool;
  level : CacheLevel;
  key : string
}.

(** [it->second->last_access = now(); it->second->access_count++;] *)
Definition touch (now : Z) (e : t) : t :=
  mk (data e) (size e) now (creation_time e)
     (wrap32 (access_count e + 1)) (compressed e) (level e) (key e).
End CacheEntry.

Module CacheStats.
Record t := mk {
  hits : Z;
  misses : Z;
  total_size : Z;
  entry_count : Z;
  evictions : Z
}.

Definition zero : t := mk 0 0 0 0 0.

(** IEEE 754 binary64 arithmetic, as far as [GetHitRatio] uses it: a
    double is given by its value, a rational.  Rounding is to nearest,
    ties to even; the operands are 64-bit counters, so that no result
    overflows or is subnormal.

    [a / b] for [0 < b], rounded to the nearest integer, ties to even. *)
Definition rne_div (a b : Z) : Z :=
  let q := a / b in
  match 2 * (a mod b) ?= b with
  | Lt => q
  | Gt => q + 1
  | Eq => if Z.even q then q else q + 1
  end.

(** [static_cast<double> (n)] for an unsigned 64-bit [n]: [n] itself
    below 2^53, otherwise [n] rounded to 53 significant bits.  The value
    is an integer. *)
Definition to_double (n : Z) : Z :=
  let s := Z.log2 n - 52 in
  if s <=? 0 then n else rne_div n (2 ^ s) * 2 ^ s.

(** The quotient [a / b] of two doubles whose values are the integers
    [0 <= a] and [0 < b]: the scale [k] puts [a * 2^k / b] between 2^52
    and 2^53, where it is rounded to an integer [m]; the double is
    [m * 2^-k]. *)
Definition double_div (a b : Z) : Q :=
  if a =? 0 then 0%Q
  else
    let k0 := 52 + Z.log2 b - Z.log2 a in
    let num k := a * 2 ^ Z.max k 0 in
    let den k := b * 2 ^ Z.max (- k) 0 in
    let k := if den k0 * 2 ^ 52 <=? num k0 then k0 else k0 + 1 in
    let m := rne_div (num k) (den k) in
    if 0 <=? k then Qmake m (Z.to_pos (2 ^ k)) else inject_Z (m * 2 ^ (- k)).

(** [GetHitRatio]: [total > 0 ? static_cast<double> (hits) / total : 0.0];
    [total] is converted to [double] for the division. *)
Definition GetHitRatio (st : t) : Q :=
  let total := wrap64 (hits st + misses st) in
  if 0 <? total then double_div (to_double (hits st)) (to_double total)
  else 0%Q.
End CacheStats.

Module Config.
Record t := mk {
  max_l1_size : Z;
  max_l2_size : Z;
  max_l3_size : Z;
  compression_threshold : Z;
  max_age : Z;                    (* seconds *)
  max_entries_per_level : Z;
  enable_compression : bool;
  enable_prefetch : bool;
  compression_level : Z;
  cache_directory : string
}.

(** The default member initialisers of [FragmentCache::Config]. *)
Definition default : t :=
  mk (256 * 1024 * 1024) (1024 * 1024 * 1024) (4 * 1024 * 1024 * 1024)
     (64 * 1024) 3600 10000 true true 6 "cache".

Definition with_max_l1_size (n : Z) (c : t) : t :=
  mk n (max_l2_size c) (max_l3_size c) (compression_threshold c)
     (max_age c) (max_entries_per_level c) (enable_compression c)
     (enable_prefetch c) (compression_level c) (cache_directory c).
End Config.

(** ** LRUCache *)

Module LRUCache.
(** Keys from [head->next] (most recent) to [tail->prev] (least recent). *)
Abbreviation t := (list string).

Definition empty : t := [].

(** [RemoveNode]: unlink the node of [key]. *)
Definition RemoveNode (key : string) (l : t) : t :=
  filter (λ k, k ≠ key) l.

(** [Access]: a tracked key moves to the head, a new key is inserted at
    the head. *)
Definition Access (key : string) (l : t) : t :=
  if decide (key ∈ l) then key :: RemoveNode key l else key :: l.

(** [GetLRU]: the key before [tail], or the empty string. *)
Definition GetLRU (l : t) : string :=
  match last l with
  | Some k => k
  | None => ""
  end.

(** [Remove]: a tracked key is unlinked and erased, otherwise nothing. *)
Definition Remove (key : string) (l : t) : t :=
  if decide (key ∈ l) then RemoveNode key l else l.

Definition Clear (l : t) : t := [].

Definition Size (l : t) : Z := Z.of_nat (length l).
End LRUCache.

(** ** Outcome of a file operation *)

Inductive io_outcome :=
| io_ok                       (* the stream opens and stays good *)
| io_open_fails               (* [!file] right after opening *)
| io_write_fails (n : nat)    (* the stream goes bad after [n] bytes *)
| io_flush_fails (n : nat).   (* a write only: the stream buffers the
                                 bytes and is still good when [good ()]
                                 is read; the flush at its destruction
                                 is refused after [n] bytes *)

(** ** The cache object and its environment *)

Record State := mkState {
  config_ : Config.t;
  l1_cache_ : gmap string CacheEntry.t;
  l2_cache_ : gmap string CacheEntry.t;
  l3_cache_ : gmap string CacheEntry.t;
  l1_lru_ : LRUCache.t;
  l2_lru_ : LRUCache.t;
  l3_lru_ : LRUCache.t;
  stats_ : CacheStats.t;
  files_ : gmap string (list byte);
  clock_ : Z;
  io_ : list io_outcome
}.

(** Field access and update by level, for the [switch (level)] blocks. *)
Definition cache_of (lvl : CacheLevel) (s : State) : gmap string CacheEntry.t :=
  match lvl with
  | L1_GPU => l1_cache_ s
  | L2_RAM => l2_cache_ s
  | L3_DISK => l3_cache_ s
  end.

Definition lru_of (lvl : CacheLevel) (s : State) : LRUCache.t :=
  match lvl with
  | L1_GPU => l1_lru_ s
  | L2_RAM => l2_lru_ s
  | L3_DISK => l3_lru_ s
  end.

Definition max_size_of (lvl : CacheLevel) (c : Config.t) : Z :=
  match lvl with
  | L1_GPU => Config.max_l1_size c
  | L2_RAM => Config.max_l2_size c
  | L3_DISK => Config.max_l3_size c
  end.

Definition set_tier (lvl : CacheLevel) (m : gmap string CacheEntry.t)
    (l : LRUCache.t) (s : State) : State :=
  match lvl with
  | L1_GPU => mkState (config_ s) m (l2_cache_ s) (l3_cache_ s)
                l (l2_lru_ s) (l3_lru_ s)
                (stats_ s) (files_ s) (clock_ s) (io_ s)
  | L2_RAM => mkState (config_ s) (l1_cache_ s) m (l3_cache_ s)
                (l1_lru_ s) l (l3_lru_ s)
                (stats_ s) (files_ s) (clock_ s) (io_ s)
  | L3_DISK => mkState (config_ s) (l1_cache_ s) (l2_cache_ s) m
                (l1_lru_ s) (l2_lru_ s) l
                (stats_ s) (files_ s) (clock_ s) (io_ s)
  end.

(** Assignment to [stats_]. *)
Definition set_stats (st : CacheStats.t) (s : State) : State :=
  mkState (config_ s) (l1_cache_ s) (l2_cache_ s) (l3_cache_ s)
    (l1_lru_ s) (l2_lru_ s) (l3_lru_ s) st (files_ s) (clock_ s) (io_ s).

(** The files and the pending outcomes after a file operation. *)
Definition set_disk (f : gmap string (list byte)) (io : list io_outcome)
    (s : State) : State :=
  mkState (config_ s) (l1_cache_ s) (l2_cache_ s) (l3_cache_ s)
    (l1_lru_ s) (l2_lru_ s) (l3_lru_ s) (stats_ s) f (clock_ s) io.

(** Time passing between two operations. *)
Definition advance_clock (ticks : Z) (s : State) : State :=
  mkState (config_ s) (l1_cache_ s) (l2_cache_ s) (l3_cache_ s)
    (l1_lru_ s) (l2_lru_ s) (l3_lru_ s) (stats_ s) (files_ s)
    (clock_ s + ticks) (io_ s).

(** The constructor: empty tiers, zero statistics.  The cache directory is
    created if it does not exist and keeps the files it has; [files], [now]
    and [io] describe the environment the cache starts in. *)
Definition FragmentCache (config : Config.t) (files : gmap string (list byte))
    (now : Z) (io : list io_outcome) : State :=
  mkState config ∅ ∅ ∅ LRUCache.empty LRUCache.empty LRUCache.empty
    CacheStats.zero files now io.

(** Statistics updates.  [stats_.hits++] *)
Definition stats_hit (st : CacheStats.t) : CacheStats.t :=
  CacheStats.mk (wrap64 (CacheStats.hits st + 1)) (CacheStats.misses st)
    (CacheStats.total_size st) (CacheStats.entry_count st)
    (CacheStats.evictions st).

(** [stats_.misses++] *)
Definition stats_miss (st : CacheStats.t) : CacheStats.t :=
  CacheStats.mk (CacheStats.hits st) (wrap64 (CacheStats.misses st + 1))
    (CacheStats.total_size st) (CacheStats.entry_count st)
    (CacheStats.evictions st).

(** [stats_.evictions++] *)
Definition stats_evicted (st : CacheStats.t) : CacheStats.t :=
  CacheStats.mk (CacheStats.hits st) (CacheStats.misses st)
    (CacheStats.total_size st) (CacheStats.entry_count st)
    (wrap64 (CacheStats.evictions st + 1)).

(** [stats_.total_size += n] *)
Definition stats_add_size (n : Z) (st : CacheStats.t) : CacheStats.t :=
  CacheStats.mk (CacheStats.hits st) (CacheStats.misses st)
    (wrap64 (CacheStats.total_size st + n)) (CacheStats.entry_count st)
    (CacheStats.evictions st).

(** [stats_.total_size -= n] *)
Definition stats_sub_size (n : Z) (st : CacheStats.t) : CacheStats.t :=
  CacheStats.mk (CacheStats.hits st) (CacheStats.misses st)
    (wrap64 (CacheStats.total_size st - n)) (CacheStats.entry_count st)
    (CacheStats.evictions st).

(** [stats_.entry_count++] for [d = 1], [stats_.entry_count--] for [d = -1] *)
Definition stats_add_entry (d : Z) (st : CacheStats.t) : CacheStats.t :=
  CacheStats.mk (CacheStats.hits st) (CacheStats.misses st)
    (CacheStats.total_size st) (wrap64 (CacheStats.entry_count st + d))
    (CacheStats.evictions st).

(** ** External libraries

    [std::hash<std::string>] and the two zlib entry points the cache calls.
    - [compress2 src level] is zlib's
      [compress2 (dest, &destLen, src, srcLen, level)] with a destination of
      [compressBound (srcLen)] bytes: [Some dest] when it returns [Z_OK].
    - [uncompress destLen src] is zlib's
      [uncompress (dest, &destLen, src, srcLen)]: [Some dest] when it
      returns [Z_OK]. *)
Class Externals := {
  hash : string → N;
  compress2 : list byte → Z → option (list byte);
  uncompress : Z → list byte → option (list byte)
}.

(** ** Operations (fragment_cache.cc) *)

Section FragmentCache.
Context `{ext : Externals}.

(** [GetFilePath]: directory, "/", the decimal hash, ".cache". *)
Definition GetFilePath (s : State) (key : string) : string :=
  Config.cache_directory (config_ s) +:+ "/" +:+ pretty (hash key)
    +:+ ".cache".

(** [Compress]: the input itself when zlib fails. *)
Definition Compress (s : State) (d : list byte) : list byte :=
  match compress2 d (Config.compression_level (config_ s)) with
  | Some c => c
  | None => d
  end.

(** The fixed capacity of the output buffer of [Decompress]. *)
Definition decompress_capacity : Z := 10 * 1024 * 1024.

(** [Decompress]: the input itself when zlib fails. *)
Definition Decompress (c : list byte) : list byte :=
  match uncompress decompress_capacity c with
  | Some d => d
  | None => c
  end.

(** [SaveToFile]: opening truncates the file; a stream that goes bad
    leaves what was written so far.  The result is [file.good ()] read
    right after [write], before the stream is flushed: a write that is
    refused only when the buffer is flushed (by the destructor of the
    stream, which reports nothing) still returns [true] and leaves a
    truncated file. *)
Definition SaveToFile (s : State) (key : string) (d : list byte)
    : bool * State :=
  let path := GetFilePath s key in
  match io_ s with
  | [] => (true, set_disk (<[path := d]> (files_ s)) [] s)
  | io_ok :: io => (true, set_disk (<[path := d]> (files_ s)) io s)
  | io_open_fails :: io => (false, set_disk (files_ s) io s)
  | io_write_fails n :: io =>
      (false, set_disk (<[path := take n d]> (files_ s)) io s)
  | io_flush_fails n :: io =>
      (true, set_disk (<[path := take n d]> (files_ s)) io s)
  end.

(** [data.resize (n)]: truncated, or filled up with zero bytes. *)
Definition resize (n : nat) (data : list byte) : list byte :=
  take n data ++ replicate (n - length data) x00.

(** [LoadFromFile]: fails when the file cannot be opened (a missing file
    included) or read; [data] is the caller's buffer.  A failure to open
    leaves the buffer as it is; a read that goes bad after [n] bytes
    leaves it resized to the length of the file, with the bytes read so
    far at its start.  Reading flushes nothing: [io_flush_fails] is a
    read that succeeds. *)
Definition LoadFromFile (s : State) (key : string) (data : list byte)
    : bool * list byte * State :=
  let path := GetFilePath s key in
  let s' := set_disk (files_ s) (tail (io_ s)) s in
  match io_ s with
  | [] | io_ok :: _ | io_flush_fails _ :: _ =>
      match files_ s !! path with
      | Some d => (true, d, s')
      | None => (false, data, s')
      end
  | io_open_fails :: _ => (false, data, s')
  | io_write_fails n :: _ =>
      match files_ s !! path with
      | Some d =>
          (false, take n d ++ drop n (resize (length d) data), s')
      | None => (false, data, s')
      end
  end.

(** [GetCurrentSize]: the loop [size += pair.second->size]. *)
Definition GetCurrentSize (s : State) (lvl : CacheLevel) : Z :=
  map_fold (λ _ e acc, wrap64 (acc + CacheEntry.size e)) 0 (cache_of lvl s).

(** [GetEntryCount]: the size of the tier's map. *)
Definition GetEntryCount (s : State) (lvl : CacheLevel) : Z :=
  Z.of_nat (size (cache_of lvl s)).

(** [NeedEviction]: [current_size >= max_size * 0.9]. *)
Definition NeedEviction (s : State) (lvl : CacheLevel) : bool :=
  9 * max_size_of lvl (config_ s) <=? 10 * GetCurrentSize s lvl.

(** One of the three blocks of [Remove], for the tier [lvl]. *)
Definition remove_from (lvl : CacheLevel) (key : string)
    (rs : bool * State) : bool * State :=
  let '(removed, s) := rs in
  match cache_of lvl s !! key with
  | Some e =>
      let s1 := set_stats (stats_sub_size (CacheEntry.size e) (stats_ s)) s in
      let s2 := set_tier lvl (delete key (cache_of lvl s1))
                  (LRUCache.Remove key (lru_of lvl s1)) s1 in
      let s3 := match lvl with
                | L3_DISK =>
                    set_disk (delete (GetFilePath s2 key) (files_ s2))
                      (io_ s2) s2
                | _ => s2
                end in
      (true, s3)
  | None => (removed, s)
  end.

(** [Remove]: all three tiers, then one decrement of [entry_count]. *)
Definition Remove (s : State) (key : string) : bool * State :=
  let '(removed, s') :=
    remove_from L3_DISK key
      (remove_from L2_RAM key (remove_from L1_GPU key (false, s))) in
  if removed
  then (true, set_stats (stats_add_entry (-1) (stats_ s')) s')
  else (false, s').

(** [Clear]: the cache directory is removed with all its files and
    created again. *)
Definition Clear (s : State) : State :=
  let dir := Config.cache_directory (config_ s) +:+ "/" in
  let files := filter (λ pf, String.prefix dir pf.1 = false) (files_ s) in
  mkState (config_ s) ∅ ∅ ∅
    (LRUCache.Clear (l1_lru_ s)) (LRUCache.Clear (l2_lru_ s))
    (LRUCache.Clear (l3_lru_ s))
    (CacheStats.mk (CacheStats.hits (stats_ s)) (CacheStats.misses (stats_ s))
       0 0 (CacheStats.evictions (stats_ s)))
    files (clock_ s) (io_ s).

(** [ResetStats] *)
Definition ResetStats (s : State) : State :=
  set_stats
    (CacheStats.mk 0 0 (CacheStats.total_size (stats_ s))
       (CacheStats.entry_count (stats_ s)) 0) s.

(** [GetStats] *)
Definition GetStats (s : State) : CacheStats.t := stats_ s.

(** [EvictLRU]: nothing happens when [GetLRU] yields the empty string. *)
Definition EvictLRU (s : State) (lvl : CacheLevel) : State :=
  let lru_key := LRUCache.GetLRU (lru_of lvl s) in
  if decide (lru_key = "") then s
  else
    let s' := (Remove s lru_key).2 in
    set_stats (stats_evicted (stats_ s')) s'.

(** [GetFromLevel]; [data] is the caller's buffer, returned unchanged on
    a miss. *)
Definition GetFromLevel (s : State) (key : string) (data : list byte)
    (lvl : CacheLevel) : bool * list byte * State :=
  match lvl with
  | L3_DISK =>
      match l3_cache_ s !! key with
      | Some e =>
          let '(ok, d, s1) := LoadFromFile s key data in
          if ok then
            let s2 := set_tier L3_DISK
                        (<[key := CacheEntry.touch (clock_ s1) e]>
                           (l3_cache_ s1))
                        (l3_lru_ s1) s1 in
            (true, if CacheEntry.compressed e then Decompress d else d, s2)
          else (false, d, s1)
      | None => (false, data, s)
      end
  | _ =>
      match cache_of lvl s !! key with
      | Some e =>
          (true, CacheEntry.data e,
           set_tier lvl
             (<[key := CacheEntry.touch (clock_ s) e]> (cache_of lvl s))
             (lru_of lvl s) s)
      | None => (false, data, s)
      end
  end.

(** The entry built at the start of [PutToLevel]. *)
Definition stores_compressed (s : State) (d : list byte)
    (lvl : CacheLevel) : bool :=
  bool_decide (lvl = L3_DISK)
  && Config.enable_compression (config_ s)
  && (Config.compression_threshold (config_ s) <=? vsize d).

Definition new_entry (s : State) (key : string) (d : list byte)
    (lvl : CacheLevel) : CacheEntry.t :=
  let c := stores_compressed s d lvl in
  let stored := if c then Compress s d else d in
  CacheEntry.mk stored (vsize stored) (clock_ s) (clock_ s) 1 c lvl key.

(** [stats_.total_size += entry->size; stats_.entry_count++;] *)
Definition count_put (e : CacheEntry.t) (s : State) : State :=
  set_stats
    (stats_add_entry 1 (stats_add_size (CacheEntry.size e) (stats_ s))) s.

(** [PutToLevel] *)
Definition PutToLevel (s : State) (key : string) (d : list byte)
    (lvl : CacheLevel) : bool * State :=
  let entry := new_entry s key d lvl in
  let s1 := set_tier lvl (<[key := entry]> (cache_of lvl s))
              (LRUCache.Access key (lru_of lvl s)) s in
  match lvl with
  | L3_DISK =>
      let '(ok, s2) := SaveToFile s1 key (CacheEntry.data entry) in
      if ok then (true, count_put entry s2)
      else
        (false,
         set_tier L3_DISK (delete key (l3_cache_ s2))
           (LRUCache.Remove key (l3_lru_ s2)) s2)
  | _ => (true, count_put entry s1)
  end.

(** [stats_.hits++; lN_lru_->Access(key);] *)
Definition record_hit (lvl : CacheLevel) (key : string) (s : State) : State :=
  let s1 := set_stats (stats_hit (stats_ s)) s in
  set_tier lvl (cache_of lvl s1) (LRUCache.Access key (lru_of lvl s1)) s1.

(** The promotion after a hit in the tier below [lvl]. *)
Definition promote (lvl : CacheLevel) (key : string) (d : list byte)
    (s : State) : State :=
  if wrap64 (GetCurrentSize s lvl + vsize d) <=? max_size_of lvl (config_ s)
  then (PutToLevel s key d lvl).2
  else s.

(** [Get] *)
Definition Get (s : State) (key : string) (data : list byte)
    : bool * list byte * State :=
  let '(f1, d1, s1) := GetFromLevel s key data L1_GPU in
  if f1 then (true, d1, record_hit L1_GPU key s1)
  else
    let '(f2, d2, s2) := GetFromLevel s1 key d1 L2_RAM in
    if f2 then (true, d2, promote L1_GPU key d2 (record_hit L2_RAM key s2))
    else
      let '(f3, d3, s3) := GetFromLevel s2 key d2 L3_DISK in
      if f3
      then (true, d3, promote L2_RAM key d3 (record_hit L3_DISK key s3))
      else (false, d3, set_stats (stats_miss (stats_ s3)) s3).

(** The tier [Put] writes to, after the two demotion tests. *)
Definition target_level (s : State) (d : list byte)
    (preferred_level : CacheLevel) : CacheLevel :=
  let t1 :=
    if bool_decide (preferred_level = L1_GPU)
       && (Config.max_l1_size (config_ s)
           <? wrap64 (GetCurrentSize s L1_GPU + vsize d))
    then L2_RAM else preferred_level in
  if bool_decide (t1 = L2_RAM)
     && (Config.max_l2_size (config_ s)
         <? wrap64 (GetCurrentSize s L2_RAM + vsize d))
  then L3_DISK else t1.

(** [while (NeedEviction (lvl)) EvictLRU (lvl);] run for at most [fuel]
    iterations: [None] when the loop has not exited by then. *)
Fixpoint evict_while (fuel : nat) (lvl : CacheLevel) (s : State)
    : option State :=
  if NeedEviction s lvl then
    match fuel with
    | O => None
    | S fuel' => evict_while fuel' lvl (EvictLRU s lvl)
    end
  else Some s.

(** [Put] with a bound on the iterations of its eviction loop. *)
Definition Put_fuel (fuel : nat) (s : State) (key : string) (d : list byte)
    (preferred_level : CacheLevel) : option (bool * State) :=
  let lvl := target_level s d preferred_level in
  match evict_while fuel lvl s with
  | Some s' => Some (PutToLevel s' key d lvl)
  | None => None
  end.

(** [Put].  Every iteration of the loop that changes the target tier
    shortens its LRU list, so the length of that list bounds the
    iterations of a loop that exits ([Put_None_diverges] below): [None]
    is a loop that never exits. *)
Definition Put (s : State) (key : string) (d : list byte)
    (preferred_level : CacheLevel) : option (bool * State) :=
  let lvl := target_level s d preferred_level in
  Put_fuel (length (lru_of lvl s)) s key d preferred_level.

(** Ticks of [steady_clock] per second. *)
Definition ticks_per_second : Z := 1000000000.

(** [IsExpired]: the age, truncated to whole seconds, exceeds [max_age]. *)
Definition IsExpired (s : State) (e : CacheEntry.t) : bool :=
  Config.max_age (config_ s)
  <? (clock_ s - CacheEntry.last_access e) ÷ ticks_per_second.

(** The keys one scan loop of [CleanupExpired] collects in tier [lvl]. *)
Definition expired_in (lvl : CacheLevel) (s : State) : list string :=
  (map_to_list (filter (λ ke, IsExpired s ke.2 = true) (cache_of lvl s))).*1.

(** [CleanupExpired] *)
Definition CleanupExpired (s : State) : State :=
  let expired_keys := expired_in L2_RAM s ++ expired_in L3_DISK s in
  foldl (λ s' key, (Remove s' key).2) s expired_keys.

(** ** Quantities and predicates used in the statements *)

(** The bytes a tier holds, as an unbounded integer. *)
Definition tier_bytes (m : gmap string CacheEntry.t) : Z :=
  map_fold (λ _ e acc, acc + CacheEntry.size e) 0 m.

(** The entries alive in the three maps together. *)
Definition live_entries (s : State) : Z :=
  GetEntryCount s L1_GPU + GetEntryCount s L2_RAM + GetEntryCount s L3_DISK.

(** Every stored entry carries the length of its bytes in [size]
    (what [PutToLevel] writes). *)
Definition sizes_ok (s : State) : Prop :=
  ∀ lvl k e, cache_of lvl s !! k = Some e →
    CacheEntry.size e = vsize (CacheEntry.data e).

(** An outcome under which [SaveToFile] returns [false]. *)
Definition save_fails (o : io_outcome) : Prop :=
  match o with
  | io_open_fails | io_write_fails _ => True
  | io_ok | io_flush_fails _ => False
  end.

(** The next write is not refused at the flush that follows the reading
    of [file.good ()]: what [SaveToFile] reports is what happened. *)
Definition write_reaches_disk (s : State) : Prop :=
  match io_ s with
  | io_flush_fails _ :: _ => False
  | _ => True
  end.

(** The state after a successful read of the disk tier. *)
Definition disk_read_state (s : State) (key : string) (e : CacheEntry.t)
    : State :=
  set_tier L3_DISK
    (<[key := CacheEntry.touch (clock_ s) e]> (l3_cache_ s)) (l3_lru_ s)
    (set_disk (files_ s) (tail (io_ s)) s).

(** The calls a client (or the background worker) makes on the cache;
    [ResetStats] is deliberately not among them. *)
Inductive call :=
| call_Get (key : string) (buf : list byte)
| call_Put (key : string) (d : list byte) (preferred_level : CacheLevel)
| call_Remove (key : string)
| call_Clear
| call_CleanupExpired
| call_advance_clock (ticks : Z).

(** One call: the state after it and, for a [Get], whether it hit.
    [None] when the call does not return. *)
Definition step (s : State) (c : call) : option (State * option bool) :=
  match c with
  | call_Get key buf => Some ((Get s key buf).2, Some (Get s key buf).1.1)
  | call_Put key d lvl =>
      match Put s key d lvl with
      | Some r => Some (r.2, None)
      | None => None
      end
  | call_Remove key => Some ((Remove s key).2, None)
  | call_Clear => Some (Clear s, None)
  | call_CleanupExpired => Some (CleanupExpired s, None)
  | call_advance_clock t => Some (advance_clock t s, None)
  end.

(** A sequence of calls: the final state, the number of [Get]s that hit
    and the number of [Get]s that missed. *)
Fixpoint run (s : State) (cs : list call) : option (State * nat * nat) :=
  match cs with
  | [] => Some (s, 0%nat, 0%nat)
  | c :: cs' =>
      match step s c with
      | Some (s1, o) =>
          match run s1 cs' with
          | Some (s2, n, m) =>
              Some (s2,
                    (match o with Some true => S n | _ => n end),
                    (match o with Some false => S m | _ => m end))
          | None => None
          end
      | None => None
      end
  end.

(** The two counters [Get] maintains. *)
Definition hit_miss (s : State) : Z * Z :=
  (CacheStats.hits (stats_ s), CacheStats.misses (stats_ s)).

(** The state [Remove] returns, before the decrement of [entry_count]. *)
Definition removed_all (s : State) (key : string) : State :=
  (remove_from L3_DISK key
     (remove_from L2_RAM key (remove_from L1_GPU key (false, s)))).2.

(** An iteration that cannot change the target tier: [GetLRU] yields the
    empty string, or a key the tier's map does not hold. *)
Definition stuck (lvl : CacheLevel) (s : State) : Prop :=
  NeedEviction s lvl = true
  ∧ (LRUCache.GetLRU (lru_of lvl s) = ""
     ∨ cache_of lvl s !! LRUCache.GetLRU (lru_of lvl s) = None).

(** No entry of the map has a negative [size]. *)
Definition sizes_nonneg (m : gmap string CacheEntry.t) : Prop :=
  ∀ k e, m !! k = Some e → 0 ≤ CacheEntry.size e.

(** [Put] for each item in turn, with the same preferred tier: the
    results and the final state, [None] when some [Put] does not return. *)
Fixpoint put_all (s : State) (items : list (string * list byte))
    (preferred_level : CacheLevel) : option (list bool * State) :=
  match items with
  | [] => Some ([], s)
  | (k, d) :: rest =>
      match Put s k d preferred_level with
      | Some (ok, s1) =>
          match put_all s1 rest preferred_level with
          | Some (oks, s2) => Some (ok :: oks, s2)
          | None => None
          end
      | None => None
      end
  end.

(** The states Scenario B goes through under configuration [cfg]: [ks1]
    are the keys of the Fast tier and [ks2] those of the Medium tier, 300
    bytes each; the Slow tier is empty and nothing was evicted. *)
Definition snapshot (cfg : Config.t) (s : State) (ks1 ks2 : list string)
    : Prop :=
  config_ s = cfg
  ∧ dom (l1_cache_ s) = list_to_set ks1
  ∧ tier_bytes (l1_cache_ s) = 300 * Z.of_nat (length ks1)
  ∧ dom (l2_cache_ s) = list_to_set ks2
  ∧ tier_bytes (l2_cache_ s) = 300 * Z.of_nat (length ks2)
  ∧ l3_cache_ s = ∅
  ∧ CacheStats.evictions (stats_ s) = 0
  ∧ (length ks1 ≤ 3)%nat ∧ (length ks2 ≤ 2)%nat.

(** The enumerators of [CacheLevel]: a smaller value is a faster tier,
    looked up earlier by [Get]. *)
Definition level_index (lvl : CacheLevel) : Z :=
  match lvl with
  | L1_GPU => 0
  | L2_RAM => 1
  | L3_DISK => 2
  end.

(** The next file operation opens its file and reads or writes it whole. *)
Definition next_io_ok (s : State) : Prop :=
  match io_ s with
  | [] | io_ok :: _ => True
  | _ => False
  end.

(** The tier [lvl] holds an expired entry under [k]. *)
Definition expired_at (lvl : CacheLevel) (s : State) (k : string) : bool :=
  match cache_of lvl s !! k with
  | Some e => IsExpired s e
  | None => false
  end.

(** [k] is among the keys the two scan loops collect. *)
Definition sweep_collects (s : State) (k : string) : bool :=
  expired_at L2_RAM s k || expired_at L3_DISK s k.

(** [Remove] applied to each key of a list in turn. *)
Definition remove_keys (s : State) (ks : list string) : State :=
  foldl (λ s' key, (Remove s' key).2) s ks.

(** A tier's map and LRU index agree: the index lists every key of the
    map exactly once and nothing else. *)
Definition coherent_tier (m : gmap string CacheEntry.t) (l : list string)
    : Prop :=
  NoDup l ∧ ∀ k, k ∈ l ↔ is_Some (m !! k).

(** The invariant of the cache: every tier is coherent and every entry
    carries the length of its bytes. *)
Definition coherent (s : State) : Prop :=
  (∀ lvl, coherent_tier (cache_of lvl s) (lru_of lvl s)) ∧ sizes_ok s.

(** ** Further operations *)

(** [UpdateConfig] *)
Definition UpdateConfig (new_config : Config.t) (s : State) : State :=
  mkState new_config (l1_cache_ s) (l2_cache_ s) (l3_cache_ s)
    (l1_lru_ s) (l2_lru_ s) (l3_lru_ s) (stats_ s) (files_ s) (clock_ s)
    (io_ s).

(** The tier [Evict] takes its next victim from: the first non-empty map,
    [None] when all three are empty ([break]). *)
Definition evict_source (s : State) : option CacheLevel :=
  if bool_decide (l1_cache_ s ≠ ∅) then Some L1_GPU
  else if bool_decide (l2_cache_ s ≠ ∅) then Some L2_RAM
  else if bool_decide (l3_cache_ s ≠ ∅) then Some L3_DISK
  else None.

(** [Evict]: the loop [while (stats_.total_size > target_size)], run for
    at most [fuel] iterations: [None] when it has not exited by then. *)
Fixpoint Evict_fuel (fuel : nat) (s : State) (target_size : Z)
    : option State :=
  if target_size <? CacheStats.total_size (stats_ s) then
    match evict_source s with
    | Some lvl =>
        match fuel with
        | O => None
        | S fuel' => Evict_fuel fuel' (EvictLRU s lvl) target_size
        end
    | None => Some s
    end
  else Some s.

(** The number of entries in the three maps. *)
Definition entries (s : State) : nat :=
  (size (l1_cache_ s) + size (l2_cache_ s) + size (l3_cache_ s))%nat.

(** [Evict].  An iteration that changes anything removes an entry, so the
    number of entries bounds the iterations of a loop that exits
    ([Evict_None_diverges]): [None] is a loop that never exits. *)
Definition Evict (s : State) (target_size : Z) : option State :=
  Evict_fuel (entries s) s target_size.

(** The body of the thread [Prefetch] starts, for one key.  [callback] is
    the member [prefetch_callback_]; it returns [None] when it throws.
    [None] as a result is a [Put] that does not return. *)
Definition prefetch_key (callback : string → option (list byte))
    (s : State) (key : string) : option State :=
  let r := Get s key [] in
  if r.1.1 then Some r.2
  else
    match callback key with
    | Some data =>
        if bool_decide (data = []) then Some r.2
        else
          match Put r.2 key data L2_RAM with
          | Some p => Some p.2
          | None => None
          end
    | None => Some r.2
    end.

(** The loop of that thread over the keys. *)
Fixpoint prefetch_keys (callback : string → option (list byte))
    (s : State) (keys : list string) : option State :=
  match keys with
  | [] => Some s
  | key :: keys' =>
      match prefetch_key callback s key with
      | Some s' => prefetch_keys callback s' keys'
      | None => None
      end
  end.

(** [Prefetch], with the members [prefetch_enabled_] and
    [prefetch_callback_] ([None]: no callback was set) as arguments; the
    detached thread is run to its end at the point of the call. *)
Definition Prefetch (prefetch_enabled_ : bool)
    (prefetch_callback_ : option (string → option (list byte)))
    (s : State) (keys : list string) : option State :=
  match prefetch_enabled_, prefetch_callback_ with
  | true, Some callback => prefetch_keys callback s keys
  | _, _ => Some s
  end.

(** ** Further quantities used in the statements *)

(** The tier [lvl] holds an entry under [key]. *)
Definition holds (lvl : CacheLevel) (s : State) (key : string) : bool :=
  bool_decide (is_Some (cache_of lvl s !! key)).

(** In how many tiers [key] has an entry, and the sum of their sizes. *)
Definition holders (s : State) (key : string) : Z :=
  (if holds L1_GPU s key then 1 else 0)
  + (if holds L2_RAM s key then 1 else 0)
  + (if holds L3_DISK s key then 1 else 0).

Definition held_size (lvl : CacheLevel) (s : State) (key : string) : Z :=
  match cache_of lvl s !! key with
  | Some e => CacheEntry.size e
  | None => 0
  end.

Definition held_bytes (s : State) (key : string) : Z :=
  held_size L1_GPU s key + held_size L2_RAM s key + held_size L3_DISK s key.


(** The LRU index [l] of a tier with map [m] is ordered by [last_access],
    most recently used first, and no listed entry was accessed after
    [bound]; keys the map does not hold are passed over. *)
Fixpoint newest_first (m : gmap string CacheEntry.t) (bound : Z)
    (l : list string) : Prop :=
  match l with
  | [] => True
  | k :: l' =>
      match m !! k with
      | Some e =>
          CacheEntry.last_access e ≤ bound
          ∧ newest_first m (CacheEntry.last_access e) l'
      | None => newest_first m bound l'
      end
  end.

(** Every tier's index is ordered so, up to the current time. *)
Definition recency_ordered (s : State) : Prop :=
  ∀ lvl, newest_first (cache_of lvl s) (clock_ s) (lru_of lvl s).

(** Time never runs backwards in a sequence of calls. *)
Definition clock_monotone (cs : list call) : Prop :=
  Forall (λ c, match c with
               | call_advance_clock t => 0 ≤ t
               | _ => True
               end) cs.

(** An iteration of the loop of [Evict] that changes nothing the loop
    looks at: the loop goes on, and the key of the victim is the empty
    string or a key no tier holds. *)
Definition evict_stuck (s : State) (target_size : Z) : Prop :=
  target_size < CacheStats.total_size (stats_ s)
  ∧ ∃ lvl, evict_source s = Some lvl
           ∧ (LRUCache.GetLRU (lru_of lvl s) = ""
              ∨ ∀ lvl', cache_of lvl' s !! LRUCache.GetLRU (lru_of lvl s)
                        = None).

End FragmentCache.

(** ** A reference codec for concrete runs

    One instance of the external interfaces, used to run the cache on
    concrete inputs: a "stored" codec that prefixes the payload with one
    header byte (as zlib's level 0 does, with a longer header), rejects
    levels outside [-1 .. 9] and reports a buffer error when the payload
    does not fit the destination; and a hash that is the length of the key. *)

Definition stored_compress2 (src : list byte) (lvl : Z) : option (list byte) :=
  if (-1 <=? lvl) && (lvl <=? 9) then Some (x78 :: src) else None.

Definition stored_uncompress (destLen : Z) (src : list byte)
    : option (list byte) :=
  match src with
  | x78 :: d => if vsize d <=? destLen then Some d else None
  | _ => None
  end.

Definition length_hash (k : string) : N := N.of_nat (String.length k).

(** The reference instance of the external libraries. *)
Definition reference_externals : Externals :=
  {| hash := length_hash;
     compress2 := stored_compress2;
     uncompress := stored_uncompress |}.

(** ** Concrete scenarios

    States built with the reference instance, for the concrete runs at the
    end of the development. *)

(** ** The IEEE 754 specification of the Standard Library

    [SpecFloat] at precision 53 and maximal exponent 1024 is binary64;
    it is used to check the double arithmetic of [GetHitRatio] on
    concrete counters. *)

Definition SF2Q (f : spec_float) : Q :=
  match f with
  | S754_finite s m e =>
      let v := if s then Z.neg m else Z.pos m in
      if 0 <=? e then inject_Z (v * 2 ^ e)
      else Qmake v (Z.to_pos (2 ^ (- e)))
  | _ => 0%Q
  end.

Definition binary64_of_Z (n : Z) : spec_float :=
  binary_normalize 53 1024 n 0 false.

(** The conversion of [h] and the quotient of [h] and [t] have the same
    value in both. *)
Definition doubles_agree (h t : Z) : bool :=
  Qeq_bool (SF2Q (binary64_of_Z h)) (inject_Z (CacheStats.to_double h))
  && Qeq_bool
       (SF2Q (SFdiv 53 1024 (binary64_of_Z h) (binary64_of_Z t)))
       (CacheStats.double_div (CacheStats.to_double h)
          (CacheStats.to_double t)).

Definition large_counters : list Z :=
  [1; 3; 7; 2 ^ 53 - 1; 2 ^ 53; 2 ^ 53 + 1; 2 ^ 53 + 2; 2 ^ 53 + 3;
   2 ^ 54 + 2; 2 ^ 54 + 6; 2 ^ 60 + 12345678901; 10 ^ 18; 2 ^ 63;
   2 ^ 63 + 1024; 2 ^ 63 + 1025; 2 ^ 63 + 3072; 10 ^ 19;
   12345678912345678912; 2 ^ 64 - 1025; 2 ^ 64 - 1024; 2 ^ 64 - 1].

Section Scenarios.
Local Existing Instance reference_externals.

(** The state a [Put] leaves (the state itself if it does not return). *)
Definition put_state (s : State) (key : string) (d : list byte)
    (preferred_level : CacheLevel) : State :=
  match Put s key d preferred_level with
  | Some r => r.2
  | None => s
  end.

(** A new cache with the default configuration, started at time 0 on a
    disk without faults. *)
Definition fresh : State := FragmentCache Config.default ∅ 0 [].

(** Scenario B: a new cache whose Fast tier holds 1000 bytes. *)
Definition small_fast : State :=
  FragmentCache (Config.with_max_l1_size 1000 Config.default) ∅ 0 [].

Definition scenario_B_items : list (string * list byte) :=
  [("a", replicate 300 x01); ("b", replicate 300 x02);
   ("c", replicate 300 x03); ("d", replicate 300 x04);
   ("e", replicate 300 x05)].

Definition scenario_B_final : State :=
  match put_all small_fast scenario_B_items L1_GPU with
  | Some r => r.2
  | None => small_fast
  end.

(** A Fast tier filled to its cap by one [Put]. *)
Definition full_fast : State :=
  put_state small_fast "a" (replicate 1000 x00) L1_GPU.

(** A new cache whose Slow tier holds 1000 bytes, and the same cache after a
    [Put] of 2000 bytes with preferred tier Slow. *)
Definition small_slow : State :=
  FragmentCache
    (Config.mk (256 * 1024 * 1024) (1024 * 1024 * 1024) 1000 (64 * 1024)
       3600 10000 true true 6 "cache") ∅ 0 [].

Definition overfull_slow : State :=
  put_state small_slow "a" (replicate 2000 x00) L3_DISK.

(** Scenario A: compression enabled with a threshold of 64 bytes, a
    100-byte fragment written to the Slow tier. *)
Definition scenario_A_start : State :=
  FragmentCache
    (Config.mk (256 * 1024 * 1024) (1024 * 1024 * 1024)
       (4 * 1024 * 1024 * 1024) 64 3600 10000 true true 6 "cache") ∅ 0 [].

Definition scenario_A_stored : State :=
  put_state scenario_A_start "frag1" (replicate 100 x2a) L3_DISK.

(** A key written to the Medium tier (the default preferred tier) and read
    once, which copies it into the Fast tier. *)
Definition promoted : State := (Get (put_state fresh "k" [x01] L2_RAM) "k" []).2.

(** The same key written again, with other bytes, to the default tier. *)
Definition promoted_rewritten : State := put_state promoted "k" [x02] L2_RAM.

(** The promoted key read again 3000 seconds later (a Fast-tier hit) and
    left alone for another 1000 seconds. *)
Definition promoted_and_aged : State :=
  advance_clock (1000 * ticks_per_second)
    (Get (advance_clock (3000 * ticks_per_second) promoted) "k" []).2.

(** A key stored in the Slow tier of a cache whose next file operation
    will fail to open its file, and what [PutToLevel] returns when the key
    is written again. *)
Definition slow_entry_failing_disk : State :=
  put_state (FragmentCache Config.default ∅ 0 [io_ok; io_open_fails])
    "k" [x01] L3_DISK.

Definition failed_replacement : bool * State :=
  PutToLevel slow_entry_failing_disk "k" [x02] L3_DISK.

(** A write, a read that hits and a read that misses. *)
Definition one_hit_one_miss_calls : list call :=
  [call_Put "a" [x01] L2_RAM; call_Get "a" []; call_Get "b" []].

Definition one_hit_one_miss : State :=
  match run fresh one_hit_one_miss_calls with
  | Some r => r.1.1
  | None => fresh
  end.

(** A key stored in the Slow tier only. *)
Definition slow_only : State := put_state fresh "k" [x01] L3_DISK.

(** A key stored in the Medium tier, and what [PutToLevel] returns when it
    is written there again. *)
Definition medium_entry : State := put_state fresh "k" [x01] L2_RAM.

Definition medium_entry_rewritten : bool * State :=
  PutToLevel medium_entry "k" [x02] L2_RAM.

(** The state of a new cache after ["k"] was written to the Slow tier with
    a payload [d] of at least 64 KiB, which the reference codec compresses
    (see [stored_state_by_Put]). *)
Definition stored_entry (d : list byte) : CacheEntry.t :=
  CacheEntry.mk (x78 :: d) (vsize (x78 :: d)) 0 0 1 true L3_DISK "k".

Definition stored_state (d : list byte) : State :=
  mkState Config.default ∅ ∅ {[ "k" := stored_entry d ]}
    [] [] ["k"] (CacheStats.mk 0 0 (wrap64 (vsize (x78 :: d))) 1 0)
    {[ "cache/1.cache" := x78 :: d ]} 0 [].

(** A payload one byte longer than 10 MiB. *)
Definition oversized : list byte := replicate (Z.to_nat 10485761) x00.

(** The Slow-tier key of [slow_only] after the files of the cache
    directory were deleted from outside. *)
Definition slow_entry_missing_file : State := set_disk ∅ [] slow_only.

(** A new cache with compression switched off, and two keys of the same
    length - which the hash of the reference instance cannot tell apart -
    written to its Slow tier one after the other. *)
Definition uncompressed : State :=
  FragmentCache
    (Config.mk (256 * 1024 * 1024) (1024 * 1024 * 1024)
       (4 * 1024 * 1024 * 1024) (64 * 1024) 3600 10000 false true 6 "cache")
    ∅ 0 [].

Definition colliding_pair : State :=
  (PutToLevel (PutToLevel uncompressed "a" [x01] L3_DISK).2 "b" [x02]
     L3_DISK).2.

(** A new cache that compresses every fragment of at least one byte, with
    a compression level zlib rejects, and the same cache after a [Put]. *)
Definition bad_level : State :=
  FragmentCache
    (Config.mk (256 * 1024 * 1024) (1024 * 1024 * 1024)
       (4 * 1024 * 1024 * 1024) 1 3600 10000 true true 10 "cache")
    ∅ 0 [].

Definition bad_level_stored : State :=
  put_state bad_level "k" [x01; x02] L3_DISK.

(** A cache whose Fast tier holds 10 bytes, with 9 bytes stored under the
    empty string. *)
Definition empty_key_stored : State :=
  put_state (FragmentCache (Config.with_max_l1_size 10 Config.default) ∅ 0 [])
    "" (replicate 9 x00) L1_GPU.

(** Two keys written five ticks apart, the older one read again later. *)
Definition aging_calls : list call :=
  [call_Put "a" [x01] L2_RAM; call_advance_clock 5;
   call_Put "b" [x02] L2_RAM; call_advance_clock 5; call_Get "a" []].

Definition aged : State :=
  match run fresh aging_calls with
  | Some r => r.1.1
  | None => fresh
  end.

(** A prefetch callback that delivers one byte for every key, and a new
    cache after prefetching a key once and twice. *)
Definition one_byte_callback (key : string) : option (list byte) :=
  Some [x01].

Definition prefetched_once : State :=
  match Prefetch true (Some one_byte_callback) fresh ["a"] with
  | Some s => s
  | None => fresh
  end.

Definition prefetched_twice : State :=
  match Prefetch true (Some one_byte_callback) fresh ["a"; "a"] with
  | Some s => s
  | None => fresh
  end.

(** A write and three reads, of which one hits. *)
Definition one_hit_two_misses_calls : list call :=
  [call_Put "a" [x01] L2_RAM; call_Get "a" []; call_Get "b" [];
   call_Get "c" []].

Definition one_hit_two_misses : State :=
  match run fresh one_hit_two_misses_calls with
  | Some r => r.1.1
  | None => fresh
  end.

(** Scenario B's cache with 950 of the 1000 bytes of its Fast tier held
    by one key, and the same cache after that key is written again. *)
Definition nearly_full_fast : State :=
  put_state small_fast "a" (replicate 950 x00) L1_GPU.

Definition nearly_full_fast_rewritten : State :=
  put_state nearly_full_fast "a" (replicate 10 x01) L1_GPU.

(** A new cache on a disk that refuses the next write when the stream is
    flushed, and the same cache after a [Put] to the Slow tier. *)
Definition refusing_disk : State :=
  FragmentCache Config.default ∅ 0 [io_flush_fails 0].

Definition refused_write : State :=
  put_state refusing_disk "k" [x01; x02; x03] L3_DISK.

End Scenarios.

(** * Properties *)

Section Properties.
Context `{ext : Externals}.

(** ** Field lemmas *)

Lemma cache_of_set_tier lvl lvl' m l s :
  cache_of lvl' (set_tier lvl m l s)
  = if decide (lvl' = lvl) then m else cache_of lvl' s.
Proof. by destruct lvl, lvl'. Qed.

Lemma lru_of_set_tier lvl lvl' m l s :
  lru_of lvl' (set_tier lvl m l s)
  = if decide (lvl' = lvl) then l else lru_of lvl' s.
Proof. by destruct lvl, lvl'. Qed.

Lemma cache_of_set_tier_eq lvl m l s : cache_of lvl (set_tier lvl m l s) = m.
Proof. by destruct lvl. Qed.

Lemma cache_of_set_tier_ne lvl lvl' m l s :
  lvl' ≠ lvl → cache_of lvl' (set_tier lvl m l s) = cache_of lvl' s.
Proof. by destruct lvl, lvl'. Qed.

Lemma lru_of_set_tier_eq lvl m l s : lru_of lvl (set_tier lvl m l s) = l.
Proof. by destruct lvl. Qed.

Lemma lru_of_set_tier_ne lvl lvl' m l s :
  lvl' ≠ lvl → lru_of lvl' (set_tier lvl m l s) = lru_of lvl' s.
Proof. by destruct lvl, lvl'. Qed.

Lemma stats_set_tier lvl m l s : stats_ (set_tier lvl m l s) = stats_ s.
Proof. by destruct lvl. Qed.

Lemma config_set_tier lvl m l s : config_ (set_tier lvl m l s) = config_ s.
Proof. by destruct lvl. Qed.

Lemma files_set_tier lvl m l s : files_ (set_tier lvl m l s) = files_ s.
Proof. by destruct lvl. Qed.

Lemma clock_set_tier lvl m l s : clock_ (set_tier lvl m l s) = clock_ s.
Proof. by destruct lvl. Qed.

Lemma io_set_tier lvl m l s : io_ (set_tier lvl m l s) = io_ s.
Proof. by destruct lvl. Qed.

Lemma GetEntryCount_nonneg s lvl : 0 ≤ GetEntryCount s lvl.
Proof. unfold GetEntryCount. lia. Qed.

(** ** ResetStats *)

(** C9. [ResetStats] zeroes the hit, miss and eviction counters and leaves
    everything else as it was: the [total_size] and [entry_count]
    statistics, the configuration, the three tier maps, the three LRU
    indices and the files on disk (as well as the clock and the pending
    file-operation outcomes of the environment). *)
Theorem ResetStats_frame (s : State) :
  CacheStats.hits (GetStats (ResetStats s)) = 0
  ∧ CacheStats.misses (GetStats (ResetStats s)) = 0
  ∧ CacheStats.evictions (GetStats (ResetStats s)) = 0
  ∧ CacheStats.total_size (GetStats (ResetStats s))
    = CacheStats.total_size (GetStats s)
  ∧ CacheStats.entry_count (GetStats (ResetStats s))
    = CacheStats.entry_count (GetStats s)
  ∧ (∀ lvl, cache_of lvl (ResetStats s) = cache_of lvl s)
  ∧ (∀ lvl, lru_of lvl (ResetStats s) = lru_of lvl s)
  ∧ files_ (ResetStats s) = files_ s
  ∧ config_ (ResetStats s) = config_ s
  ∧ clock_ (ResetStats s) = clock_ s
  ∧ io_ (ResetStats s) = io_ s.
Proof.
  unfold ResetStats, GetStats; cbn.
  repeat split; intros lvl; by destruct lvl.
Qed.

(** ** PutToLevel on the in-memory tiers *)

Lemma PutToLevel_memory s key d lvl :
  lvl ≠ L3_DISK →
  PutToLevel s key d lvl
  = (true,
     count_put (new_entry s key d lvl)
       (set_tier lvl (<[key := new_entry s key d lvl]> (cache_of lvl s))
          (LRUCache.Access key (lru_of lvl s)) s)).
Proof. by destruct lvl. Qed.

Lemma new_entry_memory s key d lvl :
  lvl ≠ L3_DISK →
  new_entry s key d lvl
  = CacheEntry.mk d (vsize d) (clock_ s) (clock_ s) 1 false lvl key.
Proof. by destruct lvl. Qed.

Lemma cache_of_count_put lvl e s : cache_of lvl (count_put e s) = cache_of lvl s.
Proof. by destruct lvl. Qed.

Lemma lru_of_count_put lvl e s : lru_of lvl (count_put e s) = lru_of lvl s.
Proof. by destruct lvl. Qed.

Lemma map_size_insert_present (m : gmap string CacheEntry.t) k e e' :
  m !! k = Some e → size (<[k := e']> m) = size m.
Proof.
  intros Hk. apply map_size_insert_Some. by exists e.
Qed.

(** A [PutToLevel] into an in-memory tier that already holds the key
    succeeds, replaces the map entry by the new one, leaves the entry
    count of every tier unchanged, and still increments the [entry_count]
    statistic by one and adds the new entry's size to [total_size] with
    nothing subtracted for the replaced entry. *)
Lemma PutToLevel_replace_overcounts s key d lvl e :
  lvl ≠ L3_DISK →
  cache_of lvl s !! key = Some e →
  let r := PutToLevel s key d lvl in
  r.1 = true
  ∧ cache_of lvl r.2 !! key
    = Some (CacheEntry.mk d (vsize d) (clock_ s) (clock_ s) 1 false lvl key)
  ∧ (∀ lvl', GetEntryCount r.2 lvl' = GetEntryCount s lvl')
  ∧ CacheStats.entry_count (stats_ r.2)
    = wrap64 (CacheStats.entry_count (stats_ s) + 1)
  ∧ CacheStats.total_size (stats_ r.2)
    = wrap64 (CacheStats.total_size (stats_ s) + vsize d)
  ∧ (live_entries s ≤ CacheStats.entry_count (stats_ s) →
     CacheStats.entry_count (stats_ s) + 1 < 2 ^ 64 →
     live_entries r.2 < CacheStats.entry_count (stats_ r.2)).
Proof.
  intros Hlvl Hk r. subst r.
  rewrite PutToLevel_memory, new_entry_memory by done. cbn [fst snd].
  assert (Hcount : ∀ lvl',
    GetEntryCount
      (count_put (CacheEntry.mk d (vsize d) (clock_ s) (clock_ s) 1 false lvl key)
         (set_tier lvl
            (<[key := CacheEntry.mk d (vsize d) (clock_ s) (clock_ s) 1 false
                        lvl key]> (cache_of lvl s))
            (LRUCache.Access key (lru_of lvl s)) s)) lvl'
    = GetEntryCount s lvl').
  { intros lvl'. unfold GetEntryCount.
    rewrite cache_of_count_put, cache_of_set_tier.
    destruct (decide (lvl' = lvl)) as [->|]; [|done].
    by erewrite map_size_insert_present. }
  split; [done|]. split.
  { by rewrite cache_of_count_put, cache_of_set_tier_eq, lookup_insert_eq. }
  split; [exact Hcount|].
  split; [by destruct lvl|]. split; [by destruct lvl|].
  intros Hle Hlt. unfold live_entries. rewrite !Hcount.
  fold (live_entries s).
  assert (CacheStats.entry_count
            (stats_ (count_put
               (CacheEntry.mk d (vsize d) (clock_ s) (clock_ s) 1 false lvl key)
               (set_tier lvl
                  (<[key := CacheEntry.mk d (vsize d) (clock_ s) (clock_ s) 1
                              false lvl key]> (cache_of lvl s))
                  (LRUCache.Access key (lru_of lvl s)) s)))
          = wrap64 (CacheStats.entry_count (stats_ s) + 1)) as ->
    by by destruct lvl.
  unfold wrap64. rewrite Z.mod_small; [lia|].
  pose proof (GetEntryCount_nonneg s L1_GPU).
  pose proof (GetEntryCount_nonneg s L2_RAM).
  pose proof (GetEntryCount_nonneg s L3_DISK).
  unfold live_entries in Hle. lia.
Qed.

(** ** PutToLevel on the disk tier when the file cannot be written *)

Lemma SaveToFile_fails s key d o io :
  io_ s = o :: io → save_fails o →
  (SaveToFile s key d).1 = false
  ∧ io_ (SaveToFile s key d).2 = io
  ∧ (∀ lvl, cache_of lvl (SaveToFile s key d).2 = cache_of lvl s)
  ∧ (∀ lvl, lru_of lvl (SaveToFile s key d).2 = lru_of lvl s)
  ∧ stats_ (SaveToFile s key d).2 = stats_ s.
Proof.
  intros Hio Hf. unfold SaveToFile. rewrite Hio.
  destruct o; [done| | |done]; cbn; repeat split; intros lvl; by destruct lvl.
Qed.

(** What [PutToLevel] leaves behind when [SaveToFile] fails: the key is
    gone from the disk tier's map and LRU index, whether or not it was
    there before, and the statistics are untouched. *)
Lemma PutToLevel_disk_save_fails s key d o io :
  io_ s = o :: io → save_fails o →
  let r := PutToLevel s key d L3_DISK in
  r.1 = false
  ∧ l3_cache_ r.2 = delete key (l3_cache_ s)
  ∧ l3_lru_ r.2 = LRUCache.RemoveNode key (l3_lru_ s)
  ∧ l1_cache_ r.2 = l1_cache_ s ∧ l2_cache_ r.2 = l2_cache_ s
  ∧ l1_lru_ r.2 = l1_lru_ s ∧ l2_lru_ r.2 = l2_lru_ s
  ∧ stats_ r.2 = stats_ s.
Proof.
  intros Hio Hf r. subst r. unfold PutToLevel.
  set (e := new_entry s key d L3_DISK).
  set (s1 := set_tier L3_DISK _ _ s).
  assert (Hio1 : io_ s1 = o :: io) by done.
  destruct (SaveToFile_fails s1 key (CacheEntry.data e) o io Hio1 Hf)
    as (Hr & _ & Hc & Hl & Hst).
  destruct (SaveToFile s1 key (CacheEntry.data e)) as [ok s2].
  cbn in Hr, Hc, Hl, Hst. subst ok. cbn.
  pose proof (Hc L1_GPU) as Hc1. pose proof (Hc L2_RAM) as Hc2.
  pose proof (Hc L3_DISK) as Hc3. pose proof (Hl L1_GPU) as Hl1.
  pose proof (Hl L2_RAM) as Hl2. pose proof (Hl L3_DISK) as Hl3.
  cbn in Hc1, Hc2, Hc3, Hl1, Hl2, Hl3.
  rewrite Hc1, Hc2, Hc3, Hl1, Hl2, Hl3, Hst.
  repeat split; [apply delete_insert_eq|].
  unfold LRUCache.Remove, LRUCache.Access, LRUCache.RemoveNode.
  assert (Hidem : ∀ l : list string,
    filter (λ k, k ≠ key) (filter (λ k, k ≠ key) l) = filter (λ k, k ≠ key) l).
  { intros l. induction l as [|a l IH]; [done|].
    rewrite filter_cons. destruct (decide (a ≠ key)); [|done].
    rewrite filter_cons. destruct (decide (a ≠ key)); [|done]. by rewrite IH. }
  destruct (decide (key ∈ l3_lru_ s)) as [Hin|Hnin].
  - rewrite decide_True by set_solver.
    rewrite filter_cons, decide_False by naive_solver. apply Hidem.
  - rewrite decide_True by set_solver.
    by rewrite filter_cons, decide_False by naive_solver.
Qed.

Lemma RemoveNode_absent key (l : list string) :
  key ∉ l → LRUCache.RemoveNode key l = l.
Proof.
  intros Hnin. unfold LRUCache.RemoveNode.
  induction l as [|a l IH]; [done|].
  rewrite filter_cons, decide_True by set_solver.
  f_equal. apply IH. set_solver.
Qed.

(** For a key the disk tier does not hold, the rollback is exact. *)
Lemma PutToLevel_disk_save_fails_fresh s key d o io :
  io_ s = o :: io → save_fails o →
  l3_cache_ s !! key = None → key ∉ l3_lru_ s →
  let r := PutToLevel s key d L3_DISK in
  r.1 = false
  ∧ (∀ lvl, cache_of lvl r.2 = cache_of lvl s)
  ∧ (∀ lvl, lru_of lvl r.2 = lru_of lvl s)
  ∧ stats_ r.2 = stats_ s.
Proof.
  intros Hio Hf Hk Hl r.
  destruct (PutToLevel_disk_save_fails s key d o io Hio Hf)
    as (H1 & H2 & H3 & H4 & H5 & H6 & H7 & H8).
  fold r in H1, H2, H3, H4, H5, H6, H7, H8. clearbody r.
  split; [done|]. split; [|split; [|done]].
  - intros []; cbn; [done..|]. by rewrite H2, delete_id.
  - intros []; cbn; [done..|]. by rewrite H3, RemoveNode_absent.
Qed.

(** For a key the disk tier holds, the entry stored before is lost while
    the statistics still count it. *)
Lemma PutToLevel_disk_save_fails_present s key d o io e :
  io_ s = o :: io → save_fails o →
  l3_cache_ s !! key = Some e →
  let r := PutToLevel s key d L3_DISK in
  r.1 = false
  ∧ l3_cache_ r.2 !! key = None
  ∧ (key ∉ l3_lru_ r.2)
  ∧ stats_ r.2 = stats_ s.
Proof.
  intros Hio Hf Hk r.
  destruct (PutToLevel_disk_save_fails s key d o io Hio Hf)
    as (H1 & H2 & H3 & _ & _ & _ & _ & H8).
  fold r in H1, H2, H3, H8. clearbody r.
  split; [done|]. split; [by rewrite H2, lookup_delete_eq|]. split; [|done].
  rewrite H3. unfold LRUCache.RemoveNode. rewrite list_elem_of_filter.
  by intros [Hne _].
Qed.

(** ** Get: misses, disk hits and promotion *)

Lemma GetFromLevel_memory_miss s key buf lvl :
  lvl ≠ L3_DISK → cache_of lvl s !! key = None →
  GetFromLevel s key buf lvl = (false, buf, s).
Proof. intros Hlvl Hk. destruct lvl; [| |done]; cbn in *; by rewrite Hk. Qed.

Lemma GetFromLevel_memory_hit s key buf lvl e :
  lvl ≠ L3_DISK → cache_of lvl s !! key = Some e →
  GetFromLevel s key buf lvl
  = (true, CacheEntry.data e,
     set_tier lvl (<[key := CacheEntry.touch (clock_ s) e]> (cache_of lvl s))
       (lru_of lvl s) s).
Proof. intros Hlvl Hk. destruct lvl; [| |done]; cbn in *; by rewrite Hk. Qed.

Lemma GetFromLevel_disk_hit s key buf :
  (GetFromLevel s key buf L3_DISK).1.1 = true →
  ∃ e d,
    l3_cache_ s !! key = Some e
    ∧ files_ s !! GetFilePath s key = Some d
    ∧ GetFromLevel s key buf L3_DISK
      = (true, if CacheEntry.compressed e then Decompress d else d,
         disk_read_state s key e).
Proof.
  unfold GetFromLevel, LoadFromFile.
  destruct (l3_cache_ s !! key) as [e|]; [|done].
  destruct (io_ s) as [|[| |n|n] io] eqn:Hio;
    destruct (files_ s !! GetFilePath s key) as [d|] eqn:Hf; try done;
    intros _; exists e, d; repeat split;
    unfold disk_read_state; by rewrite Hio.
Qed.

Lemma GetFromLevel_miss_frame s key buf lvl :
  (GetFromLevel s key buf lvl).1.1 = false →
  (∀ lvl', cache_of lvl' (GetFromLevel s key buf lvl).2 = cache_of lvl' s)
  ∧ (∀ lvl', lru_of lvl' (GetFromLevel s key buf lvl).2 = lru_of lvl' s)
  ∧ stats_ (GetFromLevel s key buf lvl).2 = stats_ s
  ∧ config_ (GetFromLevel s key buf lvl).2 = config_ s
  ∧ files_ (GetFromLevel s key buf lvl).2 = files_ s
  ∧ clock_ (GetFromLevel s key buf lvl).2 = clock_ s.
Proof.
  destruct lvl; cbn.
  - destruct (l1_cache_ s !! key); cbn; [done|].
    intros _; repeat split; by intros [].
  - destruct (l2_cache_ s !! key); cbn; [done|].
    intros _; repeat split; by intros [].
  - destruct (l3_cache_ s !! key) as [e|]; cbn;
      [|intros _; repeat split; by intros []].
    unfold LoadFromFile.
    destruct (io_ s) as [|[| |n|n] io];
      try destruct (files_ s !! GetFilePath s key); cbn; try done;
      intros _; repeat split; by intros [].
Qed.

Lemma GetCurrentSize_ext s s' lvl :
  cache_of lvl s = cache_of lvl s' → GetCurrentSize s lvl = GetCurrentSize s' lvl.
Proof. unfold GetCurrentSize. by intros ->. Qed.

Lemma promote_fits lvl key d s :
  lvl ≠ L3_DISK →
  wrap64 (GetCurrentSize s lvl + vsize d) ≤ max_size_of lvl (config_ s) →
  promote lvl key d s
  = count_put (new_entry s key d lvl)
      (set_tier lvl (<[key := new_entry s key d lvl]> (cache_of lvl s))
         (LRUCache.Access key (lru_of lvl s)) s).
Proof.
  intros Hlvl Hfit. unfold promote.
  rewrite (proj2 (Z.leb_le _ _) Hfit). by rewrite PutToLevel_memory.
Qed.

(** [Get] when neither in-memory tier holds the key. *)
Lemma Get_disk_path s key buf :
  l1_cache_ s !! key = None → l2_cache_ s !! key = None →
  Get s key buf
  = let '(f3, d3, s3) := GetFromLevel s key buf L3_DISK in
    if f3
    then (true, d3, promote L2_RAM key d3 (record_hit L3_DISK key s3))
    else (false, d3, set_stats (stats_miss (stats_ s3)) s3).
Proof.
  intros H1 H2. unfold Get.
  rewrite (GetFromLevel_memory_miss s key buf L1_GPU) by done.
  by rewrite (GetFromLevel_memory_miss s key buf L2_RAM) by done.
Qed.

(** C5. A key held by neither in-memory tier (it was written to the Slow
    tier only) whose [Get] succeeds while the Medium tier has room for the
    returned payload is afterwards found directly in the Medium tier,
    with the same bytes; the Slow tier keeps its entry (only its access
    time and count are refreshed) and its file. *)
Theorem Get_promotes_slow_to_medium s key buf :
  l1_cache_ s !! key = None →
  l2_cache_ s !! key = None →
  (Get s key buf).1.1 = true →
  wrap64 (GetCurrentSize s L2_RAM + vsize (Get s key buf).1.2)
    ≤ Config.max_l2_size (config_ s) →
  (∀ buf', (GetFromLevel (Get s key buf).2 key buf' L2_RAM).1
           = (true, (Get s key buf).1.2))
  ∧ (∃ e, l3_cache_ s !! key = Some e
          ∧ l3_cache_ (Get s key buf).2 !! key
            = Some (CacheEntry.touch (clock_ s) e))
  ∧ files_ (Get s key buf).2 = files_ s.
Proof.
  intros H1 H2. rewrite (Get_disk_path s key buf H1 H2).
  destruct (GetFromLevel s key buf L3_DISK) as [[f3 d3] s3] eqn:Hg.
  destruct f3; cbn [fst snd]; [|done]. intros _ Hfit.
  destruct (GetFromLevel_disk_hit s key buf) as (e & d & He & Hd & Heq);
    [by rewrite Hg|].
  rewrite Hg in Heq. injection Heq as Hd3 Hs3.
  set (sh := record_hit L3_DISK key s3).
  assert (Hc2 : cache_of L2_RAM sh = l2_cache_ s) by (by subst s3).
  assert (Hcfg : config_ sh = config_ s) by (by subst s3).
  assert (Hc3 : l3_cache_ sh = <[key := CacheEntry.touch (clock_ s) e]> (l3_cache_ s))
    by (by subst s3).
  assert (Hfl : files_ sh = files_ s) by (by subst s3).
  rewrite promote_fits; [|done|].
  2:{ rewrite (GetCurrentSize_ext sh s) by done. by rewrite Hcfg. }
  clearbody sh. split; [|split].
  - intros buf'.
    erewrite GetFromLevel_memory_hit; [|done|].
    2:{ rewrite cache_of_count_put, cache_of_set_tier_eq.
        apply lookup_insert_eq. }
    by rewrite new_entry_memory.
  - exists e. split; [done|]. cbn. rewrite Hc3. apply lookup_insert_eq.
  - done.
Qed.

(** ** Hit and miss counters *)

Lemma hit_miss_set_tier lvl m l s : hit_miss (set_tier lvl m l s) = hit_miss s.
Proof. by destruct lvl. Qed.

Lemma hit_miss_remove_from lvl key rs :
  hit_miss (remove_from lvl key rs).2 = hit_miss rs.2.
Proof.
  destruct rs as [b s]. unfold remove_from.
  destruct (cache_of lvl s !! key); [|done]. by destruct lvl.
Qed.

Lemma hit_miss_Remove s key : hit_miss (Remove s key).2 = hit_miss s.
Proof.
  unfold Remove.
  destruct (remove_from L3_DISK key _) as [b s'] eqn:H3.
  assert (Hs : hit_miss s' = hit_miss s).
  { change s' with (b, s').2. rewrite <- H3.
    by rewrite !hit_miss_remove_from. }
  by destruct b.
Qed.

Lemma hit_miss_EvictLRU s lvl : hit_miss (EvictLRU s lvl) = hit_miss s.
Proof.
  unfold EvictLRU. case_decide; [done|].
  rewrite <- (hit_miss_Remove s (LRUCache.GetLRU (lru_of lvl s))). done.
Qed.

Lemma hit_miss_evict_while fuel lvl s s' :
  evict_while fuel lvl s = Some s' → hit_miss s' = hit_miss s.
Proof.
  revert s. induction fuel as [|fuel IH]; intros s; cbn;
    destruct (NeedEviction s lvl); try done; try congruence.
  intros H. rewrite (IH _ H). apply hit_miss_EvictLRU.
Qed.

Lemma hit_miss_SaveToFile s key d :
  hit_miss (SaveToFile s key d).2 = hit_miss s.
Proof. unfold SaveToFile. by destruct (io_ s) as [|[| |n|n] io]. Qed.

Lemma hit_miss_PutToLevel s key d lvl :
  hit_miss (PutToLevel s key d lvl).2 = hit_miss s.
Proof.
  destruct lvl; [done..|]. unfold PutToLevel.
  set (e := new_entry s key d L3_DISK). set (s1 := set_tier _ _ _ s).
  pose proof (hit_miss_SaveToFile s1 key (CacheEntry.data e)) as Hs.
  destruct (SaveToFile s1 key (CacheEntry.data e)) as [[] s2];
    change (hit_miss s2 = hit_miss s);
    change (hit_miss s2 = hit_miss s1) in Hs; by rewrite Hs.
Qed.

Lemma hit_miss_Put s key d lvl r :
  Put s key d lvl = Some r → hit_miss r.2 = hit_miss s.
Proof.
  unfold Put, Put_fuel.
  destruct (evict_while _ _ s) as [s'|] eqn:He; [|done].
  intros [= <-]. rewrite hit_miss_PutToLevel.
  by eapply hit_miss_evict_while.
Qed.

Lemma hit_miss_CleanupExpired s : hit_miss (CleanupExpired s) = hit_miss s.
Proof.
  unfold CleanupExpired.
  generalize (expired_in L2_RAM s ++ expired_in L3_DISK s). intros ks.
  revert s. induction ks as [|k ks IH]; intros s; [done|].
  cbn. rewrite IH. apply hit_miss_Remove.
Qed.

Lemma hit_miss_GetFromLevel s key buf lvl :
  hit_miss (GetFromLevel s key buf lvl).2 = hit_miss s.
Proof.
  destruct lvl; cbn.
  - by destruct (l1_cache_ s !! key).
  - by destruct (l2_cache_ s !! key).
  - destruct (l3_cache_ s !! key); [|done]. unfold LoadFromFile.
    destruct (io_ s) as [|[| |n|n] io];
      try destruct (files_ s !! GetFilePath s key); done.
Qed.

Lemma hit_miss_promote lvl key d s : hit_miss (promote lvl key d s) = hit_miss s.
Proof.
  unfold promote. case_match; [|done]. apply hit_miss_PutToLevel.
Qed.

Lemma hit_miss_record_hit lvl key s :
  hit_miss (record_hit lvl key s)
  = (wrap64 ((hit_miss s).1 + 1), (hit_miss s).2).
Proof. by destruct lvl. Qed.

(** A [Get] that returns [true] increments [hits] and nothing else of the
    two counters; one that returns [false] increments [misses]. *)
Lemma hit_miss_Get s key buf :
  hit_miss (Get s key buf).2
  = if (Get s key buf).1.1
    then (wrap64 ((hit_miss s).1 + 1), (hit_miss s).2)
    else ((hit_miss s).1, wrap64 ((hit_miss s).2 + 1)).
Proof.
  unfold Get.
  pose proof (hit_miss_GetFromLevel s key buf L1_GPU) as H1.
  destruct (GetFromLevel s key buf L1_GPU) as [[[] d1] s1]; cbn [fst snd] in H1 |- *.
  { by rewrite hit_miss_record_hit, H1. }
  pose proof (hit_miss_GetFromLevel s1 key d1 L2_RAM) as H2.
  destruct (GetFromLevel s1 key d1 L2_RAM) as [[[] d2] s2]; cbn [fst snd] in H2 |- *.
  { by rewrite hit_miss_promote, hit_miss_record_hit, H2, H1. }
  pose proof (hit_miss_GetFromLevel s2 key d2 L3_DISK) as H3.
  destruct (GetFromLevel s2 key d2 L3_DISK) as [[[] d3] s3]; cbn [fst snd] in H3 |- *.
  { by rewrite hit_miss_promote, hit_miss_record_hit, H3, H2, H1. }
  unfold hit_miss in *. cbn. congruence.
Qed.

Lemma hit_miss_step s c s' o :
  step s c = Some (s', o) →
  hit_miss s'
  = match o with
    | Some true => (wrap64 ((hit_miss s).1 + 1), (hit_miss s).2)
    | Some false => ((hit_miss s).1, wrap64 ((hit_miss s).2 + 1))
    | None => hit_miss s
    end.
Proof.
  destruct c; cbn.
  - intros [= <- <-]. apply hit_miss_Get.
  - destruct (Put s key d preferred_level) as [r|] eqn:Hp; [|done].
    intros [= <- <-]. by eapply hit_miss_Put.
  - intros [= <- <-]. apply hit_miss_Remove.
  - by intros [= <- <-].
  - intros [= <- <-]. apply hit_miss_CleanupExpired.
  - by intros [= <- <-].
Qed.

Lemma wrap64_add_l a b : wrap64 (wrap64 a + b) = wrap64 (a + b).
Proof. unfold wrap64. by rewrite Zplus_mod_idemp_l. Qed.

Lemma hit_miss_run cs : ∀ s s' n m h0 m0,
  run s cs = Some (s', n, m) →
  hit_miss s = (wrap64 h0, wrap64 m0) →
  hit_miss s' = (wrap64 (h0 + Z.of_nat n), wrap64 (m0 + Z.of_nat m)).
Proof.
  induction cs as [|c cs IH]; intros s s' n m h0 m0; cbn.
  { intros [= <- <- <-] ->. by rewrite !Z.add_0_r. }
  destruct (step s c) as [[s1 o]|] eqn:Hstep; [|done].
  destruct (run s1 cs) as [[[s2 n2] m2]|] eqn:Hrun; [|done].
  intros [= <- <- <-] Hs.
  pose proof (hit_miss_step _ _ _ _ Hstep) as Hs1. rewrite Hs in Hs1.
  cbn [fst snd] in Hs1. rewrite !wrap64_add_l in Hs1.
  destruct o as [[]|].
  - rewrite (IH _ _ _ _ (h0 + 1) m0 Hrun Hs1). f_equal; f_equal; lia.
  - rewrite (IH _ _ _ _ h0 (m0 + 1) Hrun Hs1). f_equal; f_equal; lia.
  - by rewrite (IH _ _ _ _ h0 m0 Hrun Hs1).
Qed.

(** A sequence of [Get] calls always runs to its end. *)
Lemma run_Gets_total s (ks : list (string * list byte)) :
  is_Some (run s (map (λ kb, call_Get kb.1 kb.2) ks)).
Proof.
  revert s. induction ks as [|[k b] ks IH]; intros s; cbn; [by eexists|].
  destruct (IH (Get s k b).2) as [[[s2 n] m] ->]. by eexists.
Qed.

(** ** Double arithmetic of the hit ratio *)

Lemma rne_div_cases a b :
  CacheStats.rne_div a b = a / b ∨ CacheStats.rne_div a b = a / b + 1.
Proof.
  unfold CacheStats.rne_div. destruct (2 * (a mod b) ?= b); auto.
  destruct (Z.even (a / b)); auto.
Qed.

Lemma rne_div_error (a b : Z) :
  0 < b →
  (- b) ≤ 2 * (CacheStats.rne_div a b * b - a)
  ∧ 2 * (CacheStats.rne_div a b * b - a) ≤ b.
Proof.
  intros Hb. pose proof (Z.div_mod a b ltac:(lia)) as Hdm.
  pose proof (Z.mod_pos_bound a b Hb) as Hr. unfold CacheStats.rne_div.
  destruct (Z.compare_spec (2 * (a mod b)) b) as [He|Hl|Hg].
  - destruct (Z.even (a / b)); nia.
  - nia.
  - nia.
Qed.

Lemma rne_div_ge a b n : 0 < b → n * b ≤ a → n ≤ CacheStats.rne_div a b.
Proof. intros Hb Hn. pose proof (rne_div_error a b Hb). nia. Qed.

Lemma rne_div_le a b n : 0 < b → a ≤ n * b → CacheStats.rne_div a b ≤ n.
Proof. intros Hb Hn. pose proof (rne_div_error a b Hb). nia. Qed.

Lemma rne_div_mono a a' b : 0 < b → a ≤ a' → CacheStats.rne_div a b ≤ CacheStats.rne_div a' b.
Proof.
  intros Hb Hle.
  pose proof (Z.div_mod a b ltac:(lia)) as Hdm.
  pose proof (Z.div_mod a' b ltac:(lia)) as Hdm'.
  pose proof (Z.mod_pos_bound a b Hb) as Hr.
  pose proof (Z.mod_pos_bound a' b Hb) as Hr'.
  pose proof (Z.div_le_mono a a' b Hb Hle) as Hq.
  destruct (Z.eq_dec (a / b) (a' / b)) as [Heq|Hne].
  - assert (a mod b ≤ a' mod b) by nia.
    unfold CacheStats.rne_div. rewrite <- Heq.
    destruct (Z.compare_spec (2 * (a mod b)) b),
      (Z.compare_spec (2 * (a' mod b)) b);
      destruct (Z.even (a / b)); lia.
  - destruct (rne_div_cases a b) as [-> | ->],
      (rne_div_cases a' b) as [-> | ->]; lia.
Qed.

Lemma log2_bounds n : 0 < n → 2 ^ Z.log2 n ≤ n < 2 ^ (Z.log2 n + 1).
Proof.
  intros Hn. replace (Z.log2 n + 1) with (Z.succ (Z.log2 n)) by lia.
  by apply Z.log2_spec.
Qed.

Lemma to_double_small n : Z.log2 n ≤ 52 → CacheStats.to_double n = n.
Proof. intros H. unfold CacheStats.to_double. by rewrite (proj2 (Z.leb_le _ _)) by lia. Qed.

Lemma to_double_exact n : 0 ≤ n < 2 ^ 53 → CacheStats.to_double n = n.
Proof.
  intros [H0 H1]. apply to_double_small.
  destruct (Z.eq_dec n 0) as [->|Hn]; [done|].
  pose proof (log2_bounds n ltac:(lia)) as [Hl _].
  destruct (Z_le_gt_dec (Z.log2 n) 52) as [|Hgt]; [done|].
  pose proof (Z.pow_le_mono_r 2 53 (Z.log2 n) ltac:(lia) ltac:(lia)). lia.
Qed.

Lemma to_double_large n :
  52 < Z.log2 n →
  CacheStats.to_double n = CacheStats.rne_div n (2 ^ (Z.log2 n - 52)) * 2 ^ (Z.log2 n - 52)
  ∧ 2 ^ 52 * 2 ^ (Z.log2 n - 52) ≤ CacheStats.to_double n
    ≤ 2 ^ 53 * 2 ^ (Z.log2 n - 52).
Proof.
  intros Hl. assert (Hn : 0 < n).
  { destruct (Z_lt_le_dec 0 n) as [|Hle]; [done|].
    rewrite Z.log2_nonpos in Hl by done. lia. }
  unfold CacheStats.to_double. rewrite (proj2 (Z.leb_gt _ _)) by lia.
  split; [done|]. set (s := Z.log2 n - 52).
  assert (Hs : 0 < 2 ^ s) by (apply Z.pow_pos_nonneg; lia).
  pose proof (log2_bounds n Hn) as [Hlo Hhi].
  replace (Z.log2 n) with (52 + s) in Hlo by lia.
  replace (Z.log2 n + 1) with (53 + s) in Hhi by lia.
  rewrite Z.pow_add_r in Hlo, Hhi by lia.
  pose proof (rne_div_ge n (2 ^ s) (2 ^ 52) Hs Hlo).
  pose proof (rne_div_le n (2 ^ s) (2 ^ 53) Hs ltac:(lia)).
  nia.
Qed.

Lemma to_double_nonneg n : 0 ≤ n → 0 ≤ CacheStats.to_double n.
Proof.
  intros Hn. destruct (Z_le_gt_dec (Z.log2 n) 52) as [Hl|Hl].
  - by rewrite to_double_small.
  - destruct (to_double_large n ltac:(lia)) as [_ [H _]].
    assert (0 < 2 ^ (Z.log2 n - 52)) by (apply Z.pow_pos_nonneg; lia). nia.
Qed.

Lemma to_double_pos n : 0 < n → 0 < CacheStats.to_double n.
Proof.
  intros Hn. destruct (Z_le_gt_dec (Z.log2 n) 52) as [Hl|Hl].
  - by rewrite to_double_small.
  - destruct (to_double_large n ltac:(lia)) as [_ [H _]].
    assert (0 < 2 ^ (Z.log2 n - 52)) by (apply Z.pow_pos_nonneg; lia). nia.
Qed.

Lemma to_double_mono n1 n2 : 0 ≤ n1 ≤ n2 → CacheStats.to_double n1 ≤ CacheStats.to_double n2.
Proof.
  intros [H0 Hle].
  pose proof (Z.log2_le_mono n1 n2 Hle) as Hlog.
  destruct (Z_le_gt_dec (Z.log2 n2) 52) as [Hl2|Hl2].
  { rewrite !to_double_small by lia. done. }
  destruct (to_double_large n2 ltac:(lia)) as [E2 [Hlo2 Hhi2]].
  assert (Hs2 : 0 < 2 ^ (Z.log2 n2 - 52)) by (apply Z.pow_pos_nonneg; lia).
  destruct (Z_le_gt_dec (Z.log2 n1) 52) as [Hl1|Hl1].
  { rewrite (to_double_small n1) by done.
    destruct (Z.eq_dec n1 0) as [->|Hn1]; [nia|].
    pose proof (log2_bounds n1 ltac:(lia)) as [_ Hhi].
    pose proof (Z.pow_le_mono_r 2 (Z.log2 n1 + 1) 53 ltac:(lia) ltac:(lia)).
    pose proof (Z.pow_le_mono_r 2 1 (Z.log2 n2 - 52) ltac:(lia) ltac:(lia)).
    change (2 ^ 1) with 2 in *. nia. }
  destruct (to_double_large n1 ltac:(lia)) as [E1 [Hlo1 Hhi1]].
  destruct (Z.eq_dec (Z.log2 n1) (Z.log2 n2)) as [Heq|Hne].
  - rewrite E1, E2, Heq.
    pose proof (rne_div_mono n1 n2 (2 ^ (Z.log2 n2 - 52)) Hs2 Hle). nia.
  - assert (Hlt : Z.log2 n1 - 52 + 1 ≤ Z.log2 n2 - 52) by lia.
    pose proof (Z.pow_le_mono_r 2 _ _ ltac:(lia) Hlt) as Hp.
    rewrite Z.pow_add_r in Hp by lia. change (2 ^ 1) with 2 in Hp.
    change (2 ^ 53) with (2 ^ 52 * 2) in Hhi1. nia.
Qed.

(** The scale the division settles on, when the quotient is at most 1. *)
Lemma double_div_le_one a b :
  0 < a ≤ b →
  ∃ k m, 52 ≤ k
    ∧ m = CacheStats.rne_div (a * 2 ^ k) b
    ∧ 1 ≤ m ≤ 2 ^ k
    ∧ CacheStats.double_div a b = Qmake m (Z.to_pos (2 ^ k)).
Proof.
  intros [Ha Hab]. unfold CacheStats.double_div.
  rewrite (proj2 (Z.eqb_neq _ _)) by lia.
  pose proof (Z.log2_le_mono a b Hab) as Hlog.
  pose proof (Z.log2_nonneg a) as Hla.
  set (k0 := 52 + Z.log2 b - Z.log2 a).
  assert (Hk0 : 52 ≤ k0) by (unfold k0; lia).
  set (k := if _ <=? _ then k0 else k0 + 1).
  assert (Hk : k0 ≤ k) by (unfold k; case_match; lia).
  exists k, (CacheStats.rne_div (a * 2 ^ k) b).
  rewrite (Z.max_l k 0), (Z.max_r (- k) 0) by lia.
  rewrite Z.pow_0_r, Z.mul_1_r. rewrite (proj2 (Z.leb_le _ _)) by lia.
  split; [lia|]. split; [done|]. split; [|done].
  assert (Hpk : 0 < 2 ^ k) by (apply Z.pow_pos_nonneg; lia).
  split.
  - apply rne_div_ge; [lia|].
    pose proof (log2_bounds a Ha) as [Hlo _].
    pose proof (log2_bounds b ltac:(lia)) as [_ Hhi].
    pose proof (Z.pow_le_mono_r 2 k0 k ltac:(lia) Hk) as Hkk.
    assert (Hmul : 2 ^ Z.log2 a * 2 ^ k0 = 2 ^ (52 + Z.log2 b)).
    { rewrite <- Z.pow_add_r by lia. f_equal. unfold k0. lia. }
    pose proof (Z.pow_le_mono_r 2 (Z.log2 b + 1) (52 + Z.log2 b)
                  ltac:(lia) ltac:(lia)).
    assert (0 < 2 ^ k0) by (apply Z.pow_pos_nonneg; lia).
    nia.
  - apply rne_div_le; [lia|]. nia.
Qed.

Lemma double_div_bounds a b :
  0 ≤ a ≤ b → 0 < b →
  (0 <= CacheStats.double_div a b)%Q ∧ (CacheStats.double_div a b <= 1)%Q
  ∧ ((CacheStats.double_div a b == 0)%Q ↔ a = 0).
Proof.
  intros [Ha Hab] Hb. destruct (Z.eq_dec a 0) as [->|Hne].
  { unfold CacheStats.double_div. cbn. repeat split; done. }
  destruct (double_div_le_one a b ltac:(lia)) as (k & m & Hk & _ & Hm & ->).
  assert (Hpk : 0 < 2 ^ k) by (apply Z.pow_pos_nonneg; lia).
  unfold Qle, Qeq. cbn. rewrite Z2Pos.id by done.
  split; [lia|]. split; [lia|]. lia.
Qed.

(** Within half a unit in the last place of the exact quotient. *)
Lemma double_div_error a b :
  0 < a ≤ b →
  (Qmake a (Z.to_pos b) - Qmake 1 (2 ^ 53) <= CacheStats.double_div a b)%Q
  ∧ (CacheStats.double_div a b <= Qmake a (Z.to_pos b) + Qmake 1 (2 ^ 53))%Q.
Proof.
  intros Hab.
  destruct (double_div_le_one a b Hab) as (k & m & Hk & Hm & _ & ->).
  assert (Hpk : 0 < 2 ^ k) by (apply Z.pow_pos_nonneg; lia).
  pose proof (rne_div_error (a * 2 ^ k) b ltac:(lia)) as He.
  rewrite <- Hm in He.
  pose proof (Z.pow_le_mono_r 2 52 k ltac:(lia) Hk) as Hp.
  unfold Qle, Qminus, Qplus, Qopp. cbn.
  rewrite !Pos2Z.inj_mul, !Z2Pos.id by lia.
  change (Z.pos (2 ^ 53)) with (2 ^ 52 * 2) .
  change (2 ^ 52) with 4503599627370496 in *.
  split; nia.
Qed.

(** C7. From a state whose hit and miss counters are zero (a new cache, or
    one whose statistics were just reset), after any sequence of calls
    without [ResetStats] in which N [Get]s returned [true] and M [Get]s
    returned [false], the statistics report [hits = N] and [misses = M].
    The hit ratio is 0 when N + M = 0 and otherwise the double quotient
    of N and N + M, both converted to [double]: for N + M below 2^53 it
    is N / (N + M) rounded to the nearest double, within 2^-53 of it.
    The counters are 64-bit, so N + M is taken below 2^64. *)
Theorem stats_consistency s cs s' n m :
  CacheStats.hits (stats_ s) = 0 →
  CacheStats.misses (stats_ s) = 0 →
  run s cs = Some (s', n, m) →
  Z.of_nat (n + m) < 2 ^ 64 →
  CacheStats.hits (GetStats s') = Z.of_nat n
  ∧ CacheStats.misses (GetStats s') = Z.of_nat m
  ∧ CacheStats.GetHitRatio (GetStats s')
    = (if (n + m =? 0)%nat then 0%Q
       else CacheStats.double_div (CacheStats.to_double (Z.of_nat n))
              (CacheStats.to_double (Z.of_nat (n + m))))
  ∧ ((n + m)%nat ≠ 0%nat → Z.of_nat (n + m) < 2 ^ 53 →
     (Qmake (Z.of_nat n) (Pos.of_nat (n + m)) - Qmake 1 (2 ^ 53)
      <= CacheStats.GetHitRatio (GetStats s'))%Q
     ∧ (CacheStats.GetHitRatio (GetStats s')
        <= Qmake (Z.of_nat n) (Pos.of_nat (n + m)) + Qmake 1 (2 ^ 53))%Q).
Proof.
  intros Hh Hm Hrun Hlt.
  pose proof (hit_miss_run cs s s' n m 0 0 Hrun) as Hr.
  unfold hit_miss in Hr. rewrite Hh, Hm in Hr.
  specialize (Hr eq_refl). injection Hr as Hh' Hm'.
  unfold wrap64 in Hh', Hm'. rewrite Z.mod_small in Hh', Hm' by lia.
  rewrite Z.add_0_l in Hh', Hm'.
  assert (Hratio : CacheStats.GetHitRatio (GetStats s')
    = (if (n + m =? 0)%nat then 0%Q
       else CacheStats.double_div (CacheStats.to_double (Z.of_nat n))
              (CacheStats.to_double (Z.of_nat (n + m))))).
  { unfold GetStats, CacheStats.GetHitRatio.
    rewrite Hh', Hm'. unfold wrap64. rewrite Z.mod_small by lia.
    destruct (n + m)%nat as [|k] eqn:Hk.
    - replace (Z.of_nat n + Z.of_nat m) with 0 by lia. done.
    - replace (Z.of_nat n + Z.of_nat m) with (Z.of_nat (S k)) by lia.
      cbn [Nat.eqb]. by rewrite (proj2 (Z.ltb_lt 0 (Z.of_nat (S k)))) by lia. }
  split; [done|]. split; [done|]. split; [done|].
  intros Hnz Hsmall. rewrite Hratio.
  rewrite (proj2 (Nat.eqb_neq _ _) Hnz).
  rewrite !to_double_exact by lia.
  assert (Hpos : Pos.of_nat (n + m) = Z.to_pos (Z.of_nat (n + m))) by lia.
  rewrite Hpos.
  destruct (Nat.eq_dec n 0%nat) as [->|Hn].
  - change (CacheStats.double_div (Z.of_nat 0) _) with 0%Q.
    generalize (Z.to_pos (Z.of_nat (0 + m))). intros p.
    unfold Qle, Qminus, Qplus, Qopp. cbn [Qnum Qden Z.of_nat].
    split; lia.
  - apply double_div_error. lia.
Qed.

(** ** Remove and EvictLRU, tier by tier *)

Lemma cache_of_remove_from lvl lvl' key rs :
  cache_of lvl' (remove_from lvl key rs).2
  = if decide (lvl' = lvl) then delete key (cache_of lvl rs.2)
    else cache_of lvl' rs.2.
Proof.
  destruct rs as [b s]. unfold remove_from. cbn [snd].
  destruct (cache_of lvl s !! key) as [e|] eqn:Hk.
  - by destruct lvl, lvl'.
  - cbn [snd]. case_decide; [|done]. subst. by rewrite delete_id.
Qed.

Lemma lru_of_remove_from lvl lvl' key rs :
  lru_of lvl' (remove_from lvl key rs).2
  = if decide (lvl' = lvl)
    then match cache_of lvl rs.2 !! key with
         | Some _ => LRUCache.Remove key (lru_of lvl rs.2)
         | None => lru_of lvl rs.2
         end
    else lru_of lvl' rs.2.
Proof.
  destruct rs as [b s]. unfold remove_from. cbn [snd].
  destruct (cache_of lvl s !! key) as [e|] eqn:Hk.
  - by destruct lvl, lvl'.
  - cbn [snd]. case_decide; [|done]. by subst.
Qed.

Lemma env_remove_from lvl key rs :
  config_ (remove_from lvl key rs).2 = config_ rs.2
  ∧ clock_ (remove_from lvl key rs).2 = clock_ rs.2
  ∧ io_ (remove_from lvl key rs).2 = io_ rs.2.
Proof.
  destruct rs as [b s]. unfold remove_from. cbn [snd].
  destruct (cache_of lvl s !! key); [|done]. by destruct lvl.
Qed.

Lemma Remove_state s key :
  (Remove s key).2 = removed_all s key
  ∨ (Remove s key).2
    = set_stats (stats_add_entry (-1) (stats_ (removed_all s key)))
        (removed_all s key).
Proof.
  unfold Remove, removed_all.
  destruct (remove_from L3_DISK key _) as [[] s']; cbn; auto.
Qed.

Lemma cache_of_removed_all lvl s key :
  cache_of lvl (removed_all s key) = delete key (cache_of lvl s).
Proof.
  unfold removed_all. rewrite !cache_of_remove_from. cbn [snd].
  destruct lvl; repeat case_decide; try done; by rewrite ?delete_id.
Qed.

Lemma lru_of_removed_all lvl s key :
  lru_of lvl (removed_all s key)
  = match cache_of lvl s !! key with
    | Some _ => LRUCache.Remove key (lru_of lvl s)
    | None => lru_of lvl s
    end.
Proof.
  unfold removed_all.
  rewrite !lru_of_remove_from, !cache_of_remove_from. cbn [snd].
  destruct lvl; repeat case_decide; done.
Qed.

Lemma cache_of_Remove lvl s key :
  cache_of lvl (Remove s key).2 = delete key (cache_of lvl s).
Proof.
  destruct (Remove_state s key) as [-> | ->];
    [|change (cache_of lvl (set_stats ?st ?x)) with (cache_of lvl x)];
    apply cache_of_removed_all.
Qed.

Lemma lru_of_Remove lvl s key :
  lru_of lvl (Remove s key).2
  = match cache_of lvl s !! key with
    | Some _ => LRUCache.Remove key (lru_of lvl s)
    | None => lru_of lvl s
    end.
Proof.
  destruct (Remove_state s key) as [-> | ->];
    [|change (lru_of lvl (set_stats ?st ?x)) with (lru_of lvl x)];
    apply lru_of_removed_all.
Qed.

Lemma env_Remove s key :
  config_ (Remove s key).2 = config_ s ∧ clock_ (Remove s key).2 = clock_ s.
Proof.
  assert (H : config_ (removed_all s key) = config_ s
              ∧ clock_ (removed_all s key) = clock_ s).
  { unfold removed_all.
    destruct (env_remove_from L3_DISK key
      (remove_from L2_RAM key (remove_from L1_GPU key (false, s))))
      as (-> & -> & _).
    destruct (env_remove_from L2_RAM key (remove_from L1_GPU key (false, s)))
      as (-> & -> & _).
    by destruct (env_remove_from L1_GPU key (false, s)) as (-> & -> & _). }
  by destruct (Remove_state s key) as [-> | ->].
Qed.

Lemma cache_of_EvictLRU lvl lvl' s :
  cache_of lvl' (EvictLRU s lvl)
  = if decide (LRUCache.GetLRU (lru_of lvl s) = "") then cache_of lvl' s
    else delete (LRUCache.GetLRU (lru_of lvl s)) (cache_of lvl' s).
Proof.
  unfold EvictLRU. case_decide; [done|].
  change (cache_of lvl' (set_stats ?st ?x)) with (cache_of lvl' x).
  apply cache_of_Remove.
Qed.

Lemma lru_of_EvictLRU lvl lvl' s :
  lru_of lvl' (EvictLRU s lvl)
  = if decide (LRUCache.GetLRU (lru_of lvl s) = "") then lru_of lvl' s
    else match cache_of lvl' s !! LRUCache.GetLRU (lru_of lvl s) with
         | Some _ =>
             LRUCache.Remove (LRUCache.GetLRU (lru_of lvl s)) (lru_of lvl' s)
         | None => lru_of lvl' s
         end.
Proof.
  unfold EvictLRU. case_decide; [done|].
  change (lru_of lvl' (set_stats ?st ?x)) with (lru_of lvl' x).
  apply lru_of_Remove.
Qed.

Lemma env_EvictLRU s lvl :
  config_ (EvictLRU s lvl) = config_ s ∧ clock_ (EvictLRU s lvl) = clock_ s.
Proof.
  unfold EvictLRU. case_decide; [done|].
  apply (env_Remove s (LRUCache.GetLRU (lru_of lvl s))).
Qed.

Lemma NeedEviction_ext s s' lvl :
  cache_of lvl s = cache_of lvl s' → config_ s = config_ s' →
  NeedEviction s lvl = NeedEviction s' lvl.
Proof.
  intros Hc Hcfg. unfold NeedEviction.
  by rewrite (GetCurrentSize_ext s s' lvl Hc), Hcfg.
Qed.

(** ** The eviction loop of Put *)

Lemma evict_while_exit fuel lvl s s' :
  evict_while fuel lvl s = Some s' → NeedEviction s' lvl = false.
Proof.
  revert s. induction fuel as [|fuel IH]; intros s; cbn;
    destruct (NeedEviction s lvl) eqn:Hn; try done.
  - by intros [= <-].
  - apply IH.
  - by intros [= <-].
Qed.

Lemma evict_while_mono fuel fuel' lvl s s' :
  evict_while fuel lvl s = Some s' → (fuel ≤ fuel')%nat →
  evict_while fuel' lvl s = Some s'.
Proof.
  revert fuel' s. induction fuel as [|fuel IH]; intros fuel' s; cbn.
  - destruct (NeedEviction s lvl) eqn:Hn; [done|].
    intros [= <-] _. destruct fuel'; cbn; by rewrite Hn.
  - destruct (NeedEviction s lvl) eqn:Hn.
    + intros He Hle. destruct fuel' as [|fuel']; [lia|]. cbn. rewrite Hn.
      apply IH; [done|lia].
    + intros [= <-] _. destruct fuel'; cbn; by rewrite Hn.
Qed.

Lemma evict_while_no_need fuel lvl s :
  NeedEviction s lvl = false → evict_while fuel lvl s = Some s.
Proof. intros Hn. destruct fuel; cbn; by rewrite Hn. Qed.

Lemma stuck_EvictLRU lvl s : stuck lvl s → stuck lvl (EvictLRU s lvl).
Proof.
  intros [Hn Hk].
  assert (Hc : cache_of lvl (EvictLRU s lvl) = cache_of lvl s).
  { rewrite cache_of_EvictLRU. case_decide; [done|].
    destruct Hk as [?|Hk]; [done|]. by rewrite delete_id. }
  assert (Hl : lru_of lvl (EvictLRU s lvl) = lru_of lvl s).
  { rewrite lru_of_EvictLRU. case_decide; [done|].
    destruct Hk as [?|Hk]; [done|]. by rewrite Hk. }
  split.
  - rewrite <- Hn. apply NeedEviction_ext; [done|]. apply env_EvictLRU.
  - by rewrite Hl, Hc.
Qed.

Lemma stuck_diverges lvl fuel s : stuck lvl s → evict_while fuel lvl s = None.
Proof.
  revert s. induction fuel as [|fuel IH]; intros s Hs; cbn;
    rewrite (proj1 Hs); [done|].
  apply IH. by apply stuck_EvictLRU.
Qed.

Lemma GetLRU_elem (l : list string) : l ≠ [] → LRUCache.GetLRU l ∈ l.
Proof.
  intros Hl. unfold LRUCache.GetLRU.
  destruct (last l) as [k|] eqn:Hlast.
  - apply last_Some in Hlast as [l' ->]. set_solver.
  - by apply last_None in Hlast.
Qed.

Lemma RemoveNode_length_lt key (l : list string) :
  key ∈ l → (length (LRUCache.RemoveNode key l) < length l)%nat.
Proof.
  unfold LRUCache.RemoveNode. induction l as [|a l IH]; [set_solver|].
  intros Hin. rewrite filter_cons. case_decide as Ha; cbn.
  - apply elem_of_cons in Hin as [->|Hl]; [done|]. specialize (IH Hl). lia.
  - pose proof (length_filter (λ k, k ≠ key) l). lia.
Qed.

(** An iteration that is not stuck shortens the tier's LRU list. *)
Lemma progress_EvictLRU lvl s :
  NeedEviction s lvl = true → ¬ stuck lvl s →
  (length (lru_of lvl (EvictLRU s lvl)) < length (lru_of lvl s))%nat.
Proof.
  intros Hn Hns.
  destruct (decide (LRUCache.GetLRU (lru_of lvl s) = "")) as [He|He].
  { destruct Hns. split; auto. }
  destruct (cache_of lvl s !! LRUCache.GetLRU (lru_of lvl s)) as [e|] eqn:Hk.
  2:{ destruct Hns. split; auto. }
  rewrite lru_of_EvictLRU, decide_False, Hk by done.
  assert (Hne : lru_of lvl s ≠ []).
  { intros Hnil. rewrite Hnil in He. by apply He. }
  pose proof (GetLRU_elem _ Hne) as Hin.
  unfold LRUCache.Remove. rewrite decide_True by done.
  by apply RemoveNode_length_lt.
Qed.

Lemma stuck_dec lvl s : Decision (stuck lvl s).
Proof. unfold stuck. apply _. Qed.

(** The fuel [Put] gives its loop is enough: when the loop has not exited
    within [length (lru_of lvl s)] iterations it never exits. *)
Lemma evict_while_None_diverges lvl s :
  evict_while (length (lru_of lvl s)) lvl s = None →
  ∀ fuel, evict_while fuel lvl s = None.
Proof.
  remember (length (lru_of lvl s)) as n eqn:Hlen.
  revert s Hlen. induction (lt_wf n) as [n _ IH]. intros s Hlen Hnone fuel.
  destruct (NeedEviction s lvl) eqn:Hn.
  2:{ rewrite evict_while_no_need in Hnone by done. done. }
  destruct (stuck_dec lvl s) as [Hs|Hs]; [by apply stuck_diverges|].
  pose proof (progress_EvictLRU lvl s Hn Hs) as Hlt.
  destruct n as [|n]; [lia|]. cbn in Hnone. rewrite Hn in Hnone.
  destruct fuel as [|fuel]; cbn; rewrite Hn; [done|].
  apply (IH (length (lru_of lvl (EvictLRU s lvl)))); [lia|done|].
  destruct (evict_while (length (lru_of lvl (EvictLRU s lvl))) lvl
              (EvictLRU s lvl)) as [s'|] eqn:He; [|done].
  rewrite (evict_while_mono _ n _ _ _ He) in Hnone by lia. done.
Qed.

(** [Put] returns [None] only for a loop that never exits, and any bound
    under which [Put_fuel] returns gives the result of [Put]. *)
Lemma Put_None_diverges s key d lvl :
  Put s key d lvl = None → ∀ fuel, Put_fuel fuel s key d lvl = None.
Proof.
  unfold Put, Put_fuel. intros Hp fuel.
  destruct (evict_while (length _) _ s) eqn:He; [done|].
  by rewrite (evict_while_None_diverges _ _ He fuel).
Qed.

Lemma Put_fuel_Some s key d lvl fuel r :
  Put_fuel fuel s key d lvl = Some r → Put s key d lvl = Some r.
Proof.
  intros Hf. destruct (Put s key d lvl) as [r'|] eqn:Hp.
  - unfold Put, Put_fuel in *.
    destruct (evict_while fuel _ s) as [s1|] eqn:H1; [|done].
    destruct (evict_while (length _) _ s) as [s2|] eqn:H2; [|done].
    destruct (Nat.le_ge_cases fuel
                (length (lru_of (target_level s d lvl) s))) as [Hle|Hle].
    + rewrite (evict_while_mono _ _ _ _ _ H1 Hle) in H2. congruence.
    + rewrite (evict_while_mono _ _ _ _ _ H2 Hle) in H1. congruence.
  - by rewrite (Put_None_diverges _ _ _ _ Hp fuel) in Hf.
Qed.

Lemma Put_no_eviction s key d lvl :
  NeedEviction s (target_level s d lvl) = false →
  Put s key d lvl = Some (PutToLevel s key d (target_level s d lvl)).
Proof.
  intros Hn. unfold Put, Put_fuel. by rewrite evict_while_no_need.
Qed.

(** C10. A [Put] for a key that the in-memory tier it writes to already
    holds, while that tier is below 90% of its cap (the eviction loop does
    not run, so the key is still there when the entry is written),
    returns [true], replaces the map entry by the new one, leaves the
    entry count of every tier unchanged, and still increments the
    [entry_count] statistic by one and adds the new entry's size to
    [total_size] with nothing subtracted for the replaced entry.  Hence,
    when [entry_count] was at least the number of live entries before
    (and does not wrap), it exceeds the number of live entries
    afterwards. *)
Theorem Put_replace_overcounts s key d pref e :
  target_level s d pref ≠ L3_DISK →
  cache_of (target_level s d pref) s !! key = Some e →
  NeedEviction s (target_level s d pref) = false →
  ∃ s1,
    Put s key d pref = Some (true, s1)
    ∧ cache_of (target_level s d pref) s1 !! key
      = Some (CacheEntry.mk d (vsize d) (clock_ s) (clock_ s) 1 false
                (target_level s d pref) key)
    ∧ (∀ lvl', GetEntryCount s1 lvl' = GetEntryCount s lvl')
    ∧ CacheStats.entry_count (stats_ s1)
      = wrap64 (CacheStats.entry_count (stats_ s) + 1)
    ∧ CacheStats.total_size (stats_ s1)
      = wrap64 (CacheStats.total_size (stats_ s) + vsize d)
    ∧ (live_entries s ≤ CacheStats.entry_count (stats_ s) →
       CacheStats.entry_count (stats_ s) + 1 < 2 ^ 64 →
       live_entries s1 < CacheStats.entry_count (stats_ s1)).
Proof.
  intros Hlvl Hk Hn.
  pose proof (PutToLevel_replace_overcounts s key d _ e Hlvl Hk) as H.
  cbn zeta in H. destruct H as (Hok & He & Hc & Hec & Hts & Hover).
  exists (PutToLevel s key d (target_level s d pref)).2.
  split; [|done].
  rewrite (Put_no_eviction s key d pref Hn). f_equal.
  rewrite <- Hok. by destruct (PutToLevel s key d (target_level s d pref)).
Qed.

(** ** Bytes held by a tier *)

Lemma sizes_ok_nonneg s lvl : sizes_ok s → sizes_nonneg (cache_of lvl s).
Proof. intros Hok k e Hk. rewrite (Hok lvl k e Hk). unfold vsize. lia. Qed.

Lemma tier_bytes_empty : tier_bytes ∅ = 0.
Proof. apply map_fold_empty. Qed.

Lemma tier_bytes_insert_fresh (m : gmap string CacheEntry.t) k e :
  m !! k = None → tier_bytes (<[k := e]> m) = tier_bytes m + CacheEntry.size e.
Proof.
  intros Hk. unfold tier_bytes. rewrite map_fold_insert_L; [done| |done].
  intros. lia.
Qed.

Lemma tier_bytes_delete (m : gmap string CacheEntry.t) k e :
  m !! k = Some e → tier_bytes m = tier_bytes (delete k m) + CacheEntry.size e.
Proof.
  intros Hk. unfold tier_bytes.
  rewrite (map_fold_delete_L _ _ k e m); [done| |done]. intros. lia.
Qed.

Lemma sizes_nonneg_delete (m : gmap string CacheEntry.t) k :
  sizes_nonneg m → sizes_nonneg (delete k m).
Proof.
  intros Hm j e Hj. apply lookup_delete_Some in Hj as [_ Hj]. eauto.
Qed.

Lemma sizes_nonneg_subseteq (m1 m2 : gmap string CacheEntry.t) :
  m1 ⊆ m2 → sizes_nonneg m2 → sizes_nonneg m1.
Proof. intros Hsub Hm k e Hk. eapply Hm, lookup_weaken; eauto. Qed.

Lemma tier_bytes_nonneg (m : gmap string CacheEntry.t) :
  sizes_nonneg m → 0 ≤ tier_bytes m.
Proof.
  induction m as [|k e m Hk IH] using map_ind; intros Hm.
  - by rewrite tier_bytes_empty.
  - rewrite tier_bytes_insert_fresh by done.
    assert (0 ≤ CacheEntry.size e) by (apply (Hm k); apply lookup_insert_eq).
    assert (0 ≤ tier_bytes m); [|lia].
    apply IH. intros j e' Hj. apply (Hm j).
    rewrite lookup_insert_ne; [done|]. intros ->. congruence.
Qed.

Lemma tier_bytes_subseteq (m1 m2 : gmap string CacheEntry.t) :
  m1 ⊆ m2 → sizes_nonneg m2 → tier_bytes m1 ≤ tier_bytes m2.
Proof.
  revert m2. induction m1 as [|k e m1 Hk IH] using map_ind; intros m2 Hsub Hm.
  - rewrite tier_bytes_empty. by apply tier_bytes_nonneg.
  - assert (Hk2 : m2 !! k = Some e).
    { eapply lookup_weaken; [|done]. apply lookup_insert_eq. }
    rewrite tier_bytes_insert_fresh, (tier_bytes_delete m2 k e) by done.
    assert (tier_bytes m1 ≤ tier_bytes (delete k m2)); [|lia].
    apply IH; [|by apply sizes_nonneg_delete].
    apply map_subseteq_spec. intros j x Hj.
    assert (j ≠ k) by (intros ->; congruence).
    rewrite lookup_delete_ne by done.
    eapply lookup_weaken; [|done]. by rewrite lookup_insert_ne.
Qed.

Lemma tier_bytes_insert_le (m : gmap string CacheEntry.t) k e :
  sizes_nonneg m →
  tier_bytes (<[k := e]> m) ≤ tier_bytes m + CacheEntry.size e.
Proof.
  intros Hm. destruct (m !! k) as [e0|] eqn:Hk.
  - rewrite <- insert_delete_eq.
    rewrite tier_bytes_insert_fresh by apply lookup_delete_eq.
    rewrite (tier_bytes_delete m k e0) by done.
    pose proof (Hm k e0 Hk). lia.
  - rewrite tier_bytes_insert_fresh by done. lia.
Qed.

Lemma GetCurrentSize_wrap s lvl :
  GetCurrentSize s lvl = wrap64 (tier_bytes (cache_of lvl s)).
Proof.
  unfold GetCurrentSize, tier_bytes.
  induction (cache_of lvl s) as [|k e m Hk IH] using map_ind.
  - by rewrite !map_fold_empty.
  - rewrite !map_fold_insert_L; [|intros; lia|done| |done].
    + by rewrite IH, wrap64_add_l.
    + intros. rewrite !wrap64_add_l. f_equal. lia.
Qed.

Lemma GetCurrentSize_exact s lvl :
  sizes_nonneg (cache_of lvl s) → tier_bytes (cache_of lvl s) < 2 ^ 64 →
  GetCurrentSize s lvl = tier_bytes (cache_of lvl s).
Proof.
  intros Hm Hlt. rewrite GetCurrentSize_wrap. unfold wrap64.
  apply Z.mod_small. split; [by apply tier_bytes_nonneg|done].
Qed.

(** ** What the eviction loop keeps *)

Lemma cache_of_EvictLRU_subseteq lvl lvl' s :
  cache_of lvl' (EvictLRU s lvl) ⊆ cache_of lvl' s.
Proof.
  rewrite cache_of_EvictLRU. case_decide; [done|]. apply delete_subseteq.
Qed.

Lemma evict_while_subseteq fuel lvl lvl' s s' :
  evict_while fuel lvl s = Some s' → cache_of lvl' s' ⊆ cache_of lvl' s.
Proof.
  revert s. induction fuel as [|fuel IH]; intros s; cbn;
    destruct (NeedEviction s lvl); try done.
  - by intros [= <-].
  - intros He. etrans; [by apply IH|]. apply cache_of_EvictLRU_subseteq.
  - by intros [= <-].
Qed.

Lemma evict_while_env fuel lvl s s' :
  evict_while fuel lvl s = Some s' →
  config_ s' = config_ s ∧ clock_ s' = clock_ s.
Proof.
  revert s. induction fuel as [|fuel IH]; intros s; cbn;
    destruct (NeedEviction s lvl); try done.
  - by intros [= <-].
  - intros He. destruct (IH _ He) as [-> ->]. apply env_EvictLRU.
  - by intros [= <-].
Qed.

(** ** The tier Put chooses *)

Lemma target_level_fits s d pref :
  target_level s d pref ≠ L3_DISK →
  wrap64 (GetCurrentSize s (target_level s d pref) + vsize d)
  ≤ max_size_of (target_level s d pref) (config_ s).
Proof.
  unfold target_level.
  destruct pref; cbn [bool_decide decide_rel andb]; cbn.
  - destruct (Config.max_l1_size (config_ s)
              <? wrap64 (GetCurrentSize s L1_GPU + vsize d)) eqn:H1; cbn.
    + destruct (Config.max_l2_size (config_ s)
                <? wrap64 (GetCurrentSize s L2_RAM + vsize d)) eqn:H2;
        cbn; [done|]. intros _. by apply Z.ltb_ge.
    + intros _. by apply Z.ltb_ge.
  - destruct (Config.max_l2_size (config_ s)
              <? wrap64 (GetCurrentSize s L2_RAM + vsize d)) eqn:H2;
      cbn; [done|]. intros _. by apply Z.ltb_ge.
  - done.
Qed.

Lemma target_level_fast_fits s d :
  wrap64 (GetCurrentSize s L1_GPU + vsize d) ≤ Config.max_l1_size (config_ s) →
  target_level s d L1_GPU = L1_GPU.
Proof.
  intros H1. unfold target_level.
  by rewrite (proj2 (Z.ltb_ge _ _) H1).
Qed.

Lemma target_level_fast_demoted s d :
  Config.max_l1_size (config_ s) < wrap64 (GetCurrentSize s L1_GPU + vsize d) →
  wrap64 (GetCurrentSize s L2_RAM + vsize d) ≤ Config.max_l2_size (config_ s) →
  target_level s d L1_GPU = L2_RAM.
Proof.
  intros H1 H2. unfold target_level.
  by rewrite (proj2 (Z.ltb_lt _ _) H1), (proj2 (Z.ltb_ge _ _) H2).
Qed.

Lemma target_level_medium_fits s d :
  wrap64 (GetCurrentSize s L2_RAM + vsize d) ≤ Config.max_l2_size (config_ s) →
  target_level s d L2_RAM = L2_RAM.
Proof.
  intros H2. unfold target_level.
  by rewrite (proj2 (Z.ltb_ge _ _) H2).
Qed.

Lemma target_level_slow s d : target_level s d L3_DISK = L3_DISK.
Proof. done. Qed.

Lemma config_PutToLevel s key d lvl :
  config_ (PutToLevel s key d lvl).2 = config_ s.
Proof.
  destruct lvl; [done..|]. unfold PutToLevel, SaveToFile. cbn.
  by destruct (io_ s) as [|[| |n|n] io].
Qed.

(** C2. A [Put] that completes has first run its loop until the target
    tier is strictly below 90% of its cap, and has then written the entry.
    When the target is the Fast or the Medium tier the write succeeds and
    leaves that tier's total stored bytes at most equal to its cap (they
    can reach the cap itself).  The Slow tier is never compared with its
    cap before the write, so nothing bounds it afterwards.  Sizes are the
    lengths of the stored bytes and their sum is taken below 2^64. *)
Theorem Put_memory_tier_within_cap s key d pref r :
  Put s key d pref = Some r →
  let lvl := target_level s d pref in
  (∃ s1, evict_while (length (lru_of lvl s)) lvl s = Some s1
         ∧ 10 * GetCurrentSize s1 lvl < 9 * max_size_of lvl (config_ s)
         ∧ r = PutToLevel s1 key d lvl)
  ∧ (lvl ≠ L3_DISK →
     sizes_ok s →
     tier_bytes (cache_of lvl s) + vsize d < 2 ^ 64 →
     r.1 = true
     ∧ GetCurrentSize r.2 lvl ≤ max_size_of lvl (config_ r.2)).
Proof.
  intros Hput lvl. unfold Put, Put_fuel in Hput. fold lvl in Hput.
  destruct (evict_while (length (lru_of lvl s)) lvl s) as [s1|] eqn:He;
    [|done].
  injection Hput as <-.
  destruct (evict_while_env _ _ _ _ He) as [Hcfg _].
  split.
  { exists s1. split; [done|]. split; [|done].
    pose proof (evict_while_exit _ _ _ _ He) as Hn.
    unfold NeedEviction in Hn. apply Z.leb_gt in Hn. by rewrite <- Hcfg. }
  intros Hlvl Hok Hsum.
  pose proof (sizes_ok_nonneg s lvl Hok) as Hnn.
  pose proof (tier_bytes_nonneg _ Hnn) as H0.
  assert (Hd : 0 ≤ vsize d) by (unfold vsize; lia).
  pose proof (target_level_fits s d pref Hlvl) as Hfit. fold lvl in Hfit.
  rewrite GetCurrentSize_exact in Hfit by (done || lia).
  unfold wrap64 in Hfit. rewrite Z.mod_small in Hfit by lia.
  pose proof (evict_while_subseteq _ _ lvl _ _ He) as Hsub.
  pose proof (tier_bytes_subseteq _ _ Hsub Hnn) as Hle.
  pose proof (sizes_nonneg_subseteq _ _ Hsub Hnn) as Hnn1.
  rewrite PutToLevel_memory by done. cbn [fst snd]. split; [done|].
  rewrite new_entry_memory by done.
  set (e := CacheEntry.mk d (vsize d) (clock_ s1) (clock_ s1) 1 false lvl key).
  assert (Hcfg' : config_ (count_put e
            (set_tier lvl (<[key := e]> (cache_of lvl s1))
               (LRUCache.Access key (lru_of lvl s1)) s1)) = config_ s).
  { rewrite <- Hcfg. by destruct lvl. }
  rewrite Hcfg'.
  pose proof (tier_bytes_insert_le (cache_of lvl s1) key e Hnn1) as Hins.
  change (CacheEntry.size e) with (vsize d) in Hins.
  assert (Hnn2 : sizes_nonneg (<[key := e]> (cache_of lvl s1))).
  { intros j x Hj. apply lookup_insert_Some in Hj as [[_ <-]|[_ Hj]];
      [done|by eapply Hnn1]. }
  rewrite GetCurrentSize_exact;
    rewrite cache_of_count_put, cache_of_set_tier_eq; [lia|done|lia].
Qed.

(** ** Scenario B: five 300-byte entries, Fast tier of 1000 bytes *)

Ltac solve_not_elem :=
  repeat (apply not_elem_of_cons; split; [congruence|]);
  apply not_elem_of_nil.

Section ScenarioB.
Variable cfg : Config.t.
Hypothesis cfg_l1 : Config.max_l1_size cfg = 1000.
Hypothesis cfg_l2 : 600 ≤ Config.max_l2_size cfg.

Lemma snapshot_init files now io :
  snapshot cfg (FragmentCache cfg files now io) [] [].
Proof.
  unfold snapshot. cbn. rewrite !dom_empty_L, tier_bytes_empty.
  repeat split; lia.
Qed.

Lemma snapshot_size s ks1 ks2 lvl :
  snapshot cfg s ks1 ks2 →
  GetCurrentSize s lvl
  = match lvl with
    | L1_GPU => 300 * Z.of_nat (length ks1)
    | L2_RAM => 300 * Z.of_nat (length ks2)
    | L3_DISK => 0
    end.
Proof.
  intros (_ & _ & H1 & _ & H2 & H3 & _ & Hn1 & Hn2).
  rewrite GetCurrentSize_wrap. unfold wrap64.
  destruct lvl; cbn; rewrite ?H1, ?H2, ?H3, ?tier_bytes_empty;
    apply Z.mod_small; lia.
Qed.

Lemma not_elem_of_dom_list (m : gmap string CacheEntry.t) ks k :
  dom m = list_to_set ks → k ∉ ks → m !! k = None.
Proof.
  intros Hd Hk. apply not_elem_of_dom. rewrite Hd.
  by rewrite elem_of_list_to_set.
Qed.

(** A [Put] that fits the Fast tier. *)
Lemma snapshot_put_fast s ks1 ks2 k d :
  snapshot cfg s ks1 ks2 → vsize d = 300 → k ∉ ks1 → (length ks1 < 3)%nat →
  ∃ s', Put s k d L1_GPU = Some (true, s') ∧ snapshot cfg s' (k :: ks1) ks2.
Proof.
  intros Hs Hd Hk Hlen.
  pose proof (snapshot_size s ks1 ks2 L1_GPU Hs) as Hsz1.
  destruct Hs as (Hcfg & Hd1 & Hb1 & Hd2 & Hb2 & H3 & Hev & Hn1 & Hn2).
  assert (Ht : target_level s d L1_GPU = L1_GPU).
  { apply target_level_fast_fits. rewrite Hsz1, Hd, Hcfg, cfg_l1.
    unfold wrap64. rewrite Z.mod_small by lia. lia. }
  rewrite Put_no_eviction; rewrite Ht.
  2:{ unfold NeedEviction. rewrite Hsz1, Hcfg. cbn. rewrite cfg_l1.
      apply Z.leb_gt. lia. }
  eexists. split; [reflexivity|]. unfold snapshot.
  cbn -[vsize tier_bytes Z.mul Z.of_nat].
  pose proof (not_elem_of_dom_list _ _ _ Hd1 Hk) as Hfresh.
  rewrite dom_insert_L, tier_bytes_insert_fresh by done.
  rewrite new_entry_memory by done. cbn [CacheEntry.size].
  rewrite Hd1, Hb1, Hd. repeat split; try done; cbn [length]; lia.
Qed.

(** A [Put] demoted to the Medium tier because the Fast tier is full. *)
Lemma snapshot_put_demoted s ks1 ks2 k d :
  snapshot cfg s ks1 ks2 → vsize d = 300 → k ∉ ks2 →
  length ks1 = 3%nat → (length ks2 < 2)%nat →
  ∃ s', Put s k d L1_GPU = Some (true, s') ∧ snapshot cfg s' ks1 (k :: ks2).
Proof.
  intros Hs Hd Hk Hlen1 Hlen2.
  pose proof (snapshot_size s ks1 ks2 L1_GPU Hs) as Hsz1.
  pose proof (snapshot_size s ks1 ks2 L2_RAM Hs) as Hsz2.
  destruct Hs as (Hcfg & Hd1 & Hb1 & Hd2 & Hb2 & H3 & Hev & Hn1 & Hn2).
  assert (Ht : target_level s d L1_GPU = L2_RAM).
  { apply target_level_fast_demoted;
      rewrite ?Hsz1, ?Hsz2, Hd, Hcfg, ?cfg_l1; unfold wrap64;
      rewrite Z.mod_small by lia; lia. }
  rewrite Put_no_eviction; rewrite Ht.
  2:{ unfold NeedEviction. rewrite Hsz2, Hcfg. cbn.
      apply Z.leb_gt. lia. }
  eexists. split; [reflexivity|]. unfold snapshot.
  cbn -[vsize tier_bytes Z.mul Z.of_nat].
  pose proof (not_elem_of_dom_list _ _ _ Hd2 Hk) as Hfresh.
  rewrite dom_insert_L, tier_bytes_insert_fresh by done.
  rewrite new_entry_memory by done. cbn [CacheEntry.size].
  rewrite Hd2, Hb2, Hd. repeat split; try done; cbn [length]; lia.
Qed.

(** C3. From an empty cache whose Fast tier holds 1000 bytes (and whose
    Medium tier holds at least 600), five [Put]s of distinct keys with
    300-byte payloads and preferred tier Fast all succeed; the first
    three entries stay in the Fast tier, the fourth and the fifth are
    demoted to the Medium tier because 900 + 300 exceeds 1000, the Slow
    tier stays empty, and no eviction is recorded. *)
Theorem scenario_B_demotes_without_eviction
    k1 k2 k3 k4 k5 d1 d2 d3 d4 d5 files now io :
  NoDup [k1; k2; k3; k4; k5] →
  vsize d1 = 300 → vsize d2 = 300 → vsize d3 = 300 →
  vsize d4 = 300 → vsize d5 = 300 →
  ∃ s5,
    put_all (FragmentCache cfg files now io)
      [(k1, d1); (k2, d2); (k3, d3); (k4, d4); (k5, d5)] L1_GPU
    = Some ([true; true; true; true; true], s5)
    ∧ dom (l1_cache_ s5) = list_to_set [k1; k2; k3]
    ∧ GetEntryCount s5 L1_GPU = 3
    ∧ dom (l2_cache_ s5) = list_to_set [k4; k5]
    ∧ GetEntryCount s5 L2_RAM = 2
    ∧ GetEntryCount s5 L3_DISK = 0
    ∧ CacheStats.evictions (GetStats s5) = 0.
Proof.
  intros Hnd H1 H2 H3 H4 H5.
  assert (Hnd123 : NoDup [k1; k2; k3]).
  { apply (NoDup_app [k1; k2; k3] [k4; k5]) in Hnd. tauto. }
  assert (Hnd45 : NoDup [k4; k5]).
  { apply (NoDup_app [k1; k2; k3] [k4; k5]) in Hnd. tauto. }
  apply NoDup_cons in Hnd as [Hn1 Hnd]. apply NoDup_cons in Hnd as [Hn2 Hnd].
  apply NoDup_cons in Hnd as [Hn3 Hnd]. apply NoDup_cons in Hnd as [Hn4 _].
  apply not_elem_of_cons in Hn1 as [N12 Hn1].
  apply not_elem_of_cons in Hn1 as [N13 _].
  apply not_elem_of_cons in Hn2 as [N23 _].
  apply not_elem_of_cons in Hn4 as [N45 _].
  assert (Hk1 : k1 ∉ @nil string) by apply not_elem_of_nil.
  assert (Hk12 : k2 ∉ [k1]) by solve_not_elem.
  assert (Hk123 : k3 ∉ [k2; k1]) by solve_not_elem.
  assert (Hk45 : k5 ∉ [k4]) by solve_not_elem.
  destruct (snapshot_put_fast _ [] [] k1 d1 (snapshot_init files now io) H1 Hk1)
    as (s1 & Hp1 & Hs1); [cbn; lia|].
  destruct (snapshot_put_fast _ _ _ k2 d2 Hs1 H2 Hk12)
    as (s2 & Hp2 & Hs2); [cbn; lia|].
  destruct (snapshot_put_fast _ _ _ k3 d3 Hs2 H3 Hk123)
    as (s3 & Hp3 & Hs3); [cbn; lia|].
  destruct (snapshot_put_demoted _ _ _ k4 d4 Hs3 H4 (not_elem_of_nil k4))
    as (s4 & Hp4 & Hs4); [done|cbn; lia|].
  destruct (snapshot_put_demoted _ _ _ k5 d5 Hs4 H5 Hk45)
    as (s5 & Hp5 & Hs5); [done|cbn; lia|].
  exists s5. cbn. rewrite Hp1, Hp2, Hp3, Hp4, Hp5. split; [done|].
  destruct Hs5 as (_ & Hd1 & _ & Hd2 & _ & Hc3 & Hev & _).
  assert (Hdom1 : dom (l1_cache_ s5) = list_to_set [k1; k2; k3]).
  { rewrite Hd1. apply set_eq. intros x.
    rewrite !elem_of_list_to_set, !elem_of_cons. tauto. }
  assert (Hdom2 : dom (l2_cache_ s5) = list_to_set [k4; k5]).
  { rewrite Hd2. apply set_eq. intros x.
    rewrite !elem_of_list_to_set, !elem_of_cons. tauto. }
  unfold GetEntryCount, GetStats. cbn [cache_of].
  rewrite <- !size_dom, Hdom1, Hdom2, Hc3, dom_empty_L, size_empty.
  rewrite !size_list_to_set by done. done.
Qed.
End ScenarioB.

(** ** Put followed by Get *)

Lemma LoadFromFile_ok s key buf d :
  next_io_ok s → files_ s !! GetFilePath s key = Some d →
  LoadFromFile s key buf = (true, d, set_disk (files_ s) (tail (io_ s)) s).
Proof.
  unfold next_io_ok, LoadFromFile. intros Hio Hf.
  destruct (io_ s) as [|[| |n|n] io]; try done; by rewrite Hf.
Qed.

Lemma GetFromLevel_disk_ok s key buf e d :
  l3_cache_ s !! key = Some e → next_io_ok s →
  files_ s !! GetFilePath s key = Some d →
  (GetFromLevel s key buf L3_DISK).1
  = (true, if CacheEntry.compressed e then Decompress d else d).
Proof.
  intros He Hio Hf. unfold GetFromLevel.
  by rewrite He, (LoadFromFile_ok s key buf d Hio Hf).
Qed.

Lemma PutToLevel_disk_ok s key d s1 :
  write_reaches_disk s →
  PutToLevel s key d L3_DISK = (true, s1) →
  l3_cache_ s1 !! key = Some (new_entry s key d L3_DISK)
  ∧ files_ s1 !! GetFilePath s1 key
    = Some (CacheEntry.data (new_entry s key d L3_DISK))
  ∧ l1_cache_ s1 = l1_cache_ s ∧ l2_cache_ s1 = l2_cache_ s
  ∧ config_ s1 = config_ s.
Proof.
  unfold write_reaches_disk, PutToLevel, SaveToFile. cbn.
  destruct (io_ s) as [|[| |n|n] io]; cbn; intros Hw; try done;
    intros [= <-]; cbn;
    unfold GetFilePath; cbn; by rewrite !lookup_insert_eq.
Qed.

Lemma PutToLevel_disk_stored s key d s1 :
  PutToLevel s key d L3_DISK = (true, s1) →
  l3_cache_ s1 !! key = Some (new_entry s key d L3_DISK)
  ∧ l1_cache_ s1 = l1_cache_ s ∧ l2_cache_ s1 = l2_cache_ s
  ∧ config_ s1 = config_ s.
Proof.
  unfold PutToLevel, SaveToFile. cbn.
  destruct (io_ s) as [|[| |n|n] io]; cbn; intros [= <-]; cbn;
    by rewrite !lookup_insert_eq.
Qed.

(** A write that is refused at the flush: [PutToLevel] returns [true],
    the entry is in the map and counted, and the file holds only the
    bytes that got through. *)
Lemma PutToLevel_disk_flush_fails s key d n io :
  io_ s = io_flush_fails n :: io →
  (PutToLevel s key d L3_DISK).1 = true
  ∧ l3_cache_ (PutToLevel s key d L3_DISK).2 !! key
    = Some (new_entry s key d L3_DISK)
  ∧ files_ (PutToLevel s key d L3_DISK).2
      !! GetFilePath (PutToLevel s key d L3_DISK).2 key
    = Some (take n (CacheEntry.data (new_entry s key d L3_DISK)))
  ∧ l1_cache_ (PutToLevel s key d L3_DISK).2 = l1_cache_ s
  ∧ l2_cache_ (PutToLevel s key d L3_DISK).2 = l2_cache_ s
  ∧ config_ (PutToLevel s key d L3_DISK).2 = config_ s
  ∧ io_ (PutToLevel s key d L3_DISK).2 = io.
Proof.
  intros Hio. unfold PutToLevel, SaveToFile. cbn. rewrite Hio. cbn.
  unfold GetFilePath; cbn. by rewrite !lookup_insert_eq.
Qed.

Lemma io_Remove s key : io_ (Remove s key).2 = io_ s.
Proof.
  assert (H : io_ (removed_all s key) = io_ s).
  { unfold removed_all.
    destruct (env_remove_from L3_DISK key
      (remove_from L2_RAM key (remove_from L1_GPU key (false, s))))
      as (_ & _ & ->).
    destruct (env_remove_from L2_RAM key (remove_from L1_GPU key (false, s)))
      as (_ & _ & ->).
    by destruct (env_remove_from L1_GPU key (false, s)) as (_ & _ & ->). }
  by destruct (Remove_state s key) as [-> | ->].
Qed.

Lemma io_evict_while fuel lvl : ∀ s s',
  evict_while fuel lvl s = Some s' → io_ s' = io_ s.
Proof.
  assert (Hev : ∀ s, io_ (EvictLRU s lvl) = io_ s).
  { intros s. unfold EvictLRU. case_decide; [done|].
    apply (io_Remove s). }
  induction fuel as [|fuel IH]; intros s s'; cbn;
    destruct (NeedEviction s lvl); try done.
  - by intros [= <-].
  - intros He. rewrite (IH _ _ He). apply Hev.
  - by intros [= <-].
Qed.

Lemma Get_fast_hit s key buf e :
  l1_cache_ s !! key = Some e → (Get s key buf).1 = (true, CacheEntry.data e).
Proof.
  intros He. unfold Get.
  by rewrite (GetFromLevel_memory_hit s key buf L1_GPU e).
Qed.

Lemma Get_medium_hit s key buf e :
  l1_cache_ s !! key = None → l2_cache_ s !! key = Some e →
  (Get s key buf).1 = (true, CacheEntry.data e).
Proof.
  intros H1 He. unfold Get.
  rewrite (GetFromLevel_memory_miss s key buf L1_GPU) by done.
  by rewrite (GetFromLevel_memory_hit s key buf L2_RAM e).
Qed.

Lemma Get_slow_hit s key buf e d :
  l1_cache_ s !! key = None → l2_cache_ s !! key = None →
  l3_cache_ s !! key = Some e → next_io_ok s →
  files_ s !! GetFilePath s key = Some d →
  (Get s key buf).1
  = (true, if CacheEntry.compressed e then Decompress d else d).
Proof.
  intros H1 H2 He Hio Hf. rewrite Get_disk_path by done.
  pose proof (GetFromLevel_disk_ok s key buf e d He Hio Hf) as Hg.
  destruct (GetFromLevel s key buf L3_DISK) as [[f3 d3] s3].
  cbn in Hg. by injection Hg as -> ->.
Qed.

Section Zlib.
  (** The contract of zlib this development relies on: [uncompress]
      inverts [compress2] when the destination is large enough, and
      fails ([Z_BUF_ERROR]) when it is too small for the original. *)
Hypothesis uncompress_compress2 : ∀ d lvl c cap,
    compress2 d lvl = Some c → vsize d ≤ cap → uncompress cap c = Some d.
Hypothesis uncompress_buf_error : ∀ d lvl c cap,
    compress2 d lvl = Some c → cap < vsize d → uncompress cap c = None.

(** C1. When [Put (K, B)] returns [true], no tier faster than the one
    the entry landed in held a copy of [K], and - for an entry that
    landed in the Slow tier - the write of the file was not refused at
    the flush that follows the test of the stream (a refusal [Put] does
    not see), the file can be read back and, if the entry was stored
    compressed, zlib did compress [B] and [B] is at most 10 MiB long,
    then the [Get (K)] that follows immediately returns [true] and
    exactly the bytes [B]. *)
Theorem Put_then_Get_roundtrip s key d pref s1 buf :
  Put s key d pref = Some (true, s1) →
  (∀ lvl', level_index lvl' < level_index (target_level s d pref) →
           cache_of lvl' s !! key = None) →
  (target_level s d pref = L3_DISK →
     write_reaches_disk s
     ∧ next_io_ok s1
     ∧ (stores_compressed s d L3_DISK = true →
          is_Some (compress2 d (Config.compression_level (config_ s)))
          ∧ vsize d ≤ decompress_capacity)) →
  (Get s1 key buf).1 = (true, d).
Proof.
  intros Hput Hfaster Hslow. unfold Put, Put_fuel in Hput.
  set (lvl := target_level s d pref) in *.
  destruct (evict_while (length (lru_of lvl s)) lvl s) as [s'|] eqn:He;
    [|done].
  injection Hput as Hput.
  assert (Hfaster' : ∀ lvl', level_index lvl' < level_index lvl →
            cache_of lvl' s' !! key = None).
  { intros lvl' Hlt. eapply lookup_weaken_None; [by apply Hfaster|].
    by eapply evict_while_subseteq. }
  destruct (evict_while_env _ _ _ _ He) as [Hcfg _].
  destruct lvl eqn:Hlvl.
  - rewrite PutToLevel_memory in Hput by done. injection Hput as <-.
    erewrite Get_fast_hit; [|cbn; apply lookup_insert_eq].
    by rewrite new_entry_memory.
  - rewrite PutToLevel_memory in Hput by done. injection Hput as <-.
    erewrite Get_medium_hit;
      [|cbn; by apply (Hfaster' L1_GPU)|cbn; apply lookup_insert_eq].
    by rewrite new_entry_memory.
  - destruct (Hslow eq_refl) as (Hw & Hio & Hc).
    assert (Hw' : write_reaches_disk s').
    { unfold write_reaches_disk. by rewrite (io_evict_while _ _ _ _ He). }
    destruct (PutToLevel_disk_ok _ _ _ _ Hw' Hput)
      as (H3 & Hf & H1 & H2 & Hcfg1).
    erewrite Get_slow_hit; [|rewrite H1; by apply (Hfaster' L1_GPU)
                            |rewrite H2; by apply (Hfaster' L2_RAM)
                            |exact H3|exact Hio|exact Hf].
    f_equal. unfold new_entry.
    assert (Hsc : stores_compressed s' d L3_DISK
                  = stores_compressed s d L3_DISK).
    { unfold stores_compressed. by rewrite Hcfg. }
    rewrite Hsc. cbn [CacheEntry.compressed CacheEntry.data].
    destruct (stores_compressed s d L3_DISK); [|done].
    destruct (Hc eq_refl) as [[c Hcomp] Hlen].
    unfold Compress, Decompress. rewrite Hcfg, Hcomp.
    by rewrite (uncompress_compress2 d _ c _ Hcomp Hlen).
Qed.

(** C8. [Decompress] gives zlib a destination of exactly 10 MiB.  For a
    key found only in the Slow tier whose entry is flagged compressed
    and whose file holds the compressed form [c] of a payload [d]
    longer than 10 MiB, [Get] returns [true] together with [c] itself:
    [uncompress] fails for lack of room and [Decompress] falls back to
    its input. *)
Theorem Get_oversized_returns_compressed s key buf e d lvl c :
  l1_cache_ s !! key = None →
  l2_cache_ s !! key = None →
  l3_cache_ s !! key = Some e →
  CacheEntry.compressed e = true →
  compress2 d lvl = Some c →
  files_ s !! GetFilePath s key = Some c →
  next_io_ok s →
  10 * 1024 * 1024 < vsize d →
  decompress_capacity = 10 * 1024 * 1024
  ∧ uncompress decompress_capacity c = None
  ∧ (Get s key buf).1 = (true, c).
Proof.
  intros H1 H2 He Hflag Hc Hf Hio Hlen.
  assert (Hu : uncompress decompress_capacity c = None)
    by (by apply (uncompress_buf_error d lvl)).
  split; [done|]. split; [done|].
  rewrite (Get_slow_hit s key buf e c) by done.
  rewrite Hflag. unfold Decompress. by rewrite Hu.
Qed.
End Zlib.

(** ** The expiry sweep *)

Lemma elem_of_expired_in lvl s k :
  k ∈ expired_in lvl s ↔ expired_at lvl s k = true.
Proof.
  unfold expired_in, expired_at. rewrite list_elem_of_fmap. split.
  - intros ([k' e] & -> & Hin). apply elem_of_map_to_list in Hin.
    apply map_lookup_filter_Some in Hin as [Hk He]. cbn in *. by rewrite Hk.
  - destruct (cache_of lvl s !! k) as [e|] eqn:Hk; [|done]. intros He.
    exists (k, e). split; [done|]. apply elem_of_map_to_list.
    by apply map_lookup_filter_Some.
Qed.

Lemma elem_of_expired_keys s k :
  k ∈ expired_in L2_RAM s ++ expired_in L3_DISK s ↔ sweep_collects s k = true.
Proof.
  rewrite elem_of_app, !elem_of_expired_in. unfold sweep_collects.
  rewrite orb_true_iff. done.
Qed.

Lemma cache_of_remove_keys lvl ks : ∀ s k,
  cache_of lvl (remove_keys s ks) !! k
  = if decide (k ∈ ks) then None else cache_of lvl s !! k.
Proof.
  induction ks as [|a ks IH]; intros s k; cbn.
  { rewrite decide_False; [done|apply not_elem_of_nil]. }
  fold (remove_keys (Remove s a).2 ks). rewrite IH, cache_of_Remove.
  destruct (decide (k ∈ ks)) as [Hin|Hnin].
  - rewrite decide_True; [done|by right].
  - destruct (decide (k = a)) as [->|Hne].
    + rewrite decide_True; [|by left]. apply lookup_delete_eq.
    + rewrite decide_False; [by apply lookup_delete_ne|].
      rewrite elem_of_cons. tauto.
Qed.

Lemma elem_of_LRUCache_Remove (l : list string) key k :
  k ∈ LRUCache.Remove key l ↔ k ∈ l ∧ k ≠ key.
Proof.
  unfold LRUCache.Remove, LRUCache.RemoveNode. case_decide as Hin.
  - by rewrite list_elem_of_filter, (comm and).
  - split; [|tauto]. intros Hk. split; [done|]. by intros ->.
Qed.

Lemma lru_of_remove_keys lvl ks : ∀ s k,
  k ∈ lru_of lvl (remove_keys s ks)
  ↔ k ∈ lru_of lvl s ∧ ¬ (k ∈ ks ∧ is_Some (cache_of lvl s !! k)).
Proof.
  induction ks as [|a ks IH]; intros s k; cbn.
  { rewrite elem_of_nil. tauto. }
  fold (remove_keys (Remove s a).2 ks).
  rewrite IH, cache_of_Remove, lru_of_Remove, elem_of_cons.
  destruct (decide (k = a)) as [->|Hne].
  - rewrite lookup_delete_eq.
    destruct (cache_of lvl s !! a) as [e|] eqn:Ha.
    + rewrite elem_of_LRUCache_Remove. split; [tauto|].
      intros [_ Hn]. destruct Hn. split; [by left|by eexists].
    + rewrite <- !not_eq_None_Some. tauto.
  - rewrite lookup_delete_ne by done.
    destruct (cache_of lvl s !! a) as [e|] eqn:Ha;
      rewrite ?elem_of_LRUCache_Remove; tauto.
Qed.

(** C6. One expiry cycle collects the keys that have, in the Medium or in
    the Slow tier, an entry whose age in whole seconds exceeds [max_age],
    and calls [Remove] for each of them.  [Remove] works on all three
    tiers, so every entry stored under a collected key is gone afterwards
    from the map and the LRU index of every tier, the Fast tier included,
    whatever the age of that entry; entries under other keys stay, in
    every tier.  The Fast tier is not scanned, it is not exempt. *)
Theorem CleanupExpired_removes_collected_keys s lvl k :
  cache_of lvl (CleanupExpired s) !! k
  = (if sweep_collects s k then None else cache_of lvl s !! k)
  ∧ (k ∈ lru_of lvl (CleanupExpired s)
     ↔ k ∈ lru_of lvl s
       ∧ ¬ (sweep_collects s k = true ∧ is_Some (cache_of lvl s !! k))).
Proof.
  unfold CleanupExpired.
  fold (remove_keys s (expired_in L2_RAM s ++ expired_in L3_DISK s)).
  split.
  - rewrite cache_of_remove_keys.
    destruct (sweep_collects s k) eqn:Hc.
    + rewrite decide_True; [done|]. by apply elem_of_expired_keys.
    + rewrite decide_False; [done|]. rewrite elem_of_expired_keys, Hc. done.
  - by rewrite lru_of_remove_keys, elem_of_expired_keys.
Qed.

(** ** The invariant of the reachable states *)

Lemma elem_of_LRUCache_Access (l : list string) key k :
  k ∈ LRUCache.Access key l ↔ k = key ∨ k ∈ l.
Proof.
  unfold LRUCache.Access, LRUCache.RemoveNode.
  case_decide as Hin; rewrite elem_of_cons; [|done].
  rewrite list_elem_of_filter. destruct (decide (k = key)) as [->|]; tauto.
Qed.

Lemma NoDup_LRUCache_Access (l : list string) key :
  NoDup l → NoDup (LRUCache.Access key l).
Proof.
  intros Hnd. unfold LRUCache.Access, LRUCache.RemoveNode.
  case_decide as Hin; apply NoDup_cons.
  - split; [|by apply NoDup_filter]. rewrite list_elem_of_filter. tauto.
  - done.
Qed.

Lemma NoDup_LRUCache_Remove (l : list string) key :
  NoDup l → NoDup (LRUCache.Remove key l).
Proof.
  intros Hnd. unfold LRUCache.Remove, LRUCache.RemoveNode.
  case_decide; [by apply NoDup_filter|done].
Qed.

Lemma coherent_tier_insert_access m l key e :
  coherent_tier m l → coherent_tier (<[key := e]> m) (LRUCache.Access key l).
Proof.
  intros [Hnd Hk]. split; [by apply NoDup_LRUCache_Access|].
  intros k. rewrite elem_of_LRUCache_Access, Hk.
  destruct (decide (k = key)) as [->|Hne].
  - rewrite lookup_insert_eq. split; [by eexists|by left].
  - rewrite lookup_insert_ne by done. split; [by intros [?|?]|by right].
Qed.

Lemma coherent_tier_delete_remove m l key :
  coherent_tier m l → coherent_tier (delete key m) (LRUCache.Remove key l).
Proof.
  intros [Hnd Hk]. split; [by apply NoDup_LRUCache_Remove|].
  intros k. rewrite elem_of_LRUCache_Remove, Hk.
  destruct (decide (k = key)) as [->|Hne].
  - rewrite lookup_delete_eq. split; [tauto|by intros [? ?]].
  - rewrite lookup_delete_ne by done. tauto.
Qed.

Lemma coherent_tier_touch m l key e e' :
  m !! key = Some e → coherent_tier m l → coherent_tier (<[key := e']> m) l.
Proof.
  intros He [Hnd Hk]. split; [done|]. intros k. rewrite Hk.
  destruct (decide (k = key)) as [->|Hne].
  - rewrite lookup_insert_eq, He. split; by eexists.
  - by rewrite lookup_insert_ne.
Qed.

Lemma coherent_tier_access m l key :
  is_Some (m !! key) → coherent_tier m l →
  coherent_tier m (LRUCache.Access key l).
Proof.
  intros [e He] Hc. rewrite <- (insert_id m key e He).
  by apply coherent_tier_insert_access.
Qed.

Lemma coherent_FragmentCache config files now io :
  coherent (FragmentCache config files now io).
Proof.
  split.
  - intros lvl. split; [destruct lvl; apply NoDup_nil_2|].
    intros k. destruct lvl; cbn; rewrite lookup_empty, elem_of_nil;
      split; [done|by intros [? ?]|done|by intros [? ?]|done|by intros [? ?]].
  - intros lvl k e. destruct lvl; cbn; by rewrite lookup_empty.
Qed.

Lemma coherent_Remove s key : coherent s → coherent (Remove s key).2.
Proof.
  intros [Hc Hs]. split.
  - intros lvl. rewrite cache_of_Remove, lru_of_Remove.
    destruct (cache_of lvl s !! key) as [e|] eqn:Hk.
    + apply coherent_tier_delete_remove, Hc.
    + rewrite delete_id by done. apply Hc.
  - intros lvl k e. rewrite cache_of_Remove.
    intros [_ Hk]%lookup_delete_Some. by eapply Hs.
Qed.

Lemma coherent_EvictLRU s lvl : coherent s → coherent (EvictLRU s lvl).
Proof.
  intros Hc. unfold EvictLRU. case_decide; [done|].
  by apply (coherent_Remove s (LRUCache.GetLRU (lru_of lvl s))).
Qed.

Lemma coherent_evict_while fuel lvl s s' :
  evict_while fuel lvl s = Some s' → coherent s → coherent s'.
Proof.
  revert s. induction fuel as [|fuel IH]; intros s; cbn;
    destruct (NeedEviction s lvl); try done.
  - by intros [= <-].
  - intros He Hc. eapply IH; [done|]. by apply coherent_EvictLRU.
  - by intros [= <-].
Qed.

(** The tiers after [PutToLevel]: the insertion when it returns [true],
    the insertion undone by the rollback when it returns [false]. *)
Lemma PutToLevel_tiers s key d lvl :
  (∀ lvl', cache_of lvl' (PutToLevel s key d lvl).2
           = if decide (lvl' = lvl)
             then if (PutToLevel s key d lvl).1
                  then <[key := new_entry s key d lvl]> (cache_of lvl s)
                  else delete key
                         (<[key := new_entry s key d lvl]> (cache_of lvl s))
             else cache_of lvl' s)
  ∧ (∀ lvl', lru_of lvl' (PutToLevel s key d lvl).2
             = if decide (lvl' = lvl)
               then if (PutToLevel s key d lvl).1
                    then LRUCache.Access key (lru_of lvl s)
                    else LRUCache.Remove key
                           (LRUCache.Access key (lru_of lvl s))
               else lru_of lvl' s).
Proof.
  destruct lvl.
  - split; intros []; done.
  - split; intros []; done.
  - unfold PutToLevel, SaveToFile. cbn.
    destruct (io_ s) as [|[| |n|n] io]; cbn; split; intros []; done.
Qed.

Lemma new_entry_size s key d lvl :
  CacheEntry.size (new_entry s key d lvl)
  = vsize (CacheEntry.data (new_entry s key d lvl)).
Proof. done. Qed.

Lemma coherent_PutToLevel s key d lvl :
  coherent s → coherent (PutToLevel s key d lvl).2.
Proof.
  intros [Hc Hs]. destruct (PutToLevel_tiers s key d lvl) as [Hm Hl]. split.
  - intros lvl'. rewrite Hm, Hl. case_decide as Heq; [subst lvl'|apply Hc].
    destruct (PutToLevel s key d lvl).1.
    + apply coherent_tier_insert_access, Hc.
    + apply coherent_tier_delete_remove, coherent_tier_insert_access, Hc.
  - intros lvl' k e. rewrite Hm. case_decide as Heq; [subst lvl'|apply Hs].
    destruct (PutToLevel s key d lvl).1.
    + intros [[_ <-]|[_ Hk]]%lookup_insert_Some;
        [apply new_entry_size|by eapply Hs].
    + intros [_ Hk]%lookup_delete_Some.
      apply lookup_insert_Some in Hk as [[_ <-]|[_ Hk]];
        [apply new_entry_size|by eapply Hs].
Qed.

Lemma coherent_Put s key d lvl r :
  Put s key d lvl = Some r → coherent s → coherent r.2.
Proof.
  unfold Put, Put_fuel.
  destruct (evict_while _ _ s) as [s'|] eqn:He; [|done].
  intros [= <-] Hc. apply coherent_PutToLevel.
  by eapply coherent_evict_while.
Qed.

(** The tiers after [GetFromLevel]: a hit refreshes the entry it found. *)
Lemma GetFromLevel_tiers s key buf lvl :
  (∀ lvl', lru_of lvl' (GetFromLevel s key buf lvl).2 = lru_of lvl' s)
  ∧ ((GetFromLevel s key buf lvl).1.1 = false
     ∧ (∀ lvl', cache_of lvl' (GetFromLevel s key buf lvl).2 = cache_of lvl' s)
     ∨ (GetFromLevel s key buf lvl).1.1 = true
       ∧ ∃ e now, cache_of lvl s !! key = Some e
           ∧ ∀ lvl', cache_of lvl' (GetFromLevel s key buf lvl).2
                     = if decide (lvl' = lvl)
                       then <[key := CacheEntry.touch now e]> (cache_of lvl s)
                       else cache_of lvl' s).
Proof.
  destruct lvl; cbn.
  - destruct (l1_cache_ s !! key) as [e|] eqn:Hk; cbn.
    + split; [by intros []|]. right. split; [done|].
      exists e, (clock_ s). split; [done|]. by intros [].
    + split; [done|]. by left.
  - destruct (l2_cache_ s !! key) as [e|] eqn:Hk; cbn.
    + split; [by intros []|]. right. split; [done|].
      exists e, (clock_ s). split; [done|]. by intros [].
    + split; [done|]. by left.
  - destruct (l3_cache_ s !! key) as [e|] eqn:Hk; cbn; [|split; [done|by left]].
    unfold LoadFromFile.
    destruct (io_ s) as [|[| |n|n] io];
      try destruct (files_ s !! GetFilePath s key); cbn;
      (split; [by intros []|]);
      try (left; split; [done|by intros []]);
      right; (split; [done|]); exists e, (clock_ s); (split; [done|]);
      by intros [].
Qed.

Lemma entry_size_touch now e :
  CacheEntry.size (CacheEntry.touch now e) = CacheEntry.size e
  ∧ CacheEntry.data (CacheEntry.touch now e) = CacheEntry.data e.
Proof. done. Qed.

Lemma coherent_GetFromLevel s key buf lvl :
  coherent s →
  coherent (GetFromLevel s key buf lvl).2
  ∧ ((GetFromLevel s key buf lvl).1.1 = true →
     is_Some (cache_of lvl (GetFromLevel s key buf lvl).2 !! key)).
Proof.
  intros [Hc Hs].
  destruct (GetFromLevel_tiers s key buf lvl)
    as [Hl [[Hf Hm]|[Hf (e & now & He & Hm)]]].
  - split; [|by rewrite Hf]. split.
    + intros lvl'. rewrite Hm, Hl. apply Hc.
    + intros lvl' k e'. rewrite Hm. apply Hs.
  - split; [split|].
    + intros lvl'. rewrite Hm, Hl. case_decide as Heq; [subst lvl'|apply Hc].
      eapply coherent_tier_touch; [done|apply Hc].
    + intros lvl' k e'. rewrite Hm. case_decide as Heq; [subst lvl'|apply Hs].
      intros [[_ <-]|[_ Hk]]%lookup_insert_Some; [|by eapply Hs].
      cbn. by eapply Hs.
    + intros _. rewrite Hm, decide_True by done.
      rewrite lookup_insert_eq. by eexists.
Qed.

Lemma coherent_record_hit lvl key s :
  is_Some (cache_of lvl s !! key) → coherent s → coherent (record_hit lvl key s).
Proof.
  intros Hk [Hc Hs]. split.
  - intros lvl'. unfold record_hit.
    rewrite cache_of_set_tier, lru_of_set_tier.
    case_decide as Heq; [subst lvl'|apply Hc].
    apply coherent_tier_access; [done|apply Hc].
  - intros lvl' k e. unfold record_hit. rewrite cache_of_set_tier.
    case_decide as Heq; [subst lvl'|]; apply Hs.
Qed.

Lemma coherent_promote lvl key d s : coherent s → coherent (promote lvl key d s).
Proof.
  intros Hc. unfold promote. case_match; [|done]. by apply coherent_PutToLevel.
Qed.

Lemma coherent_set_stats st s : coherent s → coherent (set_stats st s).
Proof. done. Qed.

Lemma coherent_Get s key buf : coherent s → coherent (Get s key buf).2.
Proof.
  intros Hc. unfold Get.
  destruct (coherent_GetFromLevel s key buf L1_GPU Hc) as [Hc1 Hk1].
  destruct (GetFromLevel s key buf L1_GPU) as [[[] d1] s1]; cbn [fst snd] in *.
  { apply coherent_record_hit; auto. }
  destruct (coherent_GetFromLevel s1 key d1 L2_RAM Hc1) as [Hc2 Hk2].
  destruct (GetFromLevel s1 key d1 L2_RAM) as [[[] d2] s2]; cbn [fst snd] in *.
  { apply coherent_promote, coherent_record_hit; auto. }
  destruct (coherent_GetFromLevel s2 key d2 L3_DISK Hc2) as [Hc3 Hk3].
  destruct (GetFromLevel s2 key d2 L3_DISK) as [[[] d3] s3]; cbn [fst snd] in *.
  { apply coherent_promote, coherent_record_hit; auto. }
  by apply coherent_set_stats.
Qed.

Lemma coherent_Clear s : coherent s → coherent (Clear s).
Proof.
  intros _. split.
  - intros lvl. split; [destruct lvl; apply NoDup_nil_2|].
    intros k. destruct lvl; cbn; rewrite lookup_empty, elem_of_nil;
      split; [done|by intros [? ?]|done|by intros [? ?]|done|by intros [? ?]].
  - intros lvl k e. destruct lvl; cbn; by rewrite lookup_empty.
Qed.

Lemma coherent_CleanupExpired s : coherent s → coherent (CleanupExpired s).
Proof.
  unfold CleanupExpired.
  generalize (expired_in L2_RAM s ++ expired_in L3_DISK s). intros ks.
  revert s. induction ks as [|k ks IH]; intros s Hc; [done|].
  cbn. apply IH. by apply coherent_Remove.
Qed.

Lemma coherent_step s c s' o : step s c = Some (s', o) → coherent s → coherent s'.
Proof.
  destruct c; cbn.
  - intros [= <- <-]. apply coherent_Get.
  - destruct (Put s key d preferred_level) as [r|] eqn:Hp; [|done].
    intros [= <- <-]. by eapply coherent_Put.
  - intros [= <- <-]. apply coherent_Remove.
  - intros [= <- <-]. apply coherent_Clear.
  - intros [= <- <-]. apply coherent_CleanupExpired.
  - by intros [= <- <-].
Qed.

(** Every state a new cache reaches through its calls is coherent: each
    key of a tier's map has exactly one LRU node and conversely, and every
    entry's [size] is the length of its bytes. *)
Lemma coherent_run cs : ∀ s s' n m,
  run s cs = Some (s', n, m) → coherent s → coherent s'.
Proof.
  induction cs as [|c cs IH]; intros s s' n m; cbn.
  { by intros [= <- <- <-]. }
  destruct (step s c) as [[s1 o]|] eqn:Hstep; [|done].
  destruct (run s1 cs) as [[[s2 n2] m2]|] eqn:Hrun; [|done].
  intros [= <- <- <-] Hc. eapply IH; [done|]. by eapply coherent_step.
Qed.

(** * Further properties of the operations *)

(** ** Remove *)

Lemma remove_from_flag lvl key rs :
  (remove_from lvl key rs).1 = rs.1 || holds lvl rs.2 key.
Proof.
  destruct rs as [b s]. unfold remove_from, holds. cbn [fst snd].
  destruct (cache_of lvl s !! key) as [e|] eqn:Hk; cbn [fst].
  - rewrite bool_decide_eq_true_2 by (by eexists). by rewrite orb_true_r.
  - rewrite bool_decide_eq_false_2 by (by intros [? ?]). by rewrite orb_false_r.
Qed.

Lemma holds_true lvl s key : holds lvl s key = true ↔ is_Some (cache_of lvl s !! key).
Proof. unfold holds. apply bool_decide_eq_true. Qed.

Lemma holds_false lvl s key : holds lvl s key = false ↔ cache_of lvl s !! key = None.
Proof.
  unfold holds. rewrite bool_decide_eq_false, eq_None_not_Some. done.
Qed.

Lemma Remove_flag s key :
  (Remove s key).1
  = holds L1_GPU s key || holds L2_RAM s key || holds L3_DISK s key.
Proof.
  unfold Remove.
  destruct (remove_from L3_DISK key _) as [b s'] eqn:H3.
  assert (Hb : b = holds L1_GPU s key || holds L2_RAM s key
                   || holds L3_DISK s key).
  { change b with (b, s').1. rewrite <- H3. rewrite !remove_from_flag.
    unfold holds. rewrite !cache_of_remove_from. cbn [fst snd].
    by repeat case_decide. }
  rewrite <- Hb. by destruct b.
Qed.

Lemma Remove_not_held s key :
  (∀ lvl, cache_of lvl s !! key = None) → Remove s key = (false, s).
Proof.
  intros H. pose proof (H L1_GPU) as H1. pose proof (H L2_RAM) as H2.
  pose proof (H L3_DISK) as H3. cbn in H1, H2, H3.
  unfold Remove, remove_from. cbn. rewrite H1. cbn. rewrite H2. cbn.
  by rewrite H3.
Qed.

Lemma files_remove_from lvl key rs :
  files_ (remove_from lvl key rs).2
  = if decide (lvl = L3_DISK)
    then if holds L3_DISK rs.2 key
         then delete (GetFilePath rs.2 key) (files_ rs.2)
         else files_ rs.2
    else files_ rs.2.
Proof.
  destruct rs as [b s]. unfold remove_from, holds. cbn [snd].
  destruct (cache_of lvl s !! key) as [e|] eqn:Hk.
  - destruct lvl; cbn; [done..|]. cbn in Hk.
    rewrite bool_decide_eq_true_2 by (by eexists). done.
  - destruct lvl; cbn; [done..|]. cbn in Hk.
    rewrite bool_decide_eq_false_2; [done|]. rewrite Hk. by intros [? ?].
Qed.

Lemma files_Remove s key :
  files_ (Remove s key).2
  = if holds L3_DISK s key then delete (GetFilePath s key) (files_ s)
    else files_ s.
Proof.
  assert (H : files_ (removed_all s key)
              = if holds L3_DISK s key then delete (GetFilePath s key) (files_ s)
                else files_ s).
  { unfold removed_all. rewrite files_remove_from, decide_True by done.
    unfold holds. rewrite !cache_of_remove_from. cbn [snd].
    rewrite !decide_False by done.
    unfold GetFilePath.
    destruct (env_remove_from L2_RAM key (remove_from L1_GPU key (false, s)))
      as (-> & _ & _).
    destruct (env_remove_from L1_GPU key (false, s)) as (-> & _ & _).
    cbn [snd]. rewrite !files_remove_from, !decide_False by done. done. }
  by destruct (Remove_state s key) as [-> | ->].
Qed.

(** X1. [Remove] returns [true] exactly when some tier holds the key.
    Afterwards no tier holds it and every other key is where it was; the
    backing file is deleted only when the Slow tier held the key.  A key
    held nowhere leaves the whole state as it is (no counter moves, no file
    is deleted), so a second [Remove] of the same key returns [false] and
    changes nothing. *)
Theorem Remove_all_tiers s key :
  ((Remove s key).1 = true ↔ ∃ lvl, is_Some (cache_of lvl s !! key))
  ∧ (∀ lvl k, cache_of lvl (Remove s key).2 !! k
              = if decide (k = key) then None else cache_of lvl s !! k)
  ∧ files_ (Remove s key).2
    = (if holds L3_DISK s key then delete (GetFilePath s key) (files_ s)
       else files_ s)
  ∧ ((∀ lvl, cache_of lvl s !! key = None) → Remove s key = (false, s))
  ∧ Remove (Remove s key).2 key = (false, (Remove s key).2).
Proof.
  split; [|split; [|split; [|split]]].
  - rewrite Remove_flag, !orb_true_iff, !holds_true. split.
    + intros [[H|H]|H]; eauto.
    + intros [[] H]; auto.
  - intros lvl k. rewrite cache_of_Remove. case_decide as Hk.
    + subst. apply lookup_delete_eq.
    + by apply lookup_delete_ne.
  - apply files_Remove.
  - apply Remove_not_held.
  - apply Remove_not_held. intros lvl. rewrite cache_of_Remove.
    apply lookup_delete_eq.
Qed.

Lemma stats_remove_from lvl key rs :
  stats_ (remove_from lvl key rs).2
  = if holds lvl rs.2 key
    then stats_sub_size (held_size lvl rs.2 key) (stats_ rs.2)
    else stats_ rs.2.
Proof.
  destruct rs as [b s]. unfold remove_from, holds, held_size. cbn [snd].
  destruct (cache_of lvl s !! key) as [e|] eqn:Hk.
  - rewrite bool_decide_eq_true_2 by (by eexists). by destruct lvl.
  - rewrite bool_decide_eq_false_2; [done|]. by intros [? ?].
Qed.

Lemma wrap64_sub_l a b : wrap64 (wrap64 a - b) = wrap64 (a - b).
Proof. unfold wrap64. by rewrite Zminus_mod_idemp_l. Qed.

Lemma wrap64_sub_sub_l a b c : wrap64 (wrap64 a - b - c) = wrap64 (a - b - c).
Proof.
  replace (wrap64 a - b - c) with (wrap64 a - (b + c)) by lia.
  rewrite wrap64_sub_l. f_equal. lia.
Qed.

Lemma held_size_not_held lvl s key : holds lvl s key = false → held_size lvl s key = 0.
Proof. rewrite holds_false. unfold held_size. by intros ->. Qed.

Lemma GetEntryCount_Remove s key lvl :
  GetEntryCount (Remove s key).2 lvl
  = GetEntryCount s lvl - (if holds lvl s key then 1 else 0).
Proof.
  unfold GetEntryCount. rewrite cache_of_Remove, map_size_delete.
  destruct (holds lvl s key) eqn:Hh.
  - apply holds_true in Hh as [e He]. rewrite He.
    assert (size (cache_of lvl s) ≠ 0%nat).
    { intros H0. apply map_size_empty_inv in H0. rewrite H0 in He.
      by rewrite lookup_empty in He. }
    cbn. lia.
  - apply holds_false in Hh. rewrite Hh. cbn. lia.
Qed.

(** X2. The counters after a [Remove] that found the key: [entry_count]
    goes down by one however many tiers held the key, while the number of
    live entries goes down by the number of tiers that held it (one to
    three), and [total_size] goes down by the sizes of all the entries
    removed; hits, misses and evictions stay. *)
Theorem Remove_counters s key :
  (Remove s key).1 = true →
  1 ≤ holders s key ≤ 3
  ∧ live_entries (Remove s key).2 = live_entries s - holders s key
  ∧ CacheStats.entry_count (stats_ (Remove s key).2)
    = wrap64 (CacheStats.entry_count (stats_ s) - 1)
  ∧ CacheStats.total_size (stats_ (Remove s key).2)
    = wrap64 (CacheStats.total_size (stats_ s) - held_bytes s key)
  ∧ CacheStats.hits (stats_ (Remove s key).2) = CacheStats.hits (stats_ s)
  ∧ CacheStats.misses (stats_ (Remove s key).2) = CacheStats.misses (stats_ s)
  ∧ CacheStats.evictions (stats_ (Remove s key).2)
    = CacheStats.evictions (stats_ s).
Proof.
  intros Hr. pose proof Hr as Hflag. rewrite Remove_flag in Hflag.
  split.
  { unfold holders.
    destruct (holds L1_GPU s key), (holds L2_RAM s key), (holds L3_DISK s key);
      cbn in Hflag; try done; lia. }
  split.
  { unfold live_entries. rewrite !GetEntryCount_Remove. unfold holders.
    destruct (holds L1_GPU s key), (holds L2_RAM s key), (holds L3_DISK s key);
      lia. }
  assert (Hst : stats_ (removed_all s key)
    = (if holds L3_DISK s key
       then stats_sub_size (held_size L3_DISK s key) else id)
      ((if holds L2_RAM s key
        then stats_sub_size (held_size L2_RAM s key) else id)
       ((if holds L1_GPU s key
         then stats_sub_size (held_size L1_GPU s key) else id) (stats_ s)))).
  { unfold removed_all. rewrite !stats_remove_from.
    unfold holds, held_size. rewrite !cache_of_remove_from. cbn [snd].
    rewrite !decide_False by done.
    by repeat case_bool_decide. }
  assert (Hs2 : stats_ (Remove s key).2
                = stats_add_entry (-1) (stats_ (removed_all s key))).
  { unfold Remove in Hr |- *. unfold removed_all.
    destruct (remove_from L3_DISK key _) as [[] s']; [done|].
    cbn in Hr. done. }
  rewrite Hs2, Hst. unfold held_bytes.
  destruct (holds L1_GPU s key) eqn:H1, (holds L2_RAM s key) eqn:H2,
           (holds L3_DISK s key) eqn:H3;
    rewrite ?(held_size_not_held _ _ _ H1), ?(held_size_not_held _ _ _ H2),
            ?(held_size_not_held _ _ _ H3);
    cbn in Hflag; try discriminate Hflag;
    cbn; rewrite ?wrap64_sub_l, ?wrap64_sub_sub_l; repeat split; try done;
    f_equal; lia.
Qed.

(** ** Clear *)




(** ** Get *)

(** X4. A [Get] for a key that no tier holds returns [false], leaves the
    caller's buffer as it was and changes nothing in the cache but the miss
    counter; in particular it does not touch the disk. *)
Theorem Get_absent_key s key buf :
  (∀ lvl, cache_of lvl s !! key = None) →
  Get s key buf = (false, buf, set_stats (stats_miss (stats_ s)) s).
Proof.
  intros H. unfold Get.
  rewrite (GetFromLevel_memory_miss s key buf L1_GPU) by (done || apply H).
  rewrite (GetFromLevel_memory_miss s key buf L2_RAM) by (done || apply H).
  unfold GetFromLevel. pose proof (H L3_DISK) as H3. cbn in H3.
  by rewrite H3.
Qed.

(** X5. A [Get] that finds the key in the Medium tier (and not in the Fast
    tier) returns the stored bytes and counts a hit; the Medium entry stays,
    refreshed.  When the Fast tier has room for the bytes they are copied
    into it, so that the key is found there directly afterwards; when it
    has not, the Fast tier is left as it was. *)
Theorem Get_promotes_medium_to_fast s key buf e :
  l1_cache_ s !! key = None →
  l2_cache_ s !! key = Some e →
  (Get s key buf).1 = (true, CacheEntry.data e)
  ∧ l2_cache_ (Get s key buf).2 !! key = Some (CacheEntry.touch (clock_ s) e)
  ∧ CacheStats.hits (stats_ (Get s key buf).2)
    = wrap64 (CacheStats.hits (stats_ s) + 1)
  ∧ (wrap64 (GetCurrentSize s L1_GPU + vsize (CacheEntry.data e))
       ≤ Config.max_l1_size (config_ s) →
     ∀ buf', (GetFromLevel (Get s key buf).2 key buf' L1_GPU).1
             = (true, CacheEntry.data e))
  ∧ (Config.max_l1_size (config_ s)
       < wrap64 (GetCurrentSize s L1_GPU + vsize (CacheEntry.data e)) →
     l1_cache_ (Get s key buf).2 = l1_cache_ s).
Proof.
  intros H1 H2. unfold Get.
  rewrite (GetFromLevel_memory_miss s key buf L1_GPU) by done.
  rewrite (GetFromLevel_memory_hit s key buf L2_RAM e) by done.
  cbn [fst snd].
  set (sh := record_hit L2_RAM key _).
  assert (Hsz : GetCurrentSize sh L1_GPU = GetCurrentSize s L1_GPU)
    by (by apply GetCurrentSize_ext).
  assert (Hcfg : config_ sh = config_ s) by done.
  assert (Hl2 : l2_cache_ sh = <[key := CacheEntry.touch (clock_ s) e]> (l2_cache_ s))
    by done.
  assert (Hh : CacheStats.hits (stats_ sh) = wrap64 (CacheStats.hits (stats_ s) + 1))
    by done.
  assert (Hl1 : l1_cache_ sh = l1_cache_ s) by done.
  clearbody sh. split; [done|].
  unfold promote. rewrite Hsz, Hcfg. cbn [max_size_of].
  destruct (wrap64 (GetCurrentSize s L1_GPU + vsize (CacheEntry.data e))
            <=? Config.max_l1_size (config_ s)) eqn:Hfit.
  - rewrite PutToLevel_memory by done. cbn [snd].
    split; [cbn; rewrite Hl2; apply lookup_insert_eq|].
    split; [done|]. split.
    + intros _ buf'. erewrite GetFromLevel_memory_hit;
        [|done|cbn; apply lookup_insert_eq]. done.
    + intros Hlt. apply Z.leb_le in Hfit. lia.
  - split; [rewrite Hl2; apply lookup_insert_eq|]. split; [done|]. split.
    + intros Hle. apply Z.leb_gt in Hfit. lia.
    + done.
Qed.

(** X6. A [Get] for a key held by the Slow tier only, whose backing file
    is missing, returns [false] and counts a miss; the entry stays in the
    Slow tier's map, so the key keeps missing until it is removed or
    written again. *)
Theorem Get_slow_entry_without_file s key buf e :
  l1_cache_ s !! key = None →
  l2_cache_ s !! key = None →
  l3_cache_ s !! key = Some e →
  files_ s !! GetFilePath s key = None →
  (Get s key buf).1 = (false, buf)
  ∧ (∀ lvl, cache_of lvl (Get s key buf).2 = cache_of lvl s)
  ∧ (∀ lvl, lru_of lvl (Get s key buf).2 = lru_of lvl s)
  ∧ hit_miss (Get s key buf).2
    = (CacheStats.hits (stats_ s), wrap64 (CacheStats.misses (stats_ s) + 1)).
Proof.
  intros H1 H2 H3 Hf. rewrite Get_disk_path by done.
  unfold GetFromLevel, LoadFromFile. rewrite H3, Hf.
  destruct (io_ s) as [|[| |n|n] io]; cbn; repeat split; by intros [].
Qed.

Lemma files_GetFromLevel s key buf lvl :
  files_ (GetFromLevel s key buf lvl).2 = files_ s.
Proof.
  destruct lvl; cbn.
  - by destruct (l1_cache_ s !! key).
  - by destruct (l2_cache_ s !! key).
  - destruct (l3_cache_ s !! key); [|done]. unfold LoadFromFile.
    destruct (io_ s) as [|[| |n|n] io];
      try destruct (files_ s !! GetFilePath s key); done.
Qed.

(** Every entry of [s] is still there in [s'], and the files are the same. *)
Lemma keeps_GetFromLevel s key buf lvl lvl' k :
  is_Some (cache_of lvl' s !! k) →
  is_Some (cache_of lvl' (GetFromLevel s key buf lvl).2 !! k).
Proof.
  intros Hk.
  destruct (GetFromLevel_tiers s key buf lvl)
    as [_ [[_ Hm]|[_ (e & now & He & Hm)]]]; rewrite Hm; [done|].
  case_decide; [subst lvl'|done].
  destruct (decide (k = key)) as [->|Hne].
  - rewrite lookup_insert_eq. by eexists.
  - by rewrite lookup_insert_ne.
Qed.

Lemma keeps_promote lvl key d s lvl' k :
  lvl ≠ L3_DISK →
  is_Some (cache_of lvl' s !! k) →
  is_Some (cache_of lvl' (promote lvl key d s) !! k).
Proof.
  intros Hlvl Hk. unfold promote. case_match; [|done].
  rewrite PutToLevel_memory by done. cbn [snd].
  rewrite cache_of_count_put, cache_of_set_tier.
  case_decide; [subst lvl'|done].
  destruct (decide (k = key)) as [->|Hne].
  - rewrite lookup_insert_eq. by eexists.
  - by rewrite lookup_insert_ne.
Qed.

Lemma files_promote lvl key d s :
  lvl ≠ L3_DISK → files_ (promote lvl key d s) = files_ s.
Proof.
  intros Hlvl. unfold promote. case_match; [|done].
  rewrite PutToLevel_memory by done. by destruct lvl.
Qed.

(** X7. [Get] never removes an entry and never writes or deletes a file:
    every key a tier holds before a [Get] (of any key) is still held by
    that tier afterwards, and the files are the same. *)
Theorem Get_never_removes s key buf :
  (∀ lvl k, is_Some (cache_of lvl s !! k) →
            is_Some (cache_of lvl (Get s key buf).2 !! k))
  ∧ files_ (Get s key buf).2 = files_ s
  ∧ config_ (Get s key buf).2 = config_ s.
Proof.
  unfold Get.
  pose proof (keeps_GetFromLevel s key buf L1_GPU) as K1.
  pose proof (files_GetFromLevel s key buf L1_GPU) as F1.
  assert (C1 : config_ (GetFromLevel s key buf L1_GPU).2 = config_ s).
  { destruct (GetFromLevel s key buf L1_GPU).1.1 eqn:Hf.
    - cbn in *. destruct (l1_cache_ s !! key); done.
    - by apply GetFromLevel_miss_frame. }
  destruct (GetFromLevel s key buf L1_GPU) as [[[] d1] s1]; cbn [fst snd] in *.
  { split; [|by rewrite <- F1, <- C1]. intros lvl k Hk.
    apply (K1 lvl k) in Hk. unfold record_hit.
    rewrite cache_of_set_tier. by case_decide; subst. }
  pose proof (keeps_GetFromLevel s1 key d1 L2_RAM) as K2.
  pose proof (files_GetFromLevel s1 key d1 L2_RAM) as F2.
  assert (C2 : config_ (GetFromLevel s1 key d1 L2_RAM).2 = config_ s1).
  { destruct (GetFromLevel s1 key d1 L2_RAM).1.1 eqn:Hf.
    - cbn in *. destruct (l2_cache_ s1 !! key); done.
    - by apply GetFromLevel_miss_frame. }
  destruct (GetFromLevel s1 key d1 L2_RAM) as [[[] d2] s2]; cbn [fst snd] in *.
  { split; [|split].
    - intros lvl k Hk. apply keeps_promote; [done|].
      apply (K1 lvl k), (K2 lvl k) in Hk. unfold record_hit.
      rewrite cache_of_set_tier. by case_decide; subst.
    - rewrite files_promote by done. by rewrite <- F1, <- F2.
    - unfold promote. case_match; [|by rewrite <- C1, <- C2].
      rewrite config_PutToLevel. by rewrite <- C1, <- C2. }
  pose proof (keeps_GetFromLevel s2 key d2 L3_DISK) as K3.
  pose proof (files_GetFromLevel s2 key d2 L3_DISK) as F3.
  assert (C3 : config_ (GetFromLevel s2 key d2 L3_DISK).2 = config_ s2).
  { destruct (GetFromLevel s2 key d2 L3_DISK).1.1 eqn:Hf.
    - destruct (GetFromLevel_disk_hit s2 key d2 Hf) as (e & d & _ & _ & ->).
      done.
    - by apply GetFromLevel_miss_frame. }
  destruct (GetFromLevel s2 key d2 L3_DISK) as [[[] d3] s3]; cbn [fst snd] in *.
  { split; [|split].
    - intros lvl k Hk. apply keeps_promote; [done|].
      apply (K1 lvl k), (K2 lvl k), (K3 lvl k) in Hk. unfold record_hit.
      rewrite cache_of_set_tier. by case_decide; subst.
    - rewrite files_promote by done. by rewrite <- F1, <- F2, <- F3.
    - unfold promote. case_match; [|by rewrite <- C1, <- C2, <- C3].
      rewrite config_PutToLevel. by rewrite <- C1, <- C2, <- C3. }
  split; [|split].
  - intros lvl k Hk. by apply (K1 lvl k), (K2 lvl k), (K3 lvl k) in Hk.
  - by rewrite <- F1, <- F2, <- F3.
  - by rewrite <- C1, <- C2, <- C3.
Qed.

(** ** Keys whose hashes collide *)

Lemma GetFilePath_hash s s' k1 k2 :
  hash k1 = hash k2 → config_ s = config_ s' →
  GetFilePath s k1 = GetFilePath s' k2.
Proof. intros Hh Hc. unfold GetFilePath. by rewrite Hh, Hc. Qed.

(** X8. The backing file is named after the hash of the key alone.  When
    two different keys with the same hash are written to the Slow tier one
    after the other (uncompressed), and the second write is not refused
    at the flush, the second write replaces the file of the first: a
    [Get] of the first key then succeeds and returns the bytes of the
    second. *)
Theorem colliding_keys_share_file s k1 k2 d1 d2 buf :
  hash k1 = hash k2 →
  k1 ≠ k2 →
  Config.enable_compression (config_ s) = false →
  (PutToLevel s k1 d1 L3_DISK).1 = true →
  (PutToLevel (PutToLevel s k1 d1 L3_DISK).2 k2 d2 L3_DISK).1 = true →
  write_reaches_disk (PutToLevel s k1 d1 L3_DISK).2 →
  l1_cache_ s !! k1 = None →
  l2_cache_ s !! k1 = None →
  next_io_ok (PutToLevel (PutToLevel s k1 d1 L3_DISK).2 k2 d2 L3_DISK).2 →
  (Get (PutToLevel (PutToLevel s k1 d1 L3_DISK).2 k2 d2 L3_DISK).2 k1 buf).1
  = (true, d2).
Proof.
  intros Hh Hne Hcomp Hr1 Hr2 Hw H1 H2 Hio.
  destruct (PutToLevel s k1 d1 L3_DISK) as [ok1 s1] eqn:Hp1.
  cbn [fst snd] in *. subst ok1.
  destruct (PutToLevel_disk_stored _ _ _ _ Hp1) as (He1 & Hl1 & Hl2 & Hc1).
  destruct (PutToLevel s1 k2 d2 L3_DISK) as [ok2 s2] eqn:Hp2.
  cbn [fst snd] in *. subst ok2.
  destruct (PutToLevel_disk_ok _ _ _ _ Hw Hp2)
    as (He2 & Hf2 & Hl1' & Hl2' & Hc2).
  destruct (PutToLevel_tiers s1 k2 d2 L3_DISK) as [Hm _].
  specialize (Hm L3_DISK). rewrite Hp2, decide_True in Hm by done.
  cbn [fst snd cache_of] in Hm.
  assert (He1' : l3_cache_ s2 !! k1 = Some (new_entry s k1 d1 L3_DISK)).
  { rewrite Hm, lookup_insert_ne by done. exact He1. }
  rewrite (GetFilePath_hash s2 s2 k2 k1) in Hf2 by done.
  rewrite (Get_slow_hit s2 k1 buf _ _ ltac:(by rewrite Hl1', Hl1)
             ltac:(by rewrite Hl2', Hl2) He1' Hio Hf2).
  unfold new_entry, stores_compressed. rewrite Hc1, Hcomp.
  by rewrite !andb_false_r.
Qed.

(** X9. Removing one of two keys with the same hash deletes the file both
    share: the other key stays in the Slow tier's map, but a [Get] for it
    (when no faster tier holds it) now returns [false]. *)
Theorem Remove_deletes_shared_file s k1 k2 e1 buf :
  hash k1 = hash k2 →
  k1 ≠ k2 →
  l1_cache_ s !! k1 = None →
  l2_cache_ s !! k1 = None →
  l3_cache_ s !! k1 = Some e1 →
  is_Some (l3_cache_ s !! k2) →
  l3_cache_ (Remove s k2).2 !! k1 = Some e1
  ∧ files_ (Remove s k2).2 !! GetFilePath (Remove s k2).2 k1 = None
  ∧ (Get (Remove s k2).2 k1 buf).1 = (false, buf).
Proof.
  intros Hh Hne H1 H2 H3 Hk2.
  assert (Hc : ∀ lvl, cache_of lvl (Remove s k2).2 !! k1 = cache_of lvl s !! k1).
  { intros lvl. rewrite cache_of_Remove. by apply lookup_delete_ne. }
  pose proof (Hc L1_GPU) as Hc1. pose proof (Hc L2_RAM) as Hc2.
  pose proof (Hc L3_DISK) as Hc3. cbn in Hc1, Hc2, Hc3.
  assert (Hf : files_ (Remove s k2).2 !! GetFilePath (Remove s k2).2 k1 = None).
  { rewrite files_Remove.
    rewrite (proj2 (holds_true L3_DISK s k2)) by done.
    rewrite (GetFilePath_hash (Remove s k2).2 s k1 k2 Hh)
      by apply (env_Remove s k2).
    apply lookup_delete_eq. }
  split; [by rewrite Hc3|]. split; [done|].
  rewrite Get_disk_path by (by rewrite ?Hc1, ?Hc2).
  unfold GetFromLevel, LoadFromFile. rewrite Hc3, H3, Hf.
  by destruct (io_ (Remove s k2).2) as [|[| |n|n] io].
Qed.

(** ** Compression that fails *)

(** X10. When zlib's [compress2] fails, [PutToLevel] stores the original
    bytes in the Slow tier but still flags the entry as compressed.  When
    the write of the file was not refused at the flush, the [Get] that
    follows therefore runs [Decompress] on the original bytes: it returns
    them unchanged when [uncompress] rejects them, and whatever
    [uncompress] makes of them when it accepts them. *)
Theorem compression_failure_round_trip s key d pref s1 buf :
  Put s key d pref = Some (true, s1) →
  write_reaches_disk s →
  target_level s d pref = L3_DISK →
  l1_cache_ s !! key = None →
  l2_cache_ s !! key = None →
  next_io_ok s1 →
  stores_compressed s d L3_DISK = true →
  compress2 d (Config.compression_level (config_ s)) = None →
  (∃ e, l3_cache_ s1 !! key = Some e
        ∧ CacheEntry.compressed e = true ∧ CacheEntry.data e = d)
  ∧ (Get s1 key buf).1 = (true, Decompress d)
  ∧ (uncompress decompress_capacity d = None → (Get s1 key buf).1 = (true, d))
  ∧ (∀ d', uncompress decompress_capacity d = Some d' →
           (Get s1 key buf).1 = (true, d')).
Proof.
  intros Hput Hw Ht H1 H2 Hio Hsc Hfail. unfold Put, Put_fuel in Hput.
  rewrite Ht in Hput.
  destruct (evict_while _ L3_DISK s) as [s'|] eqn:He; [|done].
  assert (Hput' : PutToLevel s' key d L3_DISK = (true, s1)) by congruence.
  clear Hput.
  destruct (evict_while_env _ _ _ _ He) as [Hcfg _].
  assert (Hw' : write_reaches_disk s').
  { unfold write_reaches_disk. by rewrite (io_evict_while _ _ _ _ He). }
  destruct (PutToLevel_disk_ok _ _ _ _ Hw' Hput')
    as (H3 & Hf & Hl1 & Hl2 & Hcfg1).
  assert (Hentry : new_entry s' key d L3_DISK
                   = CacheEntry.mk d (vsize d) (clock_ s') (clock_ s') 1 true
                       L3_DISK key).
  { unfold new_entry, stores_compressed, Compress. rewrite Hcfg.
    unfold stores_compressed in Hsc. rewrite Hsc, Hfail. done. }
  rewrite Hentry in H3, Hf. cbn [CacheEntry.data] in Hf.
  assert (Hg : (Get s1 key buf).1 = (true, Decompress d)).
  { assert (Hs1 : l1_cache_ s1 !! key = None).
    { rewrite Hl1. eapply lookup_weaken_None; [exact H1|].
      exact (evict_while_subseteq _ _ L1_GPU _ _ He). }
    assert (Hs2 : l2_cache_ s1 !! key = None).
    { rewrite Hl2. eapply lookup_weaken_None; [exact H2|].
      exact (evict_while_subseteq _ _ L2_RAM _ _ He). }
    by rewrite (Get_slow_hit s1 key buf _ d Hs1 Hs2 H3 Hio Hf). }
  split; [by eexists|]. split; [done|]. split.
  - intros Hu. rewrite Hg. unfold Decompress. by rewrite Hu.
  - intros d' Hu. rewrite Hg. unfold Decompress. by rewrite Hu.
Qed.

(** ** A write refused at the flush *)

(** X26. [SaveToFile] reads [file.good ()] right after [write], before the
    stream is flushed.  When the bytes are refused only at that flush, a
    [Put] to the Slow tier still returns [true] and keeps the entry, the
    file holds only the bytes that got through, and - for an entry stored
    uncompressed, with no copy in a faster tier - the [Get] that follows
    returns [true] with the truncated bytes. *)
Theorem Put_true_on_refused_flush s key d pref n io r buf :
  Put s key d pref = Some r →
  target_level s d pref = L3_DISK →
  io_ s = io_flush_fails n :: io →
  r.1 = true
  ∧ is_Some (l3_cache_ r.2 !! key)
  ∧ files_ r.2 !! GetFilePath r.2 key
    = Some (take n (if stores_compressed s d L3_DISK then Compress s d
                    else d))
  ∧ (stores_compressed s d L3_DISK = false →
     l1_cache_ s !! key = None → l2_cache_ s !! key = None →
     next_io_ok r.2 →
     (Get r.2 key buf).1 = (true, take n d)).
Proof.
  intros Hput Ht Hio. unfold Put, Put_fuel in Hput. rewrite Ht in Hput.
  destruct (evict_while _ L3_DISK s) as [s'|] eqn:He; [|done].
  assert (Hr : r = PutToLevel s' key d L3_DISK) by congruence.
  clear Hput. subst r.
  destruct (evict_while_env _ _ _ _ He) as [Hcfg _].
  assert (Hio' : io_ s' = io_flush_fails n :: io).
  { by rewrite (io_evict_while _ _ _ _ He). }
  destruct (PutToLevel_disk_flush_fails s' key d n io Hio')
    as (Hok & H3 & Hf & Hl1 & Hl2 & _ & _).
  assert (Hsc : stores_compressed s' d L3_DISK = stores_compressed s d L3_DISK).
  { unfold stores_compressed. by rewrite Hcfg. }
  assert (Hcomp : Compress s' d = Compress s d).
  { unfold Compress. by rewrite Hcfg. }
  assert (Hdata : CacheEntry.data (new_entry s' key d L3_DISK)
                  = if stores_compressed s d L3_DISK then Compress s d else d).
  { unfold new_entry. cbn [CacheEntry.data]. by rewrite Hsc, Hcomp. }
  rewrite Hdata in Hf.
  split; [done|]. split; [by eexists|]. split; [done|].
  intros Hraw H1 H2 Hnext. rewrite Hraw in Hf.
  assert (Hs1 : l1_cache_ (PutToLevel s' key d L3_DISK).2 !! key = None).
  { rewrite Hl1. eapply lookup_weaken_None; [exact H1|].
    exact (evict_while_subseteq _ _ L1_GPU _ _ He). }
  assert (Hs2 : l2_cache_ (PutToLevel s' key d L3_DISK).2 !! key = None).
  { rewrite Hl2. eapply lookup_weaken_None; [exact H2|].
    exact (evict_while_subseteq _ _ L2_RAM _ _ He). }
  rewrite (Get_slow_hit _ key buf _ _ Hs1 Hs2 H3 Hnext Hf).
  unfold new_entry. cbn [CacheEntry.compressed]. by rewrite Hsc, Hraw.
Qed.

(** ** Termination of Put *)

Lemma coherent_tier_nil m : coherent_tier m [] → m = ∅.
Proof.
  intros [_ Hk]. apply map_empty. intros k. apply eq_None_not_Some.
  rewrite <- Hk. apply not_elem_of_nil.
Qed.

Lemma NeedEviction_empty_index lvl s :
  coherent s → lru_of lvl s = [] → 0 < max_size_of lvl (config_ s) →
  NeedEviction s lvl = false.
Proof.
  intros [Hc _] Hl Hmax. specialize (Hc lvl). rewrite Hl in Hc.
  apply coherent_tier_nil in Hc. unfold NeedEviction.
  rewrite GetCurrentSize_wrap, Hc, tier_bytes_empty. apply Z.leb_gt.
  unfold wrap64. rewrite Z.mod_0_l by done. lia.
Qed.

Lemma evict_while_terminates lvl n : ∀ s,
  length (lru_of lvl s) = n →
  coherent s → 0 < max_size_of lvl (config_ s) → "" ∉ lru_of lvl s →
  ∃ s', evict_while n lvl s = Some s'.
Proof.
  induction (lt_wf n) as [n _ IH]. intros s Hlen Hc Hmax Hk.
  destruct (NeedEviction s lvl) eqn:Hn.
  2:{ exists s. by apply evict_while_no_need. }
  destruct (decide (lru_of lvl s = [])) as [Hl|Hne].
  { by rewrite NeedEviction_empty_index in Hn. }
  pose proof (GetLRU_elem _ Hne) as Hin.
  assert (Hns : ¬ stuck lvl s).
  { intros [_ [He|He]].
    - by rewrite He in Hin.
    - destruct Hc as [Hc _]. apply (Hc lvl) in Hin as [e He']. congruence. }
  pose proof (progress_EvictLRU lvl s Hn Hns) as Hlt.
  destruct n as [|n]; [lia|].
  cbn. rewrite Hn.
  destruct (IH (length (lru_of lvl (EvictLRU s lvl))) ltac:(lia)
              (EvictLRU s lvl) eq_refl) as [s' Hs'].
  - by apply coherent_EvictLRU.
  - by rewrite (proj1 (env_EvictLRU s lvl)).
  - rewrite lru_of_EvictLRU. case_decide; [done|].
    case_match; [|done].
    rewrite elem_of_LRUCache_Remove. by intros [Hin' _].
  - exists s'. eapply evict_while_mono; [done|lia].
Qed.

(** X11. [Put] returns whenever the cache is in a state it can reach (each
    tier's map and LRU index agree), the cap of the tier it writes to is
    positive and the empty string is not a key of that tier. *)
Theorem Put_terminates s key d pref :
  coherent s →
  0 < max_size_of (target_level s d pref) (config_ s) →
  "" ∉ lru_of (target_level s d pref) s →
  is_Some (Put s key d pref).
Proof.
  intros Hc Hmax Hk. unfold Put, Put_fuel.
  destruct (evict_while_terminates (target_level s d pref) _ s eq_refl Hc Hmax Hk)
    as [s' ->].
  by eexists.
Qed.

(** X12. [EvictLRU] takes the empty string that [GetLRU] returns for "no
    key" and does nothing with it.  So when the tier [Put] writes to is at
    90% of its cap or more and [GetLRU] yields the empty string - the index
    is empty (a cap of zero), or its least recently used key is the empty
    string itself - the eviction loop of [Put] never exits: no number of
    iterations is enough. *)
Theorem Put_loops_forever_on_empty_key s key d pref :
  NeedEviction s (target_level s d pref) = true →
  LRUCache.GetLRU (lru_of (target_level s d pref) s) = "" →
  Put s key d pref = None
  ∧ ∀ fuel, Put_fuel fuel s key d pref = None.
Proof.
  intros Hn He.
  assert (Hs : stuck (target_level s d pref) s) by (split; auto).
  split.
  - unfold Put, Put_fuel. by rewrite stuck_diverges.
  - intros fuel. unfold Put_fuel. by rewrite stuck_diverges.
Qed.

(** ** EvictLRU *)

(** X13. In a coherent state whose tier [lvl] has a least recently used key
    other than the empty string, [EvictLRU] of that tier removes this key
    from all three tiers (not only from [lvl]: copies in the other tiers go
    too), leaves every other key where it was, counts one eviction, and
    takes exactly one entry out of tier [lvl]. *)
Theorem EvictLRU_removes_everywhere s lvl :
  coherent s →
  LRUCache.GetLRU (lru_of lvl s) ≠ "" →
  is_Some (cache_of lvl s !! LRUCache.GetLRU (lru_of lvl s))
  ∧ (∀ lvl' k, cache_of lvl' (EvictLRU s lvl) !! k
               = if decide (k = LRUCache.GetLRU (lru_of lvl s)) then None
                 else cache_of lvl' s !! k)
  ∧ (∀ lvl', LRUCache.GetLRU (lru_of lvl s) ∉ lru_of lvl' (EvictLRU s lvl))
  ∧ CacheStats.evictions (stats_ (EvictLRU s lvl))
    = wrap64 (CacheStats.evictions (stats_ s) + 1)
  ∧ GetEntryCount (EvictLRU s lvl) lvl = GetEntryCount s lvl - 1.
Proof.
  intros Hc Hk. set (k := LRUCache.GetLRU (lru_of lvl s)) in *.
  assert (Hne : lru_of lvl s ≠ []).
  { intros Hnil. apply Hk. unfold k. by rewrite Hnil. }
  assert (Hin : is_Some (cache_of lvl s !! k)).
  { apply (proj1 Hc lvl). by apply GetLRU_elem. }
  assert (Hev : EvictLRU s lvl
                = set_stats (stats_evicted (stats_ (Remove s k).2)) (Remove s k).2).
  { unfold EvictLRU. fold k. by rewrite decide_False. }
  split; [done|]. split; [|split; [|split]].
  - intros lvl' k'. rewrite cache_of_EvictLRU. fold k.
    rewrite decide_False by done. case_decide as Hk'.
    + subst. apply lookup_delete_eq.
    + by apply lookup_delete_ne.
  - intros lvl'. rewrite lru_of_EvictLRU. fold k. rewrite decide_False by done.
    destruct (cache_of lvl' s !! k) as [e|] eqn:He.
    + rewrite elem_of_LRUCache_Remove. by intros [_ ?].
    + rewrite (proj2 (proj1 Hc lvl') k), He. by intros [? ?].
  - rewrite Hev. cbn.
    assert (Hr : CacheStats.evictions (stats_ (Remove s k).2)
                 = CacheStats.evictions (stats_ s)).
    { assert ((Remove s k).1 = true) as Hrt.
      { rewrite Remove_flag, !orb_true_iff.
        apply holds_true in Hin. destruct lvl; auto. }
      clear Hev. unfold Remove in *. fold (removed_all s k) in *.
      destruct (remove_from L3_DISK k _) as [[] s'] eqn:Hrf; [|done].
      cbn. change s' with (true, s').2. rewrite <- Hrf.
      rewrite !stats_remove_from.
      repeat (case_match; cbn); done. }
    by rewrite Hr.
  - rewrite Hev. unfold GetEntryCount.
    change (cache_of lvl (set_stats ?st ?x)) with (cache_of lvl x).
    rewrite cache_of_Remove, map_size_delete_Some by done.
    destruct Hin as [e He].
    assert (size (cache_of lvl s) ≠ 0%nat).
    { intros H0. apply map_size_empty_inv in H0. rewrite H0 in He.
      by rewrite lookup_empty in He. }
    lia.
Qed.

(** ** Where Put writes *)

Lemma target_level_not_faster s d pref :
  level_index pref ≤ level_index (target_level s d pref).
Proof.
  unfold target_level.
  destruct pref;
    destruct (Config.max_l1_size (config_ s) <? _);
    rewrite ?andb_true_r, ?andb_false_r;
    repeat (case_bool_decide; try done; cbn [andb]);
    destruct (Config.max_l2_size (config_ s) <? _);
    rewrite ?andb_true_r, ?andb_false_r;
    repeat (case_bool_decide; try done; cbn [andb]); cbn; lia.
Qed.

(** X14. [Put] never writes to a tier faster than the preferred one, and it
    can only fail on the Slow tier: a [Put] that lands in the Fast or the
    Medium tier returns [true].  After a successful [Put] the target tier
    holds, under the key, an entry created at the current time (with
    exactly the given bytes when the tier is in memory); no other tier
    gains an entry. *)
Theorem Put_lands_in_target s key d pref ok s1 :
  Put s key d pref = Some (ok, s1) →
  level_index pref ≤ level_index (target_level s d pref)
  ∧ (ok = false → target_level s d pref = L3_DISK)
  ∧ (ok = true →
     ∃ e, cache_of (target_level s d pref) s1 !! key = Some e
          ∧ CacheEntry.key e = key
          ∧ CacheEntry.level e = target_level s d pref
          ∧ CacheEntry.last_access e = clock_ s
          ∧ CacheEntry.access_count e = 1
          ∧ CacheEntry.size e = vsize (CacheEntry.data e)
          ∧ (target_level s d pref ≠ L3_DISK → CacheEntry.data e = d))
  ∧ (∀ lvl', lvl' ≠ target_level s d pref →
             cache_of lvl' s1 ⊆ cache_of lvl' s).
Proof.
  intros Hput. unfold Put, Put_fuel in Hput.
  set (lvl := target_level s d pref) in *.
  destruct (evict_while (length (lru_of lvl s)) lvl s) as [s'|] eqn:He;
    [|done].
  assert (Hput' : PutToLevel s' key d lvl = (ok, s1)) by congruence.
  clear Hput. rename Hput' into Hput.
  destruct (evict_while_env _ _ _ _ He) as [_ Hclk].
  destruct (PutToLevel_tiers s' key d lvl) as [Hm _]. rewrite Hput in Hm.
  cbn [fst snd] in Hm.
  split; [apply target_level_not_faster|]. split; [|split].
  - intros ->. destruct lvl; [..|done];
      rewrite PutToLevel_memory in Hput by done; discriminate Hput.
  - intros ->. exists (new_entry s' key d lvl).
    rewrite Hm, decide_True by done. rewrite lookup_insert_eq.
    split; [done|]. split; [done|]. split; [done|]. split; [done|].
    split; [done|]. split; [done|].
    intros Hlvl. by rewrite new_entry_memory.
  - intros lvl' Hne. rewrite Hm, decide_False by done.
    by eapply evict_while_subseteq.
Qed.

(** ** Expiry *)

(** X15. With a non-negative [max_age], an entry is expired exactly when
    [max_age + 1] whole seconds have passed since its last access: the age
    is truncated to seconds before the strict comparison, so an entry is
    kept for up to one second longer than [max_age]. *)
Theorem IsExpired_after_whole_seconds s e :
  0 ≤ Config.max_age (config_ s) →
  IsExpired s e = true
  ↔ (Config.max_age (config_ s) + 1) * ticks_per_second
    ≤ clock_ s - CacheEntry.last_access e.
Proof.
  intros Hage. unfold IsExpired, ticks_per_second. rewrite Z.ltb_lt.
  set (a := Config.max_age (config_ s)) in *.
  set (t := clock_ s - CacheEntry.last_access e).
  destruct (Z_lt_le_dec t 0) as [Hneg|Hpos].
  - pose proof (Z.quot_opp_l (-t) 1000000000 ltac:(lia)) as Hq.
    rewrite Z.opp_involutive in Hq.
    pose proof (Z.quot_pos (-t) 1000000000 ltac:(lia) ltac:(lia)). lia.
  - rewrite Z.quot_div_nonneg by lia.
    pose proof (Z.div_mod t 1000000000 ltac:(lia)).
    pose proof (Z.mod_pos_bound t 1000000000 ltac:(lia)). nia.
Qed.

Lemma env_remove_keys ks : ∀ s,
  config_ (remove_keys s ks) = config_ s ∧ clock_ (remove_keys s ks) = clock_ s.
Proof.
  induction ks as [|k ks IH]; intros s; [done|]. cbn.
  fold (remove_keys (Remove s k).2 ks).
  destruct (IH (Remove s k).2) as [-> ->]. apply env_Remove.
Qed.

Lemma expired_in_nil lvl s :
  (∀ k, expired_at lvl s k = false) → expired_in lvl s = [].
Proof.
  intros H. destruct (expired_in lvl s) as [|k l] eqn:He; [done|].
  assert (Hin : k ∈ expired_in lvl s) by (rewrite He; by left).
  apply elem_of_expired_in in Hin. by rewrite H in Hin.
Qed.

(** X16. After a sweep no entry of the Medium or the Slow tier is expired,
    so a second sweep at the same time changes nothing. *)
Theorem CleanupExpired_idempotent s :
  (∀ k, sweep_collects (CleanupExpired s) k = false)
  ∧ CleanupExpired (CleanupExpired s) = CleanupExpired s.
Proof.
  assert (Hk : ∀ lvl k, lvl ≠ L1_GPU →
             expired_at lvl (CleanupExpired s) k = false).
  { intros lvl k Hlvl. unfold expired_at, CleanupExpired.
    fold (remove_keys s (expired_in L2_RAM s ++ expired_in L3_DISK s)).
    rewrite cache_of_remove_keys. case_decide as Hin; [done|].
    destruct (cache_of lvl s !! k) as [e|] eqn:He; [|done].
    unfold IsExpired.
    destruct (env_remove_keys (expired_in L2_RAM s ++ expired_in L3_DISK s) s)
      as [-> ->].
    fold (IsExpired s e). destruct (IsExpired s e) eqn:Hex; [|done].
    destruct Hin. rewrite elem_of_app, !elem_of_expired_in.
    unfold expired_at. destruct lvl; [done|left|right]; by rewrite He. }
  split.
  - intros k. unfold sweep_collects. by rewrite !Hk.
  - unfold CleanupExpired at 1.
    rewrite !expired_in_nil by (intros k; by apply Hk). done.
Qed.

(** ** The eviction counter *)

Lemma evictions_remove_from lvl key rs :
  CacheStats.evictions (stats_ (remove_from lvl key rs).2)
  = CacheStats.evictions (stats_ rs.2).
Proof. rewrite stats_remove_from. by case_match. Qed.

Lemma evictions_Remove s key :
  CacheStats.evictions (stats_ (Remove s key).2)
  = CacheStats.evictions (stats_ s).
Proof.
  assert (H : CacheStats.evictions (stats_ (removed_all s key))
              = CacheStats.evictions (stats_ s)).
  { unfold removed_all. by rewrite !evictions_remove_from. }
  by destruct (Remove_state s key) as [-> | ->].
Qed.

Lemma evictions_remove_keys ks : ∀ s,
  CacheStats.evictions (stats_ (remove_keys s ks))
  = CacheStats.evictions (stats_ s).
Proof.
  induction ks as [|k ks IH]; intros s; [done|]. cbn.
  fold (remove_keys (Remove s k).2 ks). rewrite IH. apply evictions_Remove.
Qed.

Lemma evictions_PutToLevel s key d lvl :
  CacheStats.evictions (stats_ (PutToLevel s key d lvl).2)
  = CacheStats.evictions (stats_ s).
Proof.
  destruct lvl; [done..|]. unfold PutToLevel, SaveToFile. cbn.
  by destruct (io_ s) as [|[| |n|n] io].
Qed.

Lemma evictions_GetFromLevel s key buf lvl :
  CacheStats.evictions (stats_ (GetFromLevel s key buf lvl).2)
  = CacheStats.evictions (stats_ s).
Proof.
  destruct lvl; cbn.
  - by destruct (l1_cache_ s !! key).
  - by destruct (l2_cache_ s !! key).
  - destruct (l3_cache_ s !! key); [|done]. unfold LoadFromFile.
    destruct (io_ s) as [|[| |n|n] io];
      try destruct (files_ s !! GetFilePath s key); done.
Qed.

Lemma evictions_record_hit lvl key s :
  CacheStats.evictions (stats_ (record_hit lvl key s))
  = CacheStats.evictions (stats_ s).
Proof. by destruct lvl. Qed.

Lemma evictions_promote lvl key d s :
  CacheStats.evictions (stats_ (promote lvl key d s))
  = CacheStats.evictions (stats_ s).
Proof. unfold promote. case_match; [|done]. apply evictions_PutToLevel. Qed.

Lemma evictions_Get s key buf :
  CacheStats.evictions (stats_ (Get s key buf).2)
  = CacheStats.evictions (stats_ s).
Proof.
  unfold Get.
  pose proof (evictions_GetFromLevel s key buf L1_GPU) as H1.
  destruct (GetFromLevel s key buf L1_GPU) as [[[] d1] s1]; cbn [fst snd] in *.
  { by rewrite evictions_record_hit. }
  pose proof (evictions_GetFromLevel s1 key d1 L2_RAM) as H2.
  destruct (GetFromLevel s1 key d1 L2_RAM) as [[[] d2] s2]; cbn [fst snd] in *.
  { rewrite evictions_promote, evictions_record_hit. congruence. }
  pose proof (evictions_GetFromLevel s2 key d2 L3_DISK) as H3.
  destruct (GetFromLevel s2 key d2 L3_DISK) as [[[] d3] s3]; cbn [fst snd] in *.
  { rewrite evictions_promote, evictions_record_hit. congruence. }
  cbn. congruence.
Qed.

Lemma evictions_EvictLRU s lvl :
  CacheStats.evictions (stats_ (EvictLRU s lvl))
  = if decide (LRUCache.GetLRU (lru_of lvl s) = "")
    then CacheStats.evictions (stats_ s)
    else wrap64 (CacheStats.evictions (stats_ s) + 1).
Proof.
  unfold EvictLRU. case_decide; [done|]. cbn. by rewrite evictions_Remove.
Qed.

(** X17. What moves the counter [evictions].  [Get] (promotions
    included), [Remove], [Clear], the expiry sweep, [PutToLevel] and
    [UpdateConfig] leave it as it is: entries the sweep or [Remove] take
    out are not counted as evictions.  [EvictLRU] - which the loops of
    [Put] and of [Evict] call - adds exactly one when [GetLRU] names a key
    and nothing when it yields the empty string; a [Put] whose loop does
    not run leaves the counter alone; [ResetStats] sets it to zero. *)
Theorem evictions_counted_by_EvictLRU s :
  (∀ key buf, CacheStats.evictions (stats_ (Get s key buf).2)
              = CacheStats.evictions (stats_ s))
  ∧ (∀ key, CacheStats.evictions (stats_ (Remove s key).2)
            = CacheStats.evictions (stats_ s))
  ∧ CacheStats.evictions (stats_ (Clear s)) = CacheStats.evictions (stats_ s)
  ∧ CacheStats.evictions (stats_ (CleanupExpired s))
    = CacheStats.evictions (stats_ s)
  ∧ (∀ key d lvl, CacheStats.evictions (stats_ (PutToLevel s key d lvl).2)
                  = CacheStats.evictions (stats_ s))
  ∧ (∀ cfg, CacheStats.evictions (stats_ (UpdateConfig cfg s))
            = CacheStats.evictions (stats_ s))
  ∧ (∀ lvl, CacheStats.evictions (stats_ (EvictLRU s lvl))
            = if decide (LRUCache.GetLRU (lru_of lvl s) = "")
              then CacheStats.evictions (stats_ s)
              else wrap64 (CacheStats.evictions (stats_ s) + 1))
  ∧ (∀ key d pref, NeedEviction s (target_level s d pref) = false →
       ∃ r, Put s key d pref = Some r
            ∧ CacheStats.evictions (stats_ r.2)
              = CacheStats.evictions (stats_ s))
  ∧ CacheStats.evictions (stats_ (ResetStats s)) = 0.
Proof.
  split; [intros; apply evictions_Get|].
  split; [intros; apply evictions_Remove|].
  split; [done|].
  split; [apply evictions_remove_keys|].
  split; [intros; apply evictions_PutToLevel|].
  split; [done|].
  split; [intros; apply evictions_EvictLRU|].
  split; [|done].
  intros key d pref Hn. eexists. split; [by apply Put_no_eviction|].
  apply evictions_PutToLevel.
Qed.

(** ** Reachable states *)

Lemma coherent_tier_size m (l : list string) :
  coherent_tier m l → length l = size m.
Proof.
  intros [Hnd Hk]. rewrite <- length_map_to_list.
  rewrite <- (length_fmap fst (map_to_list m)).
  apply Permutation_length, NoDup_Permutation;
    [done|apply NoDup_fst_map_to_list|].
  intros k. rewrite Hk, list_elem_of_fmap. split.
  - intros [e He]. exists (k, e). split; [done|]. by apply elem_of_map_to_list.
  - intros ([k' e] & -> & Hin). apply elem_of_map_to_list in Hin. by eexists.
Qed.

(** X18. In every state a new cache reaches through [Get], [Put],
    [Remove], [Clear], expiry sweeps and the passing of time, each tier's
    LRU index and map agree: the index has no duplicates, lists exactly the
    keys of the map, [Size] of the index is the tier's entry count, and
    every entry's [size] is the length of its bytes. *)
Theorem reachable_tiers_agree config files now io cs s n m lvl :
  run (FragmentCache config files now io) cs = Some (s, n, m) →
  NoDup (lru_of lvl s)
  ∧ (∀ k, k ∈ lru_of lvl s ↔ is_Some (cache_of lvl s !! k))
  ∧ LRUCache.Size (lru_of lvl s) = GetEntryCount s lvl
  ∧ (∀ k e, cache_of lvl s !! k = Some e →
            CacheEntry.size e = vsize (CacheEntry.data e)).
Proof.
  intros Hrun.
  pose proof (coherent_run _ _ _ _ _ Hrun
                (coherent_FragmentCache config files now io)) as [Hc Hs].
  destruct (Hc lvl) as [Hnd Hk]. split; [done|]. split; [done|]. split.
  - unfold LRUCache.Size, GetEntryCount. f_equal.
    by apply coherent_tier_size.
  - intros k e. apply Hs.
Qed.

(** ** The order of the LRU index *)

Lemma newest_first_weaken m l : ∀ b b',
  b ≤ b' → newest_first m b l → newest_first m b' l.
Proof.
  induction l as [|k l IH]; intros b b' Hb; cbn; [done|].
  destruct (m !! k) as [e|]; [|by apply IH].
  intros [? ?]. split; [lia|done].
Qed.

Lemma newest_first_ext m m' l : ∀ b,
  (∀ k, k ∈ l → m !! k = m' !! k) →
  newest_first m b l → newest_first m' b l.
Proof.
  induction l as [|k l IH]; intros b Hm; cbn; [done|].
  rewrite <- (Hm k) by (by left).
  destruct (m !! k) as [e|].
  - intros [? ?]. split; [done|]. apply IH; [|done].
    intros k' Hk'. apply Hm. by right.
  - apply IH. intros k' Hk'. apply Hm. by right.
Qed.

Lemma newest_first_filter m (P : string → Prop) `{!∀ k, Decision (P k)} l :
  ∀ b, newest_first m b l → newest_first m b (filter P l).
Proof.
  induction l as [|k l IH]; intros b; [done|].
  rewrite filter_cons. cbn. case_decide; cbn.
  - destruct (m !! k) as [e|]; [|by apply IH].
    intros [? ?]. split; [done|]. by apply IH.
  - destruct (m !! k) as [e|]; [|by apply IH].
    intros [? ?]. eapply newest_first_weaken; [done|]. by apply IH.
Qed.

Lemma newest_first_delete m key l : ∀ b,
  newest_first m b l → newest_first (delete key m) b l.
Proof.
  induction l as [|k l IH]; intros b; cbn; [done|].
  destruct (decide (k = key)) as [->|Hne].
  - rewrite lookup_delete_eq. destruct (m !! key) as [e|]; [|by apply IH].
    intros [? ?]. eapply newest_first_weaken; [done|]. by apply IH.
  - rewrite lookup_delete_ne by done.
    destruct (m !! k) as [e|]; [|by apply IH].
    intros [? ?]. split; [done|]. by apply IH.
Qed.

Lemma newest_first_Remove m key l b :
  newest_first m b l →
  newest_first (delete key m) b (LRUCache.Remove key l).
Proof.
  intros H. apply newest_first_delete. unfold LRUCache.Remove.
  case_decide; [|done]. by apply newest_first_filter.
Qed.

Lemma newest_first_Access m key e l b now :
  newest_first m b l → b ≤ CacheEntry.last_access e →
  CacheEntry.last_access e ≤ now →
  newest_first (<[key := e]> m) now (LRUCache.Access key l).
Proof.
  intros H Hb Hnow.
  assert (Hrest : newest_first (<[key := e]> m) (CacheEntry.last_access e)
                    (LRUCache.RemoveNode key l)).
  { apply (newest_first_ext m).
    - intros k Hk. apply list_elem_of_filter in Hk as [Hne _].
      by rewrite lookup_insert_ne.
    - eapply newest_first_weaken; [done|]. by apply newest_first_filter. }
  unfold LRUCache.Access. case_decide as Hin; cbn; rewrite lookup_insert_eq.
  - done.
  - split; [done|]. apply (newest_first_ext m).
    + intros k Hk. rewrite lookup_insert_ne; [done|]. by intros ->.
    + by eapply newest_first_weaken.
Qed.

Lemma newest_first_bound m l : ∀ b k e,
  newest_first m b l → k ∈ l → m !! k = Some e →
  CacheEntry.last_access e ≤ b.
Proof.
  induction l as [|k0 l IH]; intros b k e; cbn.
  { intros _ Hk. by apply elem_of_nil in Hk. }
  intros H Hk He. apply elem_of_cons in Hk as [->|Hk].
  - rewrite He in H. by destruct H.
  - destruct (m !! k0) as [e0|].
    + destruct H as [? H]. pose proof (IH _ _ _ H Hk He). lia.
    + by eapply IH.
Qed.

Lemma newest_first_last m l k0 e0 : ∀ b k e,
  newest_first m b (l ++ [k0]) → m !! k0 = Some e0 →
  k ∈ l ++ [k0] → m !! k = Some e →
  CacheEntry.last_access e0 ≤ CacheEntry.last_access e.
Proof.
  induction l as [|k1 l IH]; intros b k e; cbn.
  { intros _ H0 Hk He. apply list_elem_of_singleton in Hk as ->.
    assert (e = e0) as -> by congruence. lia. }
  intros H H0 Hk He. apply elem_of_cons in Hk as [->|Hk].
  - rewrite He in H. destruct H as [_ H].
    apply (newest_first_bound _ _ _ k0 e0 H); [|done].
    apply elem_of_app. right. by left.
  - destruct (m !! k1) as [e1|].
    + destruct H as [_ H]. by eapply IH.
    + by eapply IH.
Qed.

Lemma clock_PutToLevel s key d lvl :
  clock_ (PutToLevel s key d lvl).2 = clock_ s.
Proof.
  destruct lvl; [done..|]. unfold PutToLevel, SaveToFile. cbn.
  by destruct (io_ s) as [|[| |n|n] io].
Qed.

Lemma clock_GetFromLevel s key buf lvl :
  clock_ (GetFromLevel s key buf lvl).2 = clock_ s.
Proof.
  destruct lvl; cbn.
  - by destruct (l1_cache_ s !! key).
  - by destruct (l2_cache_ s !! key).
  - destruct (l3_cache_ s !! key); [|done]. unfold LoadFromFile.
    destruct (io_ s) as [|[| |n|n] io];
      try destruct (files_ s !! GetFilePath s key); done.
Qed.

Lemma GetFromLevel_touch s key buf lvl :
  (GetFromLevel s key buf lvl).1.1 = true →
  ∃ e, cache_of lvl s !! key = Some e
       ∧ ∀ lvl', cache_of lvl' (GetFromLevel s key buf lvl).2
                 = if decide (lvl' = lvl)
                   then <[key := CacheEntry.touch (clock_ s) e]> (cache_of lvl s)
                   else cache_of lvl' s.
Proof.
  destruct lvl; cbn.
  - destruct (l1_cache_ s !! key) as [e|]; [|done]. intros _.
    exists e. split; [done|]. by intros [].
  - destruct (l2_cache_ s !! key) as [e|]; [|done]. intros _.
    exists e. split; [done|]. by intros [].
  - destruct (l3_cache_ s !! key) as [e|]; [|done]. unfold LoadFromFile.
    destruct (io_ s) as [|[| |n|n] io];
      try destruct (files_ s !! GetFilePath s key); try done;
      intros _; exists e; (split; [done|]); by intros [].
Qed.

Lemma recency_PutToLevel s key d lvl :
  recency_ordered s → recency_ordered (PutToLevel s key d lvl).2.
Proof.
  intros H lvl'. destruct (PutToLevel_tiers s key d lvl) as [Hm Hl].
  rewrite Hm, Hl, clock_PutToLevel.
  case_decide as Heq; [subst lvl'|apply H].
  assert (Hi : newest_first (<[key := new_entry s key d lvl]> (cache_of lvl s))
                 (clock_ s) (LRUCache.Access key (lru_of lvl s))).
  { apply (newest_first_Access _ _ _ _ (clock_ s)); [apply H|done|done]. }
  destruct (PutToLevel s key d lvl).1; [done|].
  by apply newest_first_Remove.
Qed.

Lemma recency_Remove s key : recency_ordered s → recency_ordered (Remove s key).2.
Proof.
  intros H lvl. rewrite cache_of_Remove, lru_of_Remove.
  rewrite (proj2 (env_Remove s key)).
  destruct (cache_of lvl s !! key).
  - apply newest_first_Remove, H.
  - apply newest_first_delete, H.
Qed.

Lemma recency_set_stats st s : recency_ordered s → recency_ordered (set_stats st s).
Proof. intros H lvl. destruct lvl; [apply (H L1_GPU)|apply (H L2_RAM)|apply (H L3_DISK)]. Qed.

Lemma recency_EvictLRU s lvl : recency_ordered s → recency_ordered (EvictLRU s lvl).
Proof.
  intros H. unfold EvictLRU. case_decide; [done|].
  by apply recency_set_stats, recency_Remove.
Qed.

Lemma recency_evict_while fuel lvl : ∀ s s',
  evict_while fuel lvl s = Some s' → recency_ordered s → recency_ordered s'.
Proof.
  induction fuel as [|fuel IH]; intros s s'; cbn;
    destruct (NeedEviction s lvl); try done.
  - by intros [= <-].
  - intros He H. eapply IH; [done|]. by apply recency_EvictLRU.
  - by intros [= <-].
Qed.

Lemma recency_Put s key d lvl r :
  Put s key d lvl = Some r → recency_ordered s → recency_ordered r.2.
Proof.
  unfold Put, Put_fuel.
  destruct (evict_while _ _ s) as [s'|] eqn:He; [|done].
  intros [= <-] H. apply recency_PutToLevel.
  by eapply recency_evict_while.
Qed.

Lemma recency_miss s key buf lvl :
  (GetFromLevel s key buf lvl).1.1 = false →
  recency_ordered s → recency_ordered (GetFromLevel s key buf lvl).2.
Proof.
  intros Hf H lvl'.
  destruct (GetFromLevel_tiers s key buf lvl) as [Hl [[_ Hm]|[Ht _]]];
    [|congruence].
  rewrite Hl, Hm, clock_GetFromLevel. apply H.
Qed.

Lemma recency_hit s key buf lvl :
  (GetFromLevel s key buf lvl).1.1 = true →
  recency_ordered s →
  recency_ordered (record_hit lvl key (GetFromLevel s key buf lvl).2).
Proof.
  intros Ht H lvl'.
  destruct (GetFromLevel_touch s key buf lvl Ht) as (e & He & Hm).
  destruct (GetFromLevel_tiers s key buf lvl) as [Hl _].
  unfold record_hit. rewrite cache_of_set_tier, lru_of_set_tier.
  assert (Hclk : clock_ (set_tier lvl
                   (cache_of lvl (set_stats (stats_hit
                      (stats_ (GetFromLevel s key buf lvl).2))
                      (GetFromLevel s key buf lvl).2))
                   (LRUCache.Access key
                      (lru_of lvl (set_stats (stats_hit
                         (stats_ (GetFromLevel s key buf lvl).2))
                         (GetFromLevel s key buf lvl).2)))
                   (set_stats (stats_hit (stats_ (GetFromLevel s key buf lvl).2))
                      (GetFromLevel s key buf lvl).2))
                 = clock_ s).
  { rewrite <- (clock_GetFromLevel s key buf lvl). by destruct lvl. }
  rewrite Hclk.
  change (cache_of ?l (set_stats ?st ?x)) with (cache_of l x).
  change (lru_of ?l (set_stats ?st ?x)) with (lru_of l x).
  rewrite !Hm, !Hl. case_decide as Heq.
  - subst lvl'. rewrite decide_True by done.
    apply (newest_first_Access _ _ _ _ (clock_ s)); [apply H|done|done].
  - apply H.
Qed.

Lemma recency_promote lvl key d s :
  recency_ordered s → recency_ordered (promote lvl key d s).
Proof.
  intros H. unfold promote. case_match; [|done]. by apply recency_PutToLevel.
Qed.

Lemma recency_Get s key buf : recency_ordered s → recency_ordered (Get s key buf).2.
Proof.
  intros H. unfold Get.
  pose proof (recency_hit s key buf L1_GPU) as Hh1.
  pose proof (recency_miss s key buf L1_GPU) as Hm1.
  destruct (GetFromLevel s key buf L1_GPU) as [[[] d1] s1]; cbn [fst snd] in *.
  { by apply Hh1. }
  specialize (Hm1 eq_refl H).
  pose proof (recency_hit s1 key d1 L2_RAM) as Hh2.
  pose proof (recency_miss s1 key d1 L2_RAM) as Hm2.
  destruct (GetFromLevel s1 key d1 L2_RAM) as [[[] d2] s2]; cbn [fst snd] in *.
  { apply recency_promote. by apply Hh2. }
  specialize (Hm2 eq_refl Hm1).
  pose proof (recency_hit s2 key d2 L3_DISK) as Hh3.
  pose proof (recency_miss s2 key d2 L3_DISK) as Hm3.
  destruct (GetFromLevel s2 key d2 L3_DISK) as [[[] d3] s3]; cbn [fst snd] in *.
  { apply recency_promote. by apply Hh3. }
  apply recency_set_stats. by apply Hm3.
Qed.

Lemma recency_remove_keys ks : ∀ s,
  recency_ordered s → recency_ordered (remove_keys s ks).
Proof.
  induction ks as [|k ks IH]; intros s H; [done|]. cbn.
  fold (remove_keys (Remove s k).2 ks). by apply IH, recency_Remove.
Qed.

Lemma recency_step s c s' o :
  step s c = Some (s', o) →
  match c with call_advance_clock t => 0 ≤ t | _ => True end →
  recency_ordered s → recency_ordered s'.
Proof.
  destruct c; cbn.
  - intros [= <- <-] _. apply recency_Get.
  - destruct (Put s key d preferred_level) as [r|] eqn:Hp; [|done].
    intros [= <- <-] _. by eapply recency_Put.
  - intros [= <- <-] _. apply recency_Remove.
  - intros [= <- <-] _ _ lvl. by destruct lvl.
  - intros [= <- <-] _. apply recency_remove_keys.
  - intros [= <- <-] Ht H lvl.
    apply (newest_first_weaken _ _ (clock_ s)); [cbn; lia|].
    destruct lvl; [apply (H L1_GPU)|apply (H L2_RAM)|apply (H L3_DISK)].
Qed.

Lemma recency_run cs : ∀ s s' n m,
  run s cs = Some (s', n, m) → clock_monotone cs →
  recency_ordered s → recency_ordered s'.
Proof.
  induction cs as [|c cs IH]; intros s s' n m; cbn.
  { by intros [= <- <- <-]. }
  destruct (step s c) as [[s1 o]|] eqn:Hstep; [|done].
  destruct (run s1 cs) as [[[s2 n2] m2]|] eqn:Hrun; [|done].
  intros [= <- <- <-] Hmono H.
  apply Forall_cons in Hmono as [Hc Hmono].
  eapply IH; [done|done|]. by eapply recency_step.
Qed.

(** X19. The index is a true least-recently-used order.  In every state a
    new cache reaches while time does not run backwards, the key [GetLRU]
    names in a non-empty tier - the next victim of [EvictLRU] - has an
    entry, and no entry of that tier has an older [last_access]; no entry
    was accessed after the current time. *)
Theorem eviction_victim_is_oldest config files now io cs s n m lvl k e :
  run (FragmentCache config files now io) cs = Some (s, n, m) →
  clock_monotone cs →
  cache_of lvl s !! k = Some e →
  CacheEntry.last_access e ≤ clock_ s
  ∧ ∃ e0, cache_of lvl s !! LRUCache.GetLRU (lru_of lvl s) = Some e0
          ∧ CacheEntry.last_access e0 ≤ CacheEntry.last_access e.
Proof.
  intros Hrun Hmono He.
  pose proof (coherent_run _ _ _ _ _ Hrun
                (coherent_FragmentCache config files now io)) as [Hc _].
  assert (Hr : recency_ordered s).
  { eapply recency_run; [done|done|]. intros l. by destruct l. }
  specialize (Hr lvl). destruct (Hc lvl) as [_ Hk].
  assert (Hin : k ∈ lru_of lvl s) by (apply Hk; by eexists).
  split; [by eapply newest_first_bound|].
  unfold LRUCache.GetLRU.
  destruct (last (lru_of lvl s)) as [k0|] eqn:Hlast.
  2:{ apply last_None in Hlast. rewrite Hlast in Hin.
      by apply elem_of_nil in Hin. }
  apply last_Some in Hlast as [l' Hl]. rewrite Hl in Hr, Hin.
  assert (Hk0 : is_Some (cache_of lvl s !! k0)).
  { apply Hk. rewrite Hl. apply elem_of_app. right. by left. }
  destruct Hk0 as [e0 He0]. exists e0. split; [done|].
  by eapply newest_first_last.
Qed.

(** ** Evict *)

Lemma Evict_fuel_mono fuel t : ∀ fuel' s s',
  Evict_fuel fuel s t = Some s' → (fuel ≤ fuel')%nat →
  Evict_fuel fuel' s t = Some s'.
Proof.
  induction fuel as [|fuel IH]; intros fuel' s s'; cbn.
  - destruct (t <? _) eqn:Hc; [|destruct fuel'; cbn; by rewrite Hc].
    destruct (evict_source s) as [lvl|] eqn:Hs; [done|].
    destruct fuel'; cbn; by rewrite Hc, Hs.
  - destruct (t <? _) eqn:Hc; [|destruct fuel'; cbn; by rewrite Hc].
    destruct (evict_source s) as [lvl|] eqn:Hs.
    + intros He Hle. destruct fuel' as [|fuel']; [lia|]. cbn.
      rewrite Hc, Hs. apply IH; [done|lia].
    + destruct fuel'; cbn; by rewrite Hc, Hs.
Qed.

Lemma evict_source_ext s s' :
  (∀ lvl, cache_of lvl s' = cache_of lvl s) → evict_source s' = evict_source s.
Proof.
  intros H. unfold evict_source.
  pose proof (H L1_GPU) as H1. pose proof (H L2_RAM) as H2.
  pose proof (H L3_DISK) as H3. cbn in H1, H2, H3. by rewrite H1, H2, H3.
Qed.

Lemma evict_source_Some s lvl : evict_source s = Some lvl → cache_of lvl s ≠ ∅.
Proof.
  unfold evict_source. repeat case_bool_decide; intros [= <-]; done.
Qed.

Lemma evict_stuck_EvictLRU s t lvl :
  evict_stuck s t → evict_source s = Some lvl →
  evict_stuck (EvictLRU s lvl) t.
Proof.
  intros (Ht & lvl0 & Hs0 & Hk) Hs.
  assert (lvl0 = lvl) as -> by congruence.
  unfold EvictLRU. case_decide as He.
  { split; [done|]. by exists lvl. }
  destruct Hk as [?|Hk]; [done|].
  rewrite (Remove_not_held s _ Hk). cbn [snd].
  split; [done|]. exists lvl. split; [|by right].
  rewrite <- Hs. apply evict_source_ext. by intros [].
Qed.

Lemma evict_stuck_diverges t fuel : ∀ s,
  evict_stuck s t → Evict_fuel fuel s t = None.
Proof.
  induction fuel as [|fuel IH]; intros s Hst;
    pose proof Hst as (Ht & lvl & Hs & _); cbn;
    rewrite (proj2 (Z.ltb_lt _ _) Ht), Hs; [done|].
  by apply IH, evict_stuck_EvictLRU.
Qed.

Lemma held_somewhere s k :
  (∃ lvl, is_Some (cache_of lvl s !! k)) ∨ (∀ lvl, cache_of lvl s !! k = None).
Proof.
  destruct (cache_of L1_GPU s !! k) eqn:H1; [left; exists L1_GPU; by rewrite H1|].
  destruct (cache_of L2_RAM s !! k) eqn:H2; [left; exists L2_RAM; by rewrite H2|].
  destruct (cache_of L3_DISK s !! k) eqn:H3;
    [left; exists L3_DISK; by rewrite H3|].
  right. by intros [].
Qed.

Lemma entries_EvictLRU_le s lvl : (entries (EvictLRU s lvl) ≤ entries s)%nat.
Proof.
  unfold entries.
  pose proof (cache_of_EvictLRU lvl L1_GPU s) as H1.
  pose proof (cache_of_EvictLRU lvl L2_RAM s) as H2.
  pose proof (cache_of_EvictLRU lvl L3_DISK s) as H3.
  cbn [cache_of] in H1, H2, H3. rewrite H1, H2, H3.
  case_decide; [done|]. rewrite !map_size_delete.
  repeat case_match; cbn; lia.
Qed.

Lemma entries_EvictLRU_lt s lvl lvl' :
  LRUCache.GetLRU (lru_of lvl s) ≠ "" →
  is_Some (cache_of lvl' s !! LRUCache.GetLRU (lru_of lvl s)) →
  (entries (EvictLRU s lvl) < entries s)%nat.
Proof.
  intros He [e Hk]. unfold entries.
  pose proof (cache_of_EvictLRU lvl L1_GPU s) as H1.
  pose proof (cache_of_EvictLRU lvl L2_RAM s) as H2.
  pose proof (cache_of_EvictLRU lvl L3_DISK s) as H3.
  cbn [cache_of] in H1, H2, H3. rewrite H1, H2, H3.
  rewrite !decide_False by done. rewrite !map_size_delete.
  assert (Hpos : size (cache_of lvl' s) ≠ 0%nat).
  { intros H0. apply map_size_empty_inv in H0. rewrite H0 in Hk.
    by rewrite lookup_empty in Hk. }
  destruct lvl'; cbn [cache_of] in Hk, Hpos; rewrite Hk;
    repeat case_match; cbn; lia.
Qed.

(** The fuel [Evict] gives its loop is enough: when the loop has not
    exited within [entries s] iterations it never exits. *)
Lemma Evict_None_diverges s t :
  Evict s t = None → ∀ fuel, Evict_fuel fuel s t = None.
Proof.
  unfold Evict. remember (entries s) as n eqn:Hn.
  revert s Hn. induction (lt_wf n) as [n _ IH]. intros s Hn Hnone fuel.
  destruct (t <? CacheStats.total_size (stats_ s)) eqn:Hc.
  2:{ destruct n; cbn in Hnone; by rewrite Hc in Hnone. }
  destruct (evict_source s) as [lvl|] eqn:Hs.
  2:{ destruct n; cbn in Hnone; by rewrite Hc, Hs in Hnone. }
  destruct (decide (LRUCache.GetLRU (lru_of lvl s) = "")) as [He|He].
  { apply evict_stuck_diverges. split; [by apply Z.ltb_lt|]. exists lvl. auto. }
  destruct (held_somewhere s (LRUCache.GetLRU (lru_of lvl s)))
    as [[lvl' Hk]|Hall].
  2:{ apply evict_stuck_diverges. split; [by apply Z.ltb_lt|].
      exists lvl. auto. }
  pose proof (entries_EvictLRU_lt s lvl lvl' He Hk) as Hlt.
  destruct n as [|n]; [lia|]. cbn in Hnone. rewrite Hc, Hs in Hnone.
  assert (Hnone' : Evict_fuel (entries (EvictLRU s lvl)) (EvictLRU s lvl) t
                   = None).
  { destruct (Evict_fuel (entries (EvictLRU s lvl)) (EvictLRU s lvl) t)
      as [s'|] eqn:Hev; [|done].
    rewrite (Evict_fuel_mono _ _ n _ _ Hev) in Hnone by lia. done. }
  destruct fuel as [|fuel]; cbn; rewrite Hc, Hs; [done|].
  eapply (IH (entries (EvictLRU s lvl))); [lia|done|done].
Qed.

Lemma cache_of_EvictLRU_subseteq' lvl lvl' s :
  cache_of lvl' (EvictLRU s lvl) ⊆ cache_of lvl' s.
Proof.
  rewrite cache_of_EvictLRU. case_decide; [done|]. apply delete_subseteq.
Qed.

Lemma Evict_fuel_terminates t n : ∀ s,
  entries s = n → coherent s → (∀ lvl, "" ∉ lru_of lvl s) →
  ∃ s', Evict_fuel n s t = Some s'
        ∧ (CacheStats.total_size (stats_ s') ≤ t
           ∨ ∀ lvl, cache_of lvl s' = ∅)
        ∧ (∀ lvl, cache_of lvl s' ⊆ cache_of lvl s)
        ∧ config_ s' = config_ s.
Proof.
  induction (lt_wf n) as [n _ IH]. intros s Hn Hc Hk.
  destruct (t <? CacheStats.total_size (stats_ s)) eqn:Hcond.
  2:{ exists s. split; [destruct n; cbn; by rewrite Hcond|].
      split; [left; by apply Z.ltb_ge|]. done. }
  destruct (evict_source s) as [lvl|] eqn:Hs.
  2:{ exists s. split; [destruct n; cbn; by rewrite Hcond, Hs|].
      split; [|done]. right. unfold evict_source in Hs.
      repeat case_bool_decide; try done.
      intros []; cbn; assumption. }
  assert (Hne : lru_of lvl s ≠ []).
  { intros Hnil. apply (evict_source_Some _ _ Hs).
    apply coherent_tier_nil. rewrite <- Hnil. apply Hc. }
  pose proof (GetLRU_elem _ Hne) as Hin.
  assert (He : LRUCache.GetLRU (lru_of lvl s) ≠ "").
  { intros He. rewrite He in Hin. by apply (Hk lvl). }
  assert (Hheld : is_Some (cache_of lvl s !! LRUCache.GetLRU (lru_of lvl s))).
  { by apply (proj1 Hc lvl). }
  pose proof (entries_EvictLRU_lt s lvl lvl He Hheld) as Hlt.
  destruct (IH (entries (EvictLRU s lvl)) ltac:(lia) (EvictLRU s lvl) eq_refl)
    as (s' & Hs' & Hpost & Hsub & Hcfg).
  - by apply coherent_EvictLRU.
  - intros lvl'. rewrite lru_of_EvictLRU. rewrite decide_False by done.
    case_match; [|apply Hk].
    rewrite elem_of_LRUCache_Remove. intros [Hin' _]. by apply (Hk lvl').
  - exists s'. split; [|split; [done|split]].
    + destruct n as [|n]; [lia|]. cbn. rewrite Hcond, Hs.
      eapply Evict_fuel_mono; [done|lia].
    + intros lvl'. etrans; [apply Hsub|]. apply cache_of_EvictLRU_subseteq'.
    + rewrite Hcfg. apply env_EvictLRU.
Qed.

(** X20. [Evict (target_size)] returns whenever the cache is in a state it
    can reach and the empty string is not one of its keys.  It stops either
    with [total_size] at or below the target or with all three tiers empty
    (the counter can stay above the target when it overcounts), and it
    never adds an entry. *)
Theorem Evict_reaches_target s target_size :
  coherent s →
  (∀ lvl, "" ∉ lru_of lvl s) →
  ∃ s', Evict s target_size = Some s'
        ∧ (CacheStats.total_size (stats_ s') ≤ target_size
           ∨ ∀ lvl, cache_of lvl s' = ∅)
        ∧ (∀ lvl, cache_of lvl s' ⊆ cache_of lvl s)
        ∧ config_ s' = config_ s.
Proof. intros Hc Hk. by apply Evict_fuel_terminates. Qed.

(** ** Prefetch *)

Lemma hit_miss_prefetch_key callback s key s' :
  prefetch_key callback s key = Some s' →
  hit_miss s' = hit_miss (Get s key []).2.
Proof.
  unfold prefetch_key. cbn zeta.
  destruct (Get s key []).1.1; [by intros [= <-]|].
  destruct (callback key) as [data|]; [|by intros [= <-]].
  case_bool_decide; [by intros [= <-]|].
  destruct (Put _ key data L2_RAM) as [p|] eqn:Hp; [|done].
  intros [= <-]. by eapply hit_miss_Put.
Qed.

Lemma prefetch_keys_lookups callback keys : ∀ s s',
  prefetch_keys callback s keys = Some s' →
  ∃ h m : nat,
    (h + m)%nat = length keys
    ∧ wrap64 (CacheStats.hits (stats_ s'))
      = wrap64 (CacheStats.hits (stats_ s) + Z.of_nat h)
    ∧ wrap64 (CacheStats.misses (stats_ s'))
      = wrap64 (CacheStats.misses (stats_ s) + Z.of_nat m).
Proof.
  induction keys as [|key keys IH]; intros s s'; cbn.
  { intros [= <-]. exists 0%nat, 0%nat. by rewrite !Z.add_0_r. }
  destruct (prefetch_key callback s key) as [s1|] eqn:Hk; [|done].
  intros Hrest. destruct (IH _ _ Hrest) as (h & m & Hlen & Hh & Hm).
  pose proof (hit_miss_prefetch_key _ _ _ _ Hk) as H1.
  rewrite hit_miss_Get in H1. unfold hit_miss in H1.
  destruct (Get s key []).1.1; injection H1 as H1h H1m.
  - exists (S h), m. split; [cbn; lia|].
    rewrite Hh, Hm, H1h, H1m, wrap64_add_l. split; [f_equal; lia|done].
  - exists h, (S m). split; [lia|].
    rewrite Hh, Hm, H1h, H1m, wrap64_add_l. split; [done|f_equal; lia].
Qed.

(** X21. [Prefetch] does nothing when prefetching is disabled or no
    callback is set.  Otherwise its thread looks every key up with [Get]
    exactly once, so the keys it finds cached are counted as hits and the
    others as misses, in the same counters the clients' lookups use. *)
Theorem Prefetch_counts_lookups enabled callback s keys s' :
  Prefetch enabled callback s keys = Some s' →
  (enabled = false ∨ callback = None → s' = s)
  ∧ (enabled = true → is_Some callback →
     ∃ h m : nat,
       (h + m)%nat = length keys
       ∧ wrap64 (CacheStats.hits (stats_ s'))
         = wrap64 (CacheStats.hits (stats_ s) + Z.of_nat h)
       ∧ wrap64 (CacheStats.misses (stats_ s'))
         = wrap64 (CacheStats.misses (stats_ s) + Z.of_nat m)).
Proof.
  intros Hp. split.
  - intros [-> | ->]; [by injection Hp|].
    destruct enabled; by injection Hp.
  - intros -> [cb ->]. by apply (prefetch_keys_lookups cb).
Qed.

(** X22. Prefetching a key that no tier holds, for which the callback
    delivers bytes that are not empty and fit the Medium tier, stores the
    bytes there: the next [Get] of the key returns exactly them.  The
    lookup the thread made first has been counted as a miss. *)
Theorem Prefetch_loads_missing_key callback s key d s' buf :
  (∀ lvl, cache_of lvl s !! key = None) →
  callback key = Some d →
  d ≠ [] →
  wrap64 (GetCurrentSize s L2_RAM + vsize d) ≤ Config.max_l2_size (config_ s) →
  Prefetch true (Some callback) s [key] = Some s' →
  (∃ e, l2_cache_ s' !! key = Some e ∧ CacheEntry.data e = d)
  ∧ (Get s' key buf).1 = (true, d)
  ∧ CacheStats.misses (stats_ s')
    = wrap64 (CacheStats.misses (stats_ s) + 1)
  ∧ CacheStats.hits (stats_ s') = CacheStats.hits (stats_ s).
Proof.
  intros Habs Hcb Hd Hfit Hp. cbn in Hp.
  destruct (prefetch_key callback s key) as [s1|] eqn:Hk; [|done].
  injection Hp as ->. unfold prefetch_key in Hk. cbn zeta in Hk.
  assert (Hget : Get s key []
                 = (false, [], set_stats (stats_miss (stats_ s)) s)).
  { unfold Get.
    rewrite (GetFromLevel_memory_miss s key [] L1_GPU) by (done || apply Habs).
    rewrite (GetFromLevel_memory_miss s key [] L2_RAM) by (done || apply Habs).
    unfold GetFromLevel. pose proof (Habs L3_DISK) as H3. cbn in H3.
    by rewrite H3. }
  rewrite Hget, Hcb in Hk. cbn [fst snd] in Hk.
  rewrite bool_decide_eq_false_2 in Hk by done.
  set (s0 := set_stats (stats_miss (stats_ s)) s) in *.
  destruct (Put s0 key d L2_RAM) as [p|] eqn:Hput; [|done].
  injection Hk as <-.
  pose proof (hit_miss_Put _ _ _ _ _ Hput) as Hhm.
  assert (Ht : target_level s0 d L2_RAM = L2_RAM).
  { apply target_level_medium_fits. exact Hfit. }
  unfold Put, Put_fuel in Hput. rewrite Ht in Hput.
  destruct (evict_while _ L2_RAM s0) as [sE|] eqn:He; [|done].
  rewrite PutToLevel_memory in Hput by done. injection Hput as <-.
  cbn [snd] in *.
  assert (H2 : l2_cache_ (count_put (new_entry sE key d L2_RAM)
                 (set_tier L2_RAM
                    (<[key := new_entry sE key d L2_RAM]> (cache_of L2_RAM sE))
                    (LRUCache.Access key (lru_of L2_RAM sE)) sE)) !! key
               = Some (new_entry sE key d L2_RAM)).
  { cbn. apply lookup_insert_eq. }
  assert (H1 : l1_cache_ (count_put (new_entry sE key d L2_RAM)
                 (set_tier L2_RAM
                    (<[key := new_entry sE key d L2_RAM]> (cache_of L2_RAM sE))
                    (LRUCache.Access key (lru_of L2_RAM sE)) sE)) !! key
               = None).
  { cbn. eapply lookup_weaken_None; [apply (Habs L1_GPU)|].
    exact (evict_while_subseteq _ _ L1_GPU _ _ He). }
  split; [by eexists|]. split.
  - rewrite (new_entry_memory sE key d L2_RAM) in H2 by done.
    exact (Get_medium_hit _ key buf _ H1 H2).
  - unfold hit_miss in Hhm. injection Hhm as Hh Hm.
    split; [exact Hm|exact Hh].
Qed.

(** ** The LRU index on its own *)

Lemma last_filter_ne (l : list string) key k :
  last l = Some k → k ≠ key → last (filter (λ x, x ≠ key) l) = Some k.
Proof.
  intros Hl Hne. apply last_Some in Hl as [l' ->].
  rewrite filter_app, filter_cons_True by done. rewrite filter_nil.
  apply last_snoc.
Qed.

Lemma filter_ne_id (l : list string) key :
  key ∉ l → filter (λ k, k ≠ key) l = l.
Proof.
  induction l as [|k l IH]; [done|]. intros Hk.
  apply not_elem_of_cons in Hk as [Hne Hk].
  rewrite filter_cons_True by done. by rewrite IH.
Qed.

(** X23. [Access] on an index without duplicates puts the key at the head,
    keeps the index free of duplicates and the other keys in their order,
    and grows the index by one exactly when the key is new.  The least
    recently used key stays the same unless it is the key accessed. *)
Theorem LRUCache_Access_order (l : LRUCache.t) key :
  NoDup l →
  NoDup (LRUCache.Access key l)
  ∧ head (LRUCache.Access key l) = Some key
  ∧ LRUCache.RemoveNode key (LRUCache.Access key l) = LRUCache.RemoveNode key l
  ∧ LRUCache.Size (LRUCache.Access key l)
    = (if decide (key ∈ l) then LRUCache.Size l else LRUCache.Size l + 1)
  ∧ (l ≠ [] → LRUCache.GetLRU l ≠ key →
     LRUCache.GetLRU (LRUCache.Access key l) = LRUCache.GetLRU l).
Proof.
  intros Hnd. split; [by apply NoDup_LRUCache_Access|].
  split; [unfold LRUCache.Access; by case_decide|].
  split; [|split].
  - unfold LRUCache.Access, LRUCache.RemoveNode.
    case_decide; rewrite filter_cons_False by (by intros []); [|done].
    apply list_filter_filter_l. tauto.
  - unfold LRUCache.Access, LRUCache.Size, LRUCache.RemoveNode.
    case_decide as Hin; cbn [length]; [|lia].
    apply list_elem_of_split in Hin as (l1 & l2 & ->).
    apply NoDup_app in Hnd as (_ & Hn1 & Hnd2).
    apply NoDup_cons in Hnd2 as [Hn2 _].
    rewrite filter_app, filter_cons_False by (by intros []).
    rewrite !filter_ne_id; [|done|].
    + rewrite !length_app. cbn. lia.
    + intros Hin. by apply (Hn1 key); [|left].
  - intros Hne Hk. unfold LRUCache.GetLRU in *.
    destruct (last l) as [k|] eqn:Hlast; [|by apply last_None in Hlast].
    unfold LRUCache.Access, LRUCache.RemoveNode. case_decide.
    + rewrite last_cons, (last_filter_ne l key k) by done. done.
    + by rewrite last_cons, Hlast.
Qed.

(** X25. [Remove] on an index without duplicates takes the key out and
    nothing else, keeps the other keys in their order and shrinks the
    index by one exactly when the key was tracked; a key that is not
    tracked leaves the index as it is.  Removing a key right after the
    [Access] that introduced it gives the index back as it was. *)
Theorem LRUCache_Remove_order (l : LRUCache.t) key :
  NoDup l →
  NoDup (LRUCache.Remove key l)
  ∧ (∀ k, k ∈ LRUCache.Remove key l ↔ k ∈ l ∧ k ≠ key)
  ∧ LRUCache.Remove key l = LRUCache.RemoveNode key l
  ∧ LRUCache.Size (LRUCache.Remove key l)
    = (if decide (key ∈ l) then LRUCache.Size l - 1 else LRUCache.Size l)
  ∧ (key ∉ l → LRUCache.Remove key l = l
               ∧ LRUCache.Remove key (LRUCache.Access key l) = l).
Proof.
  intros Hnd. split; [by apply NoDup_LRUCache_Remove|].
  split; [intros k; apply elem_of_LRUCache_Remove|].
  assert (Hrm : LRUCache.Remove key l = LRUCache.RemoveNode key l).
  { unfold LRUCache.Remove, LRUCache.RemoveNode. case_decide as Hin; [done|].
    by rewrite filter_ne_id. }
  split; [done|]. split.
  - rewrite Hrm. unfold LRUCache.Size, LRUCache.RemoveNode.
    case_decide as Hin; [|by rewrite filter_ne_id].
    apply list_elem_of_split in Hin as (l1 & l2 & ->).
    apply NoDup_app in Hnd as (_ & Hn1 & Hnd2).
    apply NoDup_cons in Hnd2 as [Hn2 _].
    rewrite filter_app, filter_cons_False by (by intros []).
    rewrite !filter_ne_id; [|done|].
    + rewrite !length_app. cbn. lia.
    + intros Hin. by apply (Hn1 key); [|left].
  - intros Hin. split.
    + rewrite Hrm. by apply filter_ne_id.
    + unfold LRUCache.Access. rewrite decide_False by done.
      unfold LRUCache.Remove, LRUCache.RemoveNode.
      rewrite decide_True by (by left).
      rewrite filter_cons_False by (by intros []). by apply filter_ne_id.
Qed.

(** ** The hit ratio *)

(** X24. While the sum of the two counters fits 64 bits, the hit ratio lies
    between 0 and 1; it is 0 exactly when there was no hit, and 0 (not
    undefined) when there was no lookup at all. *)
Theorem GetHitRatio_bounds (st : CacheStats.t) :
  0 ≤ CacheStats.hits st →
  0 ≤ CacheStats.misses st →
  CacheStats.hits st + CacheStats.misses st < 2 ^ 64 →
  (0 <= CacheStats.GetHitRatio st)%Q
  ∧ (CacheStats.GetHitRatio st <= 1)%Q
  ∧ ((CacheStats.GetHitRatio st == 0)%Q ↔ CacheStats.hits st = 0).
Proof.
  intros Hh Hm Hsum. unfold CacheStats.GetHitRatio, wrap64.
  rewrite Z.mod_small by lia.
  destruct (0 <? CacheStats.hits st + CacheStats.misses st) eqn:Hpos.
  - apply Z.ltb_lt in Hpos.
    destruct (double_div_bounds (CacheStats.to_double (CacheStats.hits st))
                (CacheStats.to_double
                   (CacheStats.hits st + CacheStats.misses st)))
      as (H0 & H1 & Hz).
    + split; [by apply to_double_nonneg|]. apply to_double_mono. lia.
    + by apply to_double_pos.
    + split; [done|]. split; [done|]. rewrite Hz. split.
      * intros Hd. destruct (Z.eq_dec (CacheStats.hits st) 0); [done|].
        pose proof (to_double_pos (CacheStats.hits st) ltac:(lia)). lia.
      * by intros ->.
  - apply Z.ltb_ge in Hpos. unfold Qle, Qeq. cbn. split; [lia|].
    split; [lia|]. lia.
Qed.

End Properties.

(** * Concrete runs *)

Section Runs.
Local Existing Instance reference_externals.

(** The reference codec satisfies the zlib contract. *)
Lemma stored_uncompress_compress2 d lvl c cap :
  stored_compress2 d lvl = Some c → vsize d ≤ cap →
  stored_uncompress cap c = Some d.
Proof.
  unfold stored_compress2, stored_uncompress.
  destruct ((-1 <=? lvl) && (lvl <=? 9)); [|done].
  intros [= <-] Hle. by rewrite (proj2 (Z.leb_le _ _) Hle).
Defined.

Lemma stored_uncompress_buf_error d lvl c cap :
  stored_compress2 d lvl = Some c → cap < vsize d →
  stored_uncompress cap c = None.
Proof.
  unfold stored_compress2, stored_uncompress.
  destruct ((-1 <=? lvl) && (lvl <=? 9)); [|done].
  intros [= <-] Hlt. by rewrite (proj2 (Z.leb_gt _ _) Hlt).
Defined.

(** Scenario A run through [Put_then_Get_roundtrip]: the 100-byte fragment
    is stored compressed (101 bytes with the reference codec) and read back
    unchanged. *)
Lemma Put_then_Get_roundtrip_witness :
  Put scenario_A_start "frag1" (replicate 100 x2a) L3_DISK
  = Some (true, scenario_A_stored)
  ∧ (Get scenario_A_stored "frag1" []).1 = (true, replicate 100 x2a).
Proof.
  assert (Hput : Put scenario_A_start "frag1" (replicate 100 x2a) L3_DISK
                 = Some (true, scenario_A_stored))
    by (vm_compute; reflexivity).
  split; [exact Hput|].
  apply (Put_then_Get_roundtrip (ext := reference_externals)
           stored_uncompress_compress2
           scenario_A_start "frag1" (replicate 100 x2a) L3_DISK
           scenario_A_stored [] Hput).
  - intros lvl' _. destruct lvl'; vm_compute; reflexivity.
  - intros _. split; [vm_compute; exact I|].
    split; [vm_compute; exact I|]. intros _. split.
    + vm_compute. eexists. reflexivity.
    + vm_compute. discriminate.
Defined.

(** The claim of C1 fails when a faster tier holds an older copy.  ["k"]
    was written (byte 01, default tier) and read once, which copied it into
    the Fast tier; it is now written again (byte 02, default tier): the
    [Put] succeeds, lands in the Medium tier, and the [Get] that follows
    immediately returns byte 01 from the Fast tier. *)
Lemma Put_then_Get_stale_copy :
  Put promoted "k" [x02] L2_RAM = Some (true, promoted_rewritten)
  ∧ target_level promoted [x02] L2_RAM = L2_RAM
  ∧ (Get promoted_rewritten "k" []).1 = (true, [x01])
  ∧ (Get promoted_rewritten "k" []).1 ≠ (true, [x02]).
Proof. repeat split; vm_compute; (reflexivity || discriminate). Qed.

(** [Put_memory_tier_within_cap] at the [Put] that fills the Fast tier. *)
Lemma Put_memory_tier_within_cap_witness :
  Put small_fast "a" (replicate 1000 x00) L1_GPU = Some (true, full_fast)
  ∧ GetCurrentSize full_fast L1_GPU ≤ max_size_of L1_GPU (config_ full_fast).
Proof.
  assert (Hput : Put small_fast "a" (replicate 1000 x00) L1_GPU
                 = Some (true, full_fast)) by (vm_compute; reflexivity).
  split; [exact Hput|].
  refine (proj2 (proj2 (Put_memory_tier_within_cap small_fast "a"
            (replicate 1000 x00) L1_GPU (true, full_fast) Hput) _ _ _)).
  - vm_compute. discriminate.
  - intros lvl k e Hk. destruct lvl; cbn in Hk;
      rewrite lookup_empty in Hk; discriminate Hk.
  - vm_compute. reflexivity.
Defined.

(** The claim of C2 fails in both directions it can: a [Put] into the Fast
    tier leaves it holding exactly its cap (1000 of 1000 bytes, not strictly
    less), and a [Put] into the Slow tier leaves it above its cap (2000 of
    1000 bytes). *)
Lemma Put_reaches_or_exceeds_cap :
  (Put small_fast "a" (replicate 1000 x00) L1_GPU = Some (true, full_fast)
   ∧ target_level small_fast (replicate 1000 x00) L1_GPU = L1_GPU
   ∧ GetCurrentSize full_fast L1_GPU = 1000
   ∧ max_size_of L1_GPU (config_ full_fast) = 1000)
  ∧ (Put small_slow "a" (replicate 2000 x00) L3_DISK = Some (true, overfull_slow)
     ∧ target_level small_slow (replicate 2000 x00) L3_DISK = L3_DISK
     ∧ GetCurrentSize overfull_slow L3_DISK = 2000
     ∧ max_size_of L3_DISK (config_ overfull_slow) = 1000).
Proof. vm_compute. repeat split. Qed.

(** [scenario_B_demotes_without_eviction] at the keys "a" to "e". *)
Lemma scenario_B_demotes_without_eviction_witness :
  ∃ s5,
    put_all small_fast scenario_B_items L1_GPU
    = Some ([true; true; true; true; true], s5)
    ∧ dom (l1_cache_ s5) = list_to_set ["a"; "b"; "c"]
    ∧ GetEntryCount s5 L1_GPU = 3
    ∧ dom (l2_cache_ s5) = list_to_set ["d"; "e"]
    ∧ GetEntryCount s5 L2_RAM = 2
    ∧ GetEntryCount s5 L3_DISK = 0
    ∧ CacheStats.evictions (GetStats s5) = 0.
Proof.
  apply (scenario_B_demotes_without_eviction
           (Config.with_max_l1_size 1000 Config.default) eq_refl
           ltac:(vm_compute; discriminate)
           "a" "b" "c" "d" "e" (replicate 300 x01) (replicate 300 x02)
           (replicate 300 x03) (replicate 300 x04) (replicate 300 x05) ∅ 0 []).
  - apply (bool_decide_unpack _). vm_compute. exact I.
  - vm_compute; reflexivity.
  - vm_compute; reflexivity.
  - vm_compute; reflexivity.
  - vm_compute; reflexivity.
  - vm_compute; reflexivity.
Defined.

(** The claim of C3 fails on the scenario itself: after the five [Put]s the
    Fast tier holds three entries, not two, and no eviction was recorded,
    not three. *)
Lemma scenario_B_three_resident_no_eviction :
  put_all small_fast scenario_B_items L1_GPU
  = Some ([true; true; true; true; true], scenario_B_final)
  ∧ GetEntryCount scenario_B_final L1_GPU = 3
  ∧ l1_lru_ scenario_B_final = ["c"; "b"; "a"]
  ∧ l2_lru_ scenario_B_final = ["e"; "d"]
  ∧ CacheStats.evictions (GetStats scenario_B_final) = 0
  ∧ GetEntryCount scenario_B_final L1_GPU ≠ 2
  ∧ CacheStats.evictions (GetStats scenario_B_final) ≠ 3.
Proof. vm_compute. repeat split; discriminate. Qed.

(** C4. A [Put] that replaces a Slow-tier entry while the file cannot be
    opened goes straight to [PutToLevel], which returns [false] and loses
    the entry that was stored: the key is gone from the Slow tier's map and
    LRU index, although the statistics still count the old entry and its
    file is still on disk. *)
Theorem failed_replacing_Put_loses_entry :
  is_Some (l3_cache_ slow_entry_failing_disk !! "k")
  ∧ l3_lru_ slow_entry_failing_disk = ["k"]
  ∧ Put slow_entry_failing_disk "k" [x02] L3_DISK = Some failed_replacement
  ∧ failed_replacement.1 = false
  ∧ l3_cache_ failed_replacement.2 !! "k" = None
  ∧ l3_lru_ failed_replacement.2 = []
  ∧ GetStats failed_replacement.2 = GetStats slow_entry_failing_disk
  ∧ CacheStats.entry_count (GetStats failed_replacement.2) = 1
  ∧ CacheStats.total_size (GetStats failed_replacement.2) = 1
  ∧ files_ failed_replacement.2 = files_ slow_entry_failing_disk.
Proof.
  split; [vm_compute; by eexists|].
  repeat split; vm_compute; reflexivity.
Qed.

(** [Get_promotes_slow_to_medium] at a key stored in the Slow tier only. *)
Lemma Get_promotes_slow_to_medium_witness :
  (Get slow_only "k" []).1 = (true, [x01])
  ∧ (∀ buf', (GetFromLevel (Get slow_only "k" []).2 "k" buf' L2_RAM).1
             = (true, (Get slow_only "k" []).1.2))
  ∧ is_Some (l3_cache_ (Get slow_only "k" []).2 !! "k").
Proof.
  split; [vm_compute; reflexivity|].
  destruct (Get_promotes_slow_to_medium slow_only "k" [])
    as (Hm & (e & He & He') & _).
  - vm_compute; reflexivity.
  - vm_compute; reflexivity.
  - vm_compute; reflexivity.
  - vm_compute. discriminate.
  - split; [exact Hm|]. rewrite He'. by eexists.
Defined.

(** The claim of C6 fails for the Fast tier: ["k"] sits in the Fast tier
    with an entry read 1000 seconds ago (not expired) and in the Medium tier
    with an entry untouched for 4000 seconds; the sweep removes the key from
    the Fast tier too. *)
Lemma sweep_removes_fast_entry :
  (IsExpired promoted_and_aged <$> l1_cache_ promoted_and_aged !! "k")
  = Some false
  ∧ (IsExpired promoted_and_aged <$> l2_cache_ promoted_and_aged !! "k")
    = Some true
  ∧ l1_cache_ (CleanupExpired promoted_and_aged) !! "k" = None
  ∧ l1_lru_ (CleanupExpired promoted_and_aged) = [].
Proof. vm_compute. repeat split. Qed.

(** [stats_consistency] on a run with one hit and one miss: one half is a
    double, the ratio is exact. *)
Lemma stats_consistency_witness :
  run fresh one_hit_one_miss_calls = Some (one_hit_one_miss, 1%nat, 1%nat)
  ∧ CacheStats.hits (GetStats one_hit_one_miss) = 1
  ∧ CacheStats.misses (GetStats one_hit_one_miss) = 1
  ∧ (CacheStats.GetHitRatio (GetStats one_hit_one_miss) == Qmake 1 2)%Q.
Proof.
  assert (Hrun : run fresh one_hit_one_miss_calls
                 = Some (one_hit_one_miss, 1%nat, 1%nat))
    by (vm_compute; reflexivity).
  split; [exact Hrun|].
  destruct (stats_consistency fresh one_hit_one_miss_calls one_hit_one_miss
              1%nat 1%nat eq_refl eq_refl Hrun) as (Hh & Hm & Hr & _).
  - vm_compute. reflexivity.
  - split; [exact Hh|]. split; [exact Hm|]. rewrite Hr.
    vm_compute. reflexivity.
Defined.

(** The claim of C7 fails for the ratio as soon as N / (N + M) is not a
    double: after one hit and two misses [GetHitRatio] returns the double
    nearest to one third, 6004799503160661 / 2^54, which is not one
    third. *)
Lemma hit_ratio_of_one_in_three :
  run fresh one_hit_two_misses_calls
  = Some (one_hit_two_misses, 1%nat, 2%nat)
  ∧ CacheStats.hits (GetStats one_hit_two_misses) = 1
  ∧ CacheStats.misses (GetStats one_hit_two_misses) = 2
  ∧ CacheStats.GetHitRatio (GetStats one_hit_two_misses)
    = Qmake 6004799503160661 (2 ^ 54)
  ∧ ¬ (CacheStats.GetHitRatio (GetStats one_hit_two_misses) == Qmake 1 3)%Q.
Proof.
  split; [vm_compute; reflexivity|]. split; [vm_compute; reflexivity|].
  split; [vm_compute; reflexivity|]. split; [vm_compute; reflexivity|].
  vm_compute. discriminate.
Qed.

(** The double arithmetic of [GetHitRatio] agrees with the IEEE 754
    specification of the Standard Library ([SpecFloat], binary64) on every
    pair of counters below 60 and on counters around 2^53, 2^63 and
    2^64. *)
Lemma double_arithmetic_agrees_with_SpecFloat :
  forallb (λ h, forallb (λ t, doubles_agree (Z.of_nat h) (Z.of_nat (S t)))
                  (seq 0 60)) (seq 0 60) = true
  ∧ forallb (λ h, forallb (doubles_agree h) large_counters) large_counters
    = true.
Proof. split; vm_compute; reflexivity. Qed.

Lemma stored_state_by_Put d :
  64 * 1024 ≤ vsize d →
  Put fresh "k" d L3_DISK = Some (true, stored_state d).
Proof.
  intros Hd. rewrite Put_no_eviction by reflexivity.
  change (target_level fresh d L3_DISK) with L3_DISK.
  f_equal. unfold PutToLevel.
  assert (He : new_entry fresh "k" d L3_DISK = stored_entry d).
  { unfold new_entry, stores_compressed.
    change (Config.compression_threshold (config_ fresh)) with (64 * 1024).
    rewrite (proj2 (Z.leb_le _ _) Hd). reflexivity. }
  rewrite He. reflexivity.
Defined.

(** [Get_oversized_returns_compressed] at a payload of 10 MiB + 1 byte
    written by [Put] to the Slow tier of a new cache: [Get] reports a hit
    and returns the 10 MiB + 2 stored bytes. *)
Lemma Get_oversized_returns_compressed_witness :
  10 * 1024 * 1024 < vsize oversized
  ∧ Put fresh "k" oversized L3_DISK = Some (true, stored_state oversized)
  ∧ (Get (stored_state oversized) "k" []).1 = (true, x78 :: oversized)
  ∧ x78 :: oversized ≠ oversized.
Proof.
  assert (Hlen : 10 * 1024 * 1024 < vsize oversized).
  { unfold vsize, oversized. rewrite length_replicate, Z2Nat.id; lia. }
  split; [exact Hlen|]. split; [apply stored_state_by_Put; lia|]. split.
  - refine (proj2 (proj2 (Get_oversized_returns_compressed
              (ext := reference_externals) stored_uncompress_buf_error
              (stored_state oversized) "k" []
              (stored_entry oversized) oversized 6 (x78 :: oversized)
              _ _ _ eq_refl eq_refl _ I Hlen))).
    + apply lookup_empty.
    + apply lookup_empty.
    + apply lookup_singleton_eq.
    + change (GetFilePath (stored_state oversized) "k") with "cache/1.cache".
      apply lookup_singleton_eq.
  - intros Heq. apply (f_equal length) in Heq. cbn in Heq. lia.
Defined.

(** [Put_replace_overcounts] at a key written twice to the Medium tier of
    a new cache: one live entry, [entry_count] 2. *)
Lemma Put_replace_overcounts_witness :
  is_Some (l2_cache_ medium_entry !! "k")
  ∧ ∃ s1, Put medium_entry "k" [x02] L2_RAM = Some (true, s1)
          ∧ GetEntryCount s1 L2_RAM = 1
          ∧ live_entries s1 = 1
          ∧ CacheStats.entry_count (stats_ s1) = 2
          ∧ CacheStats.total_size (stats_ s1) = 2
          ∧ live_entries s1 < CacheStats.entry_count (stats_ s1).
Proof.
  assert (He : cache_of (target_level medium_entry [x02] L2_RAM) medium_entry
                 !! "k"
               = Some (CacheEntry.mk [x01] 1 0 0 1 false L2_RAM "k"))
    by (vm_compute; reflexivity).
  destruct (Put_replace_overcounts medium_entry "k" [x02] L2_RAM _
              ltac:(vm_compute; discriminate) He
              ltac:(vm_compute; reflexivity))
    as (s1 & Hput & _ & Hc & Hec & Hts & Hover).
  split; [vm_compute; by eexists|]. exists s1.
  split; [exact Hput|].
  split; [rewrite (Hc L2_RAM); vm_compute; reflexivity|].
  assert (Hlive : live_entries s1 = 1).
  { unfold live_entries. rewrite !Hc. vm_compute; reflexivity. }
  split; [exact Hlive|].
  split; [rewrite Hec; vm_compute; reflexivity|].
  split; [rewrite Hts; vm_compute; reflexivity|].
  apply Hover; vm_compute; [discriminate|reflexivity].
Defined.

(** The claim of C10 fails when the tier is at 90% of its cap or more:
    ["a"] holds 950 of the 1000 bytes of the Fast tier; the [Put] that
    replaces it with 10 bytes first evicts ["a"] itself in its loop, so
    that [entry_count] is 1 before and after, equal to the number of live
    entries, and [total_size] is the 10 bytes. *)
Lemma replacing_Put_evicts_the_key_first :
  is_Some (l1_cache_ nearly_full_fast !! "a")
  ∧ target_level nearly_full_fast (replicate 10 x01) L1_GPU = L1_GPU
  ∧ Put nearly_full_fast "a" (replicate 10 x01) L1_GPU
    = Some (true, nearly_full_fast_rewritten)
  ∧ CacheStats.entry_count (stats_ nearly_full_fast) = 1
  ∧ CacheStats.entry_count (stats_ nearly_full_fast_rewritten) = 1
  ∧ live_entries nearly_full_fast_rewritten = 1
  ∧ CacheStats.total_size (stats_ nearly_full_fast_rewritten) = 10
  ∧ CacheStats.evictions (stats_ nearly_full_fast_rewritten) = 1
  ∧ ¬ (live_entries nearly_full_fast_rewritten
       < CacheStats.entry_count (stats_ nearly_full_fast_rewritten)).
Proof.
  split; [vm_compute; by eexists|].
  repeat split; vm_compute; (reflexivity || discriminate).
Qed.

(** ** Runs of the further properties *)

Lemma coherent_one_hit_one_miss : coherent one_hit_one_miss.
Proof.
  apply (coherent_run one_hit_one_miss_calls fresh one_hit_one_miss
           1%nat 1%nat).
  - vm_compute; reflexivity.
  - apply coherent_FragmentCache.
Defined.

(** [Remove_counters] at a key held by the Fast and the Medium tier: two
    entries go, [entry_count] drops from 2 to 1. *)
Lemma Remove_counters_witness :
  (Remove promoted "k").1 = true
  ∧ holders promoted "k" = 2
  ∧ live_entries (Remove promoted "k").2 = live_entries promoted - 2
  ∧ CacheStats.entry_count (stats_ promoted) = 2
  ∧ CacheStats.entry_count (stats_ (Remove promoted "k").2) = 1.
Proof.
  assert (Hr : (Remove promoted "k").1 = true) by (vm_compute; reflexivity).
  assert (Hh : holders promoted "k" = 2) by (vm_compute; reflexivity).
  destruct (Remove_counters promoted "k" Hr) as (_ & Hl & He & _).
  split; [exact Hr|]. split; [exact Hh|]. rewrite Hh in Hl.
  split; [exact Hl|]. split; [vm_compute; reflexivity|].
  rewrite He. vm_compute; reflexivity.
Defined.

(** [Get_absent_key] on a new cache. *)
Lemma Get_absent_key_witness :
  Get fresh "k" [x07] = (false, [x07], set_stats (stats_miss (stats_ fresh)) fresh).
Proof.
  apply (Get_absent_key fresh "k" [x07]). intros []; vm_compute; reflexivity.
Defined.

(** [Get_promotes_medium_to_fast] at a key written to the Medium tier. *)
Lemma Get_promotes_medium_to_fast_witness :
  (Get medium_entry "k" []).1 = (true, [x01])
  ∧ ∀ buf', (GetFromLevel (Get medium_entry "k" []).2 "k" buf' L1_GPU).1
            = (true, [x01]).
Proof.
  destruct (Get_promotes_medium_to_fast medium_entry "k" []
              (CacheEntry.mk [x01] 1 0 0 1 false L2_RAM "k"))
    as (Hg & _ & _ & Hfit & _).
  - vm_compute; reflexivity.
  - vm_compute; reflexivity.
  - split; [exact Hg|]. apply Hfit. vm_compute. discriminate.
Defined.

(** [Get_slow_entry_without_file] at a Slow-tier key whose file is gone. *)
Lemma Get_slow_entry_without_file_witness :
  is_Some (l3_cache_ slow_entry_missing_file !! "k")
  ∧ (Get slow_entry_missing_file "k" [x07]).1 = (false, [x07])
  ∧ is_Some (l3_cache_ (Get slow_entry_missing_file "k" [x07]).2 !! "k").
Proof.
  assert (He : l3_cache_ slow_entry_missing_file !! "k"
               = Some (CacheEntry.mk [x01] 1 0 0 1 false L3_DISK "k"))
    by (vm_compute; reflexivity).
  destruct (Get_slow_entry_without_file slow_entry_missing_file "k" [x07] _
              ltac:(vm_compute; reflexivity) ltac:(vm_compute; reflexivity)
              He ltac:(vm_compute; reflexivity)) as (Hg & Hm & _).
  split; [by eexists|]. split; [exact Hg|].
  specialize (Hm L3_DISK). cbn [cache_of] in Hm. rewrite Hm. by eexists.
Defined.

(** [colliding_keys_share_file]: ["a"] and ["b"] have the same hash in the
    reference instance; after both were written, ["a"] reads as the byte of
    ["b"]. *)
Lemma colliding_keys_share_file_witness :
  (Get colliding_pair "a" []).1 = (true, [x02]).
Proof.
  apply (colliding_keys_share_file uncompressed "a" "b" [x01] [x02] []).
  - vm_compute; reflexivity.
  - discriminate.
  - vm_compute; reflexivity.
  - vm_compute; reflexivity.
  - vm_compute; reflexivity.
  - vm_compute. exact I.
  - vm_compute; reflexivity.
  - vm_compute; reflexivity.
  - vm_compute. exact I.
Defined.

(** [Remove_deletes_shared_file]: removing ["b"] makes ["a"] unreadable. *)
Lemma Remove_deletes_shared_file_witness :
  is_Some (l3_cache_ (Remove colliding_pair "b").2 !! "a")
  ∧ (Get (Remove colliding_pair "b").2 "a" []).1 = (false, []).
Proof.
  destruct (Remove_deletes_shared_file colliding_pair "a" "b"
              (CacheEntry.mk [x01] 1 0 0 1 false L3_DISK "a") [])
    as (He & _ & Hg).
  - vm_compute; reflexivity.
  - discriminate.
  - vm_compute; reflexivity.
  - vm_compute; reflexivity.
  - vm_compute; reflexivity.
  - vm_compute. by eexists.
  - split; [rewrite He; by eexists|exact Hg].
Defined.

(** [compression_failure_round_trip]: the level 10 is rejected by the
    codec, the two bytes are stored as they are under the flag
    [compressed], and read back unchanged because the codec rejects them
    again. *)
Lemma compression_failure_round_trip_witness :
  Put bad_level "k" [x01; x02] L3_DISK = Some (true, bad_level_stored)
  ∧ (CacheEntry.compressed <$> l3_cache_ bad_level_stored !! "k") = Some true
  ∧ (Get bad_level_stored "k" []).1 = (true, [x01; x02]).
Proof.
  assert (Hput : Put bad_level "k" [x01; x02] L3_DISK
                 = Some (true, bad_level_stored)) by (vm_compute; reflexivity).
  destruct (compression_failure_round_trip bad_level "k" [x01; x02] L3_DISK
              bad_level_stored [] Hput)
    as ((e & He & Hc & _) & _ & Hg & _).
  - vm_compute. exact I.
  - vm_compute; reflexivity.
  - vm_compute; reflexivity.
  - vm_compute; reflexivity.
  - vm_compute. exact I.
  - vm_compute; reflexivity.
  - vm_compute; reflexivity.
  - split; [exact Hput|]. split; [by rewrite He, <- Hc|].
    apply Hg. vm_compute; reflexivity.
Defined.

(** [Put_terminates] on a new cache. *)
Lemma Put_terminates_witness : is_Some (Put fresh "a" [x01] L2_RAM).
Proof.
  apply (Put_terminates fresh "a" [x01] L2_RAM).
  - apply coherent_FragmentCache.
  - vm_compute; reflexivity.
  - vm_compute. apply not_elem_of_nil.
Defined.

(** [Put_loops_forever_on_empty_key]: nine of ten bytes of the Fast tier
    are stored under the empty string; the next [Put] to that tier finds
    it at 90% and never leaves its loop. *)
Lemma Put_loops_forever_on_empty_key_witness :
  is_Some (l1_cache_ empty_key_stored !! "")
  ∧ Put empty_key_stored "x" [x01] L1_GPU = None
  ∧ ∀ fuel, Put_fuel fuel empty_key_stored "x" [x01] L1_GPU = None.
Proof.
  split; [vm_compute; by eexists|].
  apply (Put_loops_forever_on_empty_key empty_key_stored "x" [x01] L1_GPU).
  - vm_compute; reflexivity.
  - vm_compute; reflexivity.
Defined.

(** [EvictLRU_removes_everywhere]: the victim of the Medium tier also has
    a copy in the Fast tier, which goes with it. *)
Lemma EvictLRU_removes_everywhere_witness :
  LRUCache.GetLRU (lru_of L2_RAM one_hit_one_miss) = "a"
  ∧ is_Some (l1_cache_ one_hit_one_miss !! "a")
  ∧ l1_cache_ (EvictLRU one_hit_one_miss L2_RAM) !! "a" = None
  ∧ l2_cache_ (EvictLRU one_hit_one_miss L2_RAM) !! "a" = None.
Proof.
  assert (Hk : LRUCache.GetLRU (lru_of L2_RAM one_hit_one_miss) = "a")
    by (vm_compute; reflexivity).
  destruct (EvictLRU_removes_everywhere one_hit_one_miss L2_RAM
              coherent_one_hit_one_miss) as (_ & Hm & _).
  - rewrite Hk. discriminate.
  - split; [exact Hk|]. split; [vm_compute; by eexists|].
    pose proof (Hm L1_GPU "a") as H1. pose proof (Hm L2_RAM "a") as H2.
    rewrite Hk in H1, H2. rewrite decide_True in H1, H2 by done.
    split; [exact H1|exact H2].
Defined.

(** [Put_lands_in_target] at the first [Put] of a new cache. *)
Lemma Put_lands_in_target_witness :
  Put fresh "k" [x01] L2_RAM = Some (true, medium_entry)
  ∧ ∃ e, cache_of (target_level fresh [x01] L2_RAM) medium_entry !! "k"
         = Some e
         ∧ CacheEntry.key e = "k"
         ∧ CacheEntry.level e = target_level fresh [x01] L2_RAM
         ∧ CacheEntry.last_access e = clock_ fresh
         ∧ CacheEntry.access_count e = 1
         ∧ CacheEntry.size e = vsize (CacheEntry.data e)
         ∧ (target_level fresh [x01] L2_RAM ≠ L3_DISK → CacheEntry.data e = [x01]).
Proof.
  assert (Hput : Put fresh "k" [x01] L2_RAM = Some (true, medium_entry))
    by (vm_compute; reflexivity).
  split; [exact Hput|].
  destruct (Put_lands_in_target fresh "k" [x01] L2_RAM true medium_entry Hput)
    as (_ & _ & He & _).
  exact (He eq_refl).
Defined.

(** [IsExpired_after_whole_seconds] with the default [max_age] of 3600
    seconds, 4000 seconds after the last access. *)
Lemma IsExpired_after_whole_seconds_witness :
  IsExpired promoted_and_aged (CacheEntry.mk [x01] 1 0 0 2 false L2_RAM "k")
  = true.
Proof.
  apply (IsExpired_after_whole_seconds promoted_and_aged
           (CacheEntry.mk [x01] 1 0 0 2 false L2_RAM "k")).
  - vm_compute. discriminate.
  - vm_compute. discriminate.
Defined.

(** [reachable_tiers_agree] after a write and two reads. *)
Lemma reachable_tiers_agree_witness :
  NoDup (lru_of L1_GPU one_hit_one_miss)
  ∧ LRUCache.Size (lru_of L1_GPU one_hit_one_miss)
    = GetEntryCount one_hit_one_miss L1_GPU.
Proof.
  destruct (reachable_tiers_agree Config.default ∅ 0 [] one_hit_one_miss_calls
              one_hit_one_miss 1%nat 1%nat L1_GPU) as (Hnd & _ & Hsz & _).
  - vm_compute; reflexivity.
  - split; [exact Hnd|exact Hsz].
Defined.

(** [eviction_victim_is_oldest]: ["a"] was written first but read last, so
    the victim of the Medium tier is ["b"]. *)
Lemma eviction_victim_is_oldest_witness :
  LRUCache.GetLRU (lru_of L2_RAM aged) = "b"
  ∧ ∃ e0, cache_of L2_RAM aged !! LRUCache.GetLRU (lru_of L2_RAM aged)
          = Some e0
          ∧ CacheEntry.last_access e0 ≤ 10.
Proof.
  split; [vm_compute; reflexivity|].
  destruct (eviction_victim_is_oldest Config.default ∅ 0 [] aging_calls aged
              1%nat 0%nat L2_RAM "a"
              (CacheEntry.mk [x01] 1 10 0 2 false L2_RAM "a"))
    as (_ & e0 & He0 & Hle).
  - vm_compute; reflexivity.
  - unfold clock_monotone, aging_calls.
    repeat (apply Forall_cons; split; [vm_compute; try exact I; discriminate|]).
    apply Forall_nil_2.
  - vm_compute; reflexivity.
  - exists e0. split; [exact He0|exact Hle].
Defined.

(** [Evict_reaches_target] with target 0 on a cache that holds one key in
    two tiers. *)
Lemma Evict_reaches_target_witness :
  ∃ s', Evict one_hit_one_miss 0 = Some s'
        ∧ (CacheStats.total_size (stats_ s') ≤ 0
           ∨ ∀ lvl, cache_of lvl s' = ∅)
        ∧ (∀ lvl, cache_of lvl s' ⊆ cache_of lvl one_hit_one_miss)
        ∧ config_ s' = config_ one_hit_one_miss.
Proof.
  apply (Evict_reaches_target one_hit_one_miss 0 coherent_one_hit_one_miss).
  intros []; vm_compute; intros H.
  - apply list_elem_of_singleton in H. discriminate H.
  - apply list_elem_of_singleton in H. discriminate H.
  - by apply elem_of_nil in H.
Defined.

(** [Prefetch_counts_lookups]: prefetching the same key twice counts one
    miss and one hit. *)
Lemma Prefetch_counts_lookups_witness :
  Prefetch true (Some one_byte_callback) fresh ["a"; "a"]
  = Some prefetched_twice
  ∧ hit_miss prefetched_twice = (1, 1)
  ∧ ∃ h m : nat,
      (h + m)%nat = 2%nat
      ∧ wrap64 (CacheStats.hits (stats_ prefetched_twice))
        = wrap64 (CacheStats.hits (stats_ fresh) + Z.of_nat h)
      ∧ wrap64 (CacheStats.misses (stats_ prefetched_twice))
        = wrap64 (CacheStats.misses (stats_ fresh) + Z.of_nat m).
Proof.
  assert (Hp : Prefetch true (Some one_byte_callback) fresh ["a"; "a"]
               = Some prefetched_twice) by (vm_compute; reflexivity).
  split; [exact Hp|]. split; [vm_compute; reflexivity|].
  apply (Prefetch_counts_lookups true (Some one_byte_callback) fresh
           ["a"; "a"] prefetched_twice Hp); [reflexivity|by eexists].
Defined.

(** [Prefetch_loads_missing_key] on a new cache. *)
Lemma Prefetch_loads_missing_key_witness :
  (Get prefetched_once "a" []).1 = (true, [x01])
  ∧ CacheStats.misses (stats_ prefetched_once) = 1.
Proof.
  destruct (Prefetch_loads_missing_key one_byte_callback fresh "a" [x01]
              prefetched_once []) as (_ & Hg & Hm & _).
  - intros []; vm_compute; reflexivity.
  - reflexivity.
  - discriminate.
  - vm_compute. discriminate.
  - vm_compute; reflexivity.
  - split; [exact Hg|]. rewrite Hm. vm_compute; reflexivity.
Defined.

(** [LRUCache_Access_order]: the middle key of three is accessed. *)
Lemma LRUCache_Access_order_witness :
  LRUCache.Access "b" ["a"; "b"; "c"] = ["b"; "a"; "c"]
  ∧ NoDup (LRUCache.Access "b" ["a"; "b"; "c"])
  ∧ LRUCache.GetLRU (LRUCache.Access "b" ["a"; "b"; "c"])
    = LRUCache.GetLRU ["a"; "b"; "c"].
Proof.
  split; [vm_compute; reflexivity|].
  destruct (LRUCache_Access_order ["a"; "b"; "c"] "b")
    as (Hnd & _ & _ & _ & Hlru).
  - apply (bool_decide_unpack _). vm_compute. exact I.
  - split; [exact Hnd|]. apply Hlru; vm_compute; discriminate.
Defined.

(** [GetHitRatio_bounds] at one hit and three misses. *)
Lemma GetHitRatio_bounds_witness :
  (0 <= CacheStats.GetHitRatio (CacheStats.mk 1 3 0 0 0))%Q
  ∧ (CacheStats.GetHitRatio (CacheStats.mk 1 3 0 0 0) <= 1)%Q.
Proof.
  destruct (GetHitRatio_bounds (CacheStats.mk 1 3 0 0 0)) as (H0 & H1 & _).
  - vm_compute. discriminate.
  - vm_compute. discriminate.
  - vm_compute; reflexivity.
  - split; [exact H0|exact H1].
Defined.

(** [LRUCache_Remove_order]: the middle key of three is removed. *)
Lemma LRUCache_Remove_order_witness :
  LRUCache.Remove "b" ["a"; "b"; "c"] = ["a"; "c"]
  ∧ NoDup (LRUCache.Remove "b" ["a"; "b"; "c"])
  ∧ LRUCache.Size (LRUCache.Remove "b" ["a"; "b"; "c"]) = 2.
Proof.
  split; [vm_compute; reflexivity|].
  destruct (LRUCache_Remove_order ["a"; "b"; "c"] "b")
    as (Hnd & _ & _ & Hsz & _).
  - apply (bool_decide_unpack _). vm_compute. exact I.
  - split; [exact Hnd|]. rewrite Hsz. vm_compute; reflexivity.
Defined.

(** [Put_true_on_refused_flush]: nothing of the three bytes reaches the
    file; [Put] returns [true] and the [Get] that follows returns [true]
    with no bytes. *)
Lemma Put_true_on_refused_flush_witness :
  Put refusing_disk "k" [x01; x02; x03] L3_DISK = Some (true, refused_write)
  ∧ (Get refused_write "k" []).1 = (true, []).
Proof.
  assert (Hput : Put refusing_disk "k" [x01; x02; x03] L3_DISK
                 = Some (true, refused_write)) by (vm_compute; reflexivity).
  split; [exact Hput|].
  destruct (Put_true_on_refused_flush refusing_disk "k" [x01; x02; x03]
              L3_DISK 0 [] (true, refused_write) [] Hput)
    as (_ & _ & _ & Hg).
  - vm_compute; reflexivity.
  - vm_compute; reflexivity.
  - apply Hg.
    + vm_compute; reflexivity.
    + vm_compute; reflexivity.
    + vm_compute; reflexivity.
    + vm_compute. exact I.
Defined.

End Runs.
